(** * sales-tracker: the data-access layer of [src/services/database.ts]

    A shallow embedding of the SQLite-backed repository functions and of the
    cross-entity workflows, together with the properties the specification
    states about them.  The embedding follows the later of the two versions
    of the file, the one with [PhoneNumbers], [CallLogs] and the polymorphic
    [entityType] of follow-ups.  It covers the repository functions of that
    file ([updateCallLog] apart), [signup] and [signin], and the token map
    of [src/services/passwordResetService.ts].

    Modelling choices, all taken from the source:
    - a table is the list of its rows in rowid order plus the value that
      SQLite keeps in [sqlite_sequence] for an [AUTOINCREMENT] key;
    - the module-level handle [db] is [option store]; every exported function
      starts with [if (!db) throw new Error("Database not initialized")];
    - every [await db.getFirstAsync / getAllAsync / runAsync] is one statement
      sent to the engine.  The engine may reject a statement (I/O error, full
      disk, constraint failure); the world carries a fault plan, one boolean
      per statement still to come, [true] meaning that the statement is
      rejected.  The empty plan is the healthy engine;
    - each function wraps its body in [try { .. } catch (error)
      { console.error(..); throw error; }], which rethrows the same error and
      is therefore the identity on outcomes;
    - no function of the file opens a transaction: every statement is
      committed on its own (SQLite autocommit);
    - [FOREIGN KEY] clauses are declared but the file never issues
      [PRAGMA foreign_keys = ON], so they are not enforced; [NOT NULL] holds
      by typing; [UNIQUE(userId, number)] is checked on insertion;
    - a JavaScript number is an IEEE 754 binary64 value, and so is a [REAL]
      of SQLite: both are Rocq's primitive [float], whose operations are the
      machine's.  Every addition, subtraction and division rounds to the
      nearest double, [0 / 0] is NaN, and a comparison with NaN is false.
      The one double that a [REAL NOT NULL] column cannot hold is NaN, which
      SQLite binds as NULL: an amount is a double other than NaN;
    - identifiers are integers ([Z]); dates are the ISO strings the source
      stores, compared bytewise as SQLite's BINARY collation does. *)

From Stdlib Require Import Floats.
From Stdlib Require Import ZArith List String Ascii Bool Lia.
From Stdlib Require Import Permutation Sorted.
Import ListNotations.

#[local] Set Warnings "-inexact-float".

Local Open Scope Z_scope.
Local Open Scope list_scope.

(** ** Entities ([src/types]) *)

Module Client.
Record t := mk {
    id : Z; userId : Z; name : string; phone : string;
    email : string; company : string; industry : string }.
End Client.

Module Prospect.
Inductive status := New | Contacted | Qualified | Won.

Definition status_eqb (a b : status) : bool :=
    match a, b with
    | New, New | Contacted, Contacted | Qualified, Qualified | Won, Won => true
    | _, _ => false
    end.

Record t := mk {
    id : Z; userId : Z; name : string; phone : string;
    email : string; company : string; status_ : status; followUpDate : string }.

Definition set_status (st : status) (p : t) : t :=
    mk (id p) (userId p) (name p) (phone p) (email p) (company p) st
       (followUpDate p).
End Prospect.

(** [amount REAL NOT NULL]: every double but NaN, the infinities included.
    The forms reject a NaN before they call ([isNaN(amount) || amount <= 0]
    in [sales.tsx]). *)
Module Amount.
Record t := mk { value : float; stored : is_nan value = false }.
End Amount.

Abbreviation amount_of x := (Amount.mk x%float eq_refl) (only parsing).

Module Sale.
Record t := mk {
    id : Z; clientId : Z; date : string; amount : Amount.t;
    productOrService : string }.
End Sale.

Module FollowUp.
Inductive entity := client | prospect | phoneNumber.

Definition entity_eqb (a b : entity) : bool :=
    match a, b with
    | client, client | prospect, prospect | phoneNumber, phoneNumber => true
    | _, _ => false
    end.

(** [isCompleted] is the column typed [0 | 1]. *)
Record t := mk {
    id : Z; entityId : Z; entityType : entity; date : string;
    notes : string; isCompleted : bool; createdAt : string }.

Definition complete (f : t) : t :=
    mk (id f) (entityId f) (entityType f) (date f) (notes f) true
       (createdAt f).
End FollowUp.

Module PhoneNumber.
Record t := mk {
    id : Z; userId : Z; number : string; lastCalledDate : string;
    isProspect : bool; prospectId : option Z }.

Definition set_lastCalledDate (d : string) (p : t) : t :=
    mk (id p) (userId p) (number p) d (isProspect p) (prospectId p).

Definition promote (pid : Z) (p : t) : t :=
    mk (id p) (userId p) (number p) (lastCalledDate p) true (Some pid).
End PhoneNumber.

Module CallLog.
Inductive feedback_t := Successful | Busy | NotAnswered | DNC | ConnectedLead.

Definition feedback_eqb (a b : feedback_t) : bool :=
    match a, b with
    | Successful, Successful | Busy, Busy | NotAnswered, NotAnswered
    | DNC, DNC | ConnectedLead, ConnectedLead => true
    | _, _ => false
    end.

Record t := mk {
    id : Z; phoneNumberId : Z; date : string; feedback : feedback_t;
    duration : Z; shortNotes : string; nextFollowUpDate : option string }.
End CallLog.

(** ** Tables and the store *)

Record table (A : Type) := mkTable { rows : list A; seq : Z }.
Arguments mkTable {A} _ _.
Arguments rows {A} _.
Arguments seq {A} _.

Definition empty_table {A : Type} : table A := mkTable [] 0.

(** [INTEGER PRIMARY KEY AUTOINCREMENT]: the new rowid is one more than the
    largest rowid that ever existed in the table. *)
Definition max_rowid {A : Type} (rowid : A -> Z) (t : table A) : Z :=
  fold_right Z.max 0 (map rowid (rows t)).

Definition next_rowid {A : Type} (rowid : A -> Z) (t : table A) : Z :=
  Z.max (max_rowid rowid t) (seq t) + 1.

Definition insert_row {A : Type} (rowid : A -> Z) (mkrow : Z -> A)
    (t : table A) : table A * Z :=
  let i := next_rowid rowid t in
  (mkTable (rows t ++ [mkrow i]) i, i).

Definition update_rows {A : Type} (where_ : A -> bool) (set_ : A -> A)
    (t : table A) : table A :=
  mkTable (map (fun r => if where_ r then set_ r else r) (rows t)) (seq t).

Definition select {A : Type} (where_ : A -> bool) (t : table A) : list A :=
  filter where_ (rows t).

Record store := mkStore {
  Clients : table Client.t;
  Prospects : table Prospect.t;
  Sales : table Sale.t;
  FollowUps : table FollowUp.t;
  PhoneNumbers : table PhoneNumber.t;
  CallLogs : table CallLog.t }.

Definition empty_store : store :=
  mkStore empty_table empty_table empty_table empty_table empty_table
          empty_table.

Definition with_Clients (t : table Client.t) (s : store) : store :=
  mkStore t (Prospects s) (Sales s) (FollowUps s) (PhoneNumbers s) (CallLogs s).
Definition with_Prospects (t : table Prospect.t) (s : store) : store :=
  mkStore (Clients s) t (Sales s) (FollowUps s) (PhoneNumbers s) (CallLogs s).
Definition with_Sales (t : table Sale.t) (s : store) : store :=
  mkStore (Clients s) (Prospects s) t (FollowUps s) (PhoneNumbers s) (CallLogs s).
Definition with_FollowUps (t : table FollowUp.t) (s : store) : store :=
  mkStore (Clients s) (Prospects s) (Sales s) t (PhoneNumbers s) (CallLogs s).
Definition with_PhoneNumbers (t : table PhoneNumber.t) (s : store) : store :=
  mkStore (Clients s) (Prospects s) (Sales s) (FollowUps s) t (CallLogs s).
Definition with_CallLogs (t : table CallLog.t) (s : store) : store :=
  mkStore (Clients s) (Prospects s) (Sales s) (FollowUps s) (PhoneNumbers s) t.

(** ** Outcomes, the world and the database monad *)

Inductive outcome (A : Type) := Ok (a : A) | Throw (msg : string).
Arguments Ok {A} _.
Arguments Throw {A} _.

Record world := mkWorld { db : option store; faults : list bool }.

(** A world whose handle is open on [s] and whose engine never fails. *)
Definition healthy (s : store) : world := mkWorld (Some s) [].

Definition DB (A : Type) : Type := world -> outcome A * world.

Definition ret {A : Type} (a : A) : DB A := fun w => (Ok a, w).

Definition throw {A : Type} (msg : string) : DB A := fun w => (Throw msg, w).

Definition bind {A B : Type} (m : DB A) (k : A -> DB B) : DB B :=
  fun w =>
    match m w with
    | (Ok a, w') => k a w'
    | (Throw e, w') => (Throw e, w')
    end.

Notation "x <- m ;; k" := (bind m (fun x => k))
  (at level 61, m at next level, right associativity).
Notation "m ;;; k" := (bind m (fun _ => k))
  (at level 61, right associativity).

Definition not_initialized : string := "Database not initialized"%string.
Definition engine_error : string := "SQLITE_ERROR"%string.

(** [if (!db) throw new Error("Database not initialized")] *)
Definition require_db : DB unit :=
  fun w =>
    match db w with
    | Some _ => (Ok tt, w)
    | None => (Throw not_initialized, w)
    end.

(** One statement sent to the engine.  It consumes one entry of the fault
    plan; a rejected statement leaves the tables as they are. *)
Definition statement {A : Type} (run : store -> outcome (A * store)) : DB A :=
  fun w =>
    match db w with
    | None => (Throw not_initialized, w)
    | Some s =>
        let rest := tl (faults w) in
        if hd false (faults w)
        then (Throw engine_error, mkWorld (Some s) rest)
        else match run s with
             | Ok (a, s') => (Ok a, mkWorld (Some s') rest)
             | Throw e => (Throw e, mkWorld (Some s) rest)
             end
    end.

(** [db.getAllAsync]: all rows of a query. *)
Definition getAllAsync {A : Type} (query : store -> list A) : DB (list A) :=
  statement (fun s => Ok (query s, s)).

(** [db.getFirstAsync]: the first row of a query, or [null]. *)
Definition getFirstAsync {A : Type} (query : store -> list A)
    : DB (option A) :=
  statement (fun s => Ok (hd_error (query s), s)).

(** [db.runAsync]: a write; the result is [lastInsertRowId]. *)
Definition runAsync (write : store -> outcome (Z * store)) : DB Z :=
  statement write.

(** JavaScript truthiness of a string and of [string | null | undefined]. *)
Definition truthy (s : string) : bool := negb (String.eqb s EmptyString).

Definition truthy_opt (o : option string) : bool :=
  match o with
  | Some s => truthy s
  | None => false
  end.

(** [ORDER BY] and [Array.prototype.sort] are both modelled by the stable
    insertion sort below.  [before a b] says that [a] may stay in front of
    [b]: for a JavaScript comparator it is [!(compareFn(a, b) > 0)]. *)
Section StableSort.
Context {A : Type} (before : A -> A -> bool).

Fixpoint insert_sorted (x : A) (l : list A) : list A :=
    match l with
    | [] => [x]
    | y :: l' => if before x y then x :: y :: l' else y :: insert_sorted x l'
    end.

Definition stable_sort (l : list A) : list A :=
    fold_right insert_sorted [] l.
End StableSort.

(** A JavaScript [Map]: entries in order of first insertion; [set] on a key
    already present replaces the value where it stands. *)
Section JsMap.
Context {K V : Type} (eqb : K -> K -> bool).

Fixpoint map_get (k : K) (m : list (K * V)) : option V :=
  match m with
  | [] => None
  | (k', v) :: m' => if eqb k' k then Some v else map_get k m'
  end.

Fixpoint map_set (k : K) (v : V) (m : list (K * V)) : list (K * V) :=
  match m with
  | [] => [(k, v)]
  | (k', v') :: m' =>
      if eqb k' k then (k, v) :: m' else (k', v') :: map_set k v m'
  end.
End JsMap.

(** ** Clients *)

(** [SELECT * FROM Clients WHERE userId = ? ORDER BY name ASC] *)
Definition getClients (userId : Z) : DB (list Client.t) :=
  require_db ;;;
  getAllAsync (fun s =>
    stable_sort (fun a b => String.leb (Client.name a) (Client.name b))
      (select (fun c => Client.userId c =? userId) (Clients s))).

(** [SELECT * FROM Clients WHERE id = ?]; the function has no [userId]
    parameter. *)
Definition getClientById (clientId : Z) : DB (option Client.t) :=
  require_db ;;;
  client <- getFirstAsync (fun s =>
    select (fun c => Client.id c =? clientId) (Clients s)) ;;
  ret client.

Inductive client_column := ColName | ColPhone | ColEmail | ColCompany
  | ColIndustry.

(** [Partial<Omit<Client, "id" | "userId">>]: [None] is [undefined]. *)
Record client_updates := mkClientUpdates {
  upd_name : option string; upd_phone : option string;
  upd_email : option string; upd_company : option string;
  upd_industry : option string }.

Definition no_client_updates : client_updates :=
  mkClientUpdates None None None None None.

Definition set_client_column (col : client_column) (v : string)
    (c : Client.t) : Client.t :=
  match col with
  | ColName => Client.mk (Client.id c) (Client.userId c) v (Client.phone c)
      (Client.email c) (Client.company c) (Client.industry c)
  | ColPhone => Client.mk (Client.id c) (Client.userId c) (Client.name c) v
      (Client.email c) (Client.company c) (Client.industry c)
  | ColEmail => Client.mk (Client.id c) (Client.userId c) (Client.name c)
      (Client.phone c) v (Client.company c) (Client.industry c)
  | ColCompany => Client.mk (Client.id c) (Client.userId c) (Client.name c)
      (Client.phone c) (Client.email c) v (Client.industry c)
  | ColIndustry => Client.mk (Client.id c) (Client.userId c) (Client.name c)
      (Client.phone c) (Client.email c) (Client.company c) v
  end.

(** [if (updates.f !== undefined) { updateFields.push("f = ?");
    values.push(updates.f); }] *)
Definition push_field {C : Type} (col : C) (o : option string)
    (updateFields : list (C * string)) : list (C * string) :=
  match o with
  | Some v => updateFields ++ [(col, v)]
  | None => updateFields
  end.

Definition client_updateFields (updates : client_updates)
    : list (client_column * string) :=
  push_field ColIndustry (upd_industry updates)
    (push_field ColCompany (upd_company updates)
      (push_field ColEmail (upd_email updates)
        (push_field ColPhone (upd_phone updates)
          (push_field ColName (upd_name updates) [])))).

(** [UPDATE Clients SET f1 = ?, f2 = ?, .. WHERE id = ?] *)
Definition apply_client_sets (sets : list (client_column * string))
    (c : Client.t) : Client.t :=
  fold_left (fun c' cv => set_client_column (fst cv) (snd cv) c') sets c.

Definition updateClient (clientId : Z) (updates : client_updates) : DB unit :=
  require_db ;;;
  let updateFields := client_updateFields updates in
  if (List.length updateFields =? 0)%nat then ret tt
  else
    runAsync (fun s =>
      Ok (0, with_Clients
               (update_rows (fun c => Client.id c =? clientId)
                            (apply_client_sets updateFields) (Clients s)) s)) ;;;
    ret tt.

(** ** Prospects *)

(** [SELECT * FROM Prospects WHERE userId = ? ORDER BY followUpDate ASC] *)
Definition getProspects (userId : Z) : DB (list Prospect.t) :=
  require_db ;;;
  getAllAsync (fun s =>
    stable_sort
      (fun a b => String.leb (Prospect.followUpDate a) (Prospect.followUpDate b))
      (select (fun p => Prospect.userId p =? userId) (Prospects s))).

(** ** Prospect -> Client + Sale *)

(** [Omit<Sale, "id" | "clientId">] *)
Record sale_data := mkSaleData {
  sd_date : string; sd_amount : Amount.t; sd_productOrService : string }.

Definition prospect_not_found : string := "Prospect not found"%string.

Definition insert_client (mkrow : Z -> Client.t) (s : store)
    : outcome (Z * store) :=
  let (t, i) := insert_row Client.id mkrow (Clients s) in
  Ok (i, with_Clients t s).

Definition insert_sale (mkrow : Z -> Sale.t) (s : store)
    : outcome (Z * store) :=
  let (t, i) := insert_row Sale.id mkrow (Sales s) in
  Ok (i, with_Sales t s).

Definition insert_prospect (mkrow : Z -> Prospect.t) (s : store)
    : outcome (Z * store) :=
  let (t, i) := insert_row Prospect.id mkrow (Prospects s) in
  Ok (i, with_Prospects t s).

Definition insert_followUp (mkrow : Z -> FollowUp.t) (s : store)
    : outcome (Z * store) :=
  let (t, i) := insert_row FollowUp.id mkrow (FollowUps s) in
  Ok (i, with_FollowUps t s).

Definition insert_callLog (mkrow : Z -> CallLog.t) (s : store)
    : outcome (Z * store) :=
  let (t, i) := insert_row CallLog.id mkrow (CallLogs s) in
  Ok (i, with_CallLogs t s).

Definition general_industry : string := "General"%string.

Definition convertProspectToClientAndRecordSale (prospectId : Z)
    (saleData : sale_data) : DB (Client.t * Sale.t) :=
  require_db ;;;
  prospect <- getFirstAsync (fun s =>
    select (fun p => Prospect.id p =? prospectId) (Prospects s)) ;;
  match prospect with
  | None => throw prospect_not_found
  | Some prospect =>
      let client_row := fun i =>
        Client.mk i (Prospect.userId prospect) (Prospect.name prospect)
          (Prospect.phone prospect) (Prospect.email prospect)
          (Prospect.company prospect) general_industry in
      clientRowId <- runAsync (insert_client client_row) ;;
      let newClient := client_row clientRowId in
      let sale_row := fun i =>
        Sale.mk i (Client.id newClient) (sd_date saleData)
          (sd_amount saleData) (sd_productOrService saleData) in
      saleRowId <- runAsync (insert_sale sale_row) ;;
      let newSale := sale_row saleRowId in
      runAsync (fun s =>
        Ok (0, with_Prospects
                 (update_rows (fun p => Prospect.id p =? prospectId)
                              (Prospect.set_status Prospect.Won)
                              (Prospects s)) s)) ;;;
      ret (newClient, newSale)
  end.

(** ** Follow-ups *)

(** [UPDATE FollowUps SET isCompleted = 1 WHERE id = ?] *)
Definition completeFollowUp (followUpId : Z) : DB unit :=
  require_db ;;;
  runAsync (fun s =>
    Ok (0, with_FollowUps
             (update_rows (fun f => FollowUp.id f =? followUpId)
                          FollowUp.complete (FollowUps s)) s)) ;;;
  ret tt.

(** ** Calls *)

(** [Omit<CallLog, "id" | "phoneNumberId">] *)
Record log_data := mkLogData {
  ld_date : string; ld_feedback : CallLog.feedback_t; ld_duration : Z;
  ld_shortNotes : string; ld_nextFollowUpDate : option string }.

Record call_data := mkCallData { cd_number : string; cd_logData : log_data }.

Definition unique_phone_failed : string :=
  "UNIQUE constraint failed: PhoneNumbers.userId, PhoneNumbers.number"%string.

Definition same_phone (userId : Z) (number : string) (p : PhoneNumber.t)
    : bool :=
  (PhoneNumber.userId p =? userId) && String.eqb (PhoneNumber.number p) number.

(** [INSERT INTO PhoneNumbers ..] under [UNIQUE(userId, number)]. *)
Definition insert_phoneNumber (userId : Z) (number : string)
    (mkrow : Z -> PhoneNumber.t) (s : store) : outcome (Z * store) :=
  if existsb (same_phone userId number) (rows (PhoneNumbers s))
  then Throw unique_phone_failed
  else
    let (t, i) := insert_row PhoneNumber.id mkrow (PhoneNumbers s) in
    Ok (i, with_PhoneNumbers t s).

Definition followUp_note (number : string) : string :=
  ("Follow-up call for " ++ number)%string.

(** [now] is the value of [new Date().toISOString()] read by the call. *)
Definition recordNewCall (now : string) (userId : Z) (callData : call_data)
    : DB (PhoneNumber.t * CallLog.t) :=
  require_db ;;;
  let number := cd_number callData in
  let logData := cd_logData callData in
  found <- getFirstAsync (fun s =>
    select (same_phone userId number) (PhoneNumbers s)) ;;
  phoneNumber <-
    match found with
    | None =>
        let phone_row := fun i =>
          PhoneNumber.mk i userId number (ld_date logData) false None in
        rowId <- runAsync (insert_phoneNumber userId number phone_row) ;;
        ret (phone_row rowId)
    | Some phoneNumber =>
        runAsync (fun s =>
          Ok (0, with_PhoneNumbers
                   (update_rows
                      (fun p => PhoneNumber.id p =? PhoneNumber.id phoneNumber)
                      (PhoneNumber.set_lastCalledDate (ld_date logData))
                      (PhoneNumbers s)) s)) ;;;
        ret (PhoneNumber.set_lastCalledDate (ld_date logData) phoneNumber)
    end ;;
  let log_row := fun i =>
    CallLog.mk i (PhoneNumber.id phoneNumber) (ld_date logData)
      (ld_feedback logData) (ld_duration logData) (ld_shortNotes logData)
      (ld_nextFollowUpDate logData) in
  logRowId <- runAsync (insert_callLog log_row) ;;
  let newCallLog := log_row logRowId in
  match ld_nextFollowUpDate logData with
  | Some next =>
      if truthy next
      then
        runAsync (insert_followUp (fun i =>
          FollowUp.mk i (PhoneNumber.id phoneNumber) FollowUp.phoneNumber next
            (followUp_note number) false now)) ;;;
        ret (phoneNumber, newCallLog)
      else ret (phoneNumber, newCallLog)
  | None => ret (phoneNumber, newCallLog)
  end.

(** [SELECT CallLogs.*, PhoneNumbers.number FROM CallLogs INNER JOIN
    PhoneNumbers ON CallLogs.phoneNumberId = PhoneNumbers.id
    WHERE PhoneNumbers.userId = ? ORDER BY CallLogs.date DESC] *)
Definition getCallLogs (userId : Z) : DB (list (CallLog.t * string)) :=
  require_db ;;;
  getAllAsync (fun s =>
    stable_sort
      (fun a b => String.leb (CallLog.date (fst b)) (CallLog.date (fst a)))
      (flat_map (fun log =>
         map (fun p => (log, PhoneNumber.number p))
           (filter (fun p =>
              (PhoneNumber.id p =? CallLog.phoneNumberId log)
              && (PhoneNumber.userId p =? userId))
              (rows (PhoneNumbers s))))
         (rows (CallLogs s)))).

(** ** PhoneNumber -> Prospect *)

(** [Omit<Prospect, "id" | "userId" | "phone">] *)
Record prospect_data := mkProspectData {
  pd_name : string; pd_email : string; pd_company : string;
  pd_status : Prospect.status; pd_followUpDate : string }.

Definition phone_number_not_found : string := "Phone number not found"%string.

Definition convertPhoneNumberToProspect (phoneNumberId : Z)
    (prospectData : prospect_data) : DB Prospect.t :=
  require_db ;;;
  phoneNumber <- getFirstAsync (fun s =>
    select (fun p => PhoneNumber.id p =? phoneNumberId) (PhoneNumbers s)) ;;
  match phoneNumber with
  | None => throw phone_number_not_found
  | Some phoneNumber =>
      let prospect_row := fun i =>
        Prospect.mk i (PhoneNumber.userId phoneNumber) (pd_name prospectData)
          (PhoneNumber.number phoneNumber) (pd_email prospectData)
          (pd_company prospectData) (pd_status prospectData)
          (pd_followUpDate prospectData) in
      rowId <- runAsync (insert_prospect prospect_row) ;;
      let newProspect := prospect_row rowId in
      runAsync (fun s =>
        Ok (0, with_PhoneNumbers
                 (update_rows (fun p => PhoneNumber.id p =? phoneNumberId)
                              (PhoneNumber.promote (Prospect.id newProspect))
                              (PhoneNumbers s)) s)) ;;;
      runAsync (fun s =>
        Ok (0, with_FollowUps
                 (update_rows
                    (fun f => (FollowUp.entityId f =? phoneNumberId)
                              && FollowUp.entity_eqb (FollowUp.entityType f)
                                   FollowUp.phoneNumber)
                    FollowUp.complete (FollowUps s)) s)) ;;;
      ret newProspect
  end.

(** ** Follow-up listing *)

(** Number of rows that the three [LEFT JOIN]s of [getFollowUps] produce for
    one follow-up and that pass
    [WHERE Clients.userId = ? OR Prospects.userId = ? OR PhoneNumbers.userId = ?]:
    only the join matching [entityType] can be non-NULL. *)
Definition owner_matches (s : store) (userId : Z) (f : FollowUp.t) : nat :=
  match FollowUp.entityType f with
  | FollowUp.client =>
      List.length (filter (fun c => (Client.id c =? FollowUp.entityId f)
                                    && (Client.userId c =? userId))
                          (rows (Clients s)))
  | FollowUp.prospect =>
      List.length (filter (fun p => (Prospect.id p =? FollowUp.entityId f)
                                    && (Prospect.userId p =? userId))
                          (rows (Prospects s)))
  | FollowUp.phoneNumber =>
      List.length (filter (fun p => (PhoneNumber.id p =? FollowUp.entityId f)
                                    && (PhoneNumber.userId p =? userId))
                          (rows (PhoneNumbers s)))
  end.

Definition getFollowUps (userId : Z) : DB (list FollowUp.t) :=
  require_db ;;;
  getAllAsync (fun s =>
    stable_sort (fun a b => String.leb (FollowUp.date a) (FollowUp.date b))
      (flat_map (fun f => repeat f (owner_matches s userId f))
                (rows (FollowUps s)))).

(** ** Analytics *)

(** Value stored in [productMap]. *)
Record product_group := mkGroup { g_count : nat; g_revenue : float }.

(** Element of [topProducts]: [{ product, count, revenue }]. *)
Record product_stat := mkProductStat {
  product : string; count : nat; revenue : float }.

(** Element of [salesByMonth]: [{ month, revenue, count }]. *)
Record month_stat := mkMonthStat {
  month : string; month_revenue : float; month_count : nat }.

Record AnalyticsData := mkAnalytics {
  totalRevenue : float;
  totalClients : nat;
  totalProspects : nat;
  totalCalls : nat;
  totalFollowUps : nat;
  completedFollowUps : nat;
  pendingFollowUps : nat;
  conversionRate : float;
  averageSaleAmount : float;
  topProducts : list product_stat;
  salesByMonth : list month_stat;
  prospectsByStatus : list (Prospect.status * nat);
  callsByFeedback : list (CallLog.feedback_t * nat) }.

(** [startDate && endDate ? `AND Sales.date BETWEEN ? AND ?` : <empty>] *)
Definition dateFilter (startDate endDate : option string) (sale : Sale.t)
    : bool :=
  match startDate, endDate with
  | Some lo, Some hi =>
      if truthy lo && truthy hi
      then String.leb lo (Sale.date sale) && String.leb (Sale.date sale) hi
      else true
  | _, _ => true
  end.

(** [SELECT * FROM Sales INNER JOIN Clients ON Sales.clientId = Clients.id
    WHERE Clients.userId = ? <dateFilter> ORDER BY Sales.date DESC].
    Only [date], [amount] and [productOrService] of a joined row are read
    afterwards, and these are columns of [Sales] alone.  Rows of equal date
    come in the order of the scan of [Sales]; the sums below are made in the
    order of this list. *)
Definition analyticsSales (userId : Z) (startDate endDate : option string)
    (s : store) : list Sale.t :=
  stable_sort (fun a b => String.leb (Sale.date b) (Sale.date a))
    (flat_map (fun sale =>
       map (fun _ => sale)
         (filter (fun c => (Client.id c =? Sale.clientId sale)
                           && (Client.userId c =? userId))
                 (rows (Clients s))))
       (filter (dateFilter startDate endDate) (rows (Sales s)))).

(** [sales.reduce((sum, sale) => sum + sale.amount, 0)]: the additions are
    made from the left, each one rounded. *)
Definition sum_amounts (sales : list Sale.t) : float :=
  fold_left (fun sum sale => sum + Amount.value (Sale.amount sale))%float
            sales 0%float.

(** The number that holds an array length or a counter: the integer itself,
    exactly, up to 2^53 (an array has fewer than 2^32 elements). *)
Definition number_of_nat (n : nat) : float :=
  of_uint63 (Uint63.of_Z (Z.of_nat n)).

(** [sales.length > 0 ? totalRevenue / sales.length : 0] *)
Definition average_of (sales : list Sale.t) : float :=
  if (0 <? List.length sales)%nat
  then (sum_amounts sales / number_of_nat (List.length sales))%float
  else 0%float.

Definition won_count (prospects : list Prospect.t) : nat :=
  List.length
    (filter (fun p => Prospect.status_eqb (Prospect.status_ p) Prospect.Won)
            prospects).

(** [totalProspects > 0 ? (wonProspects / totalProspects) * 100 : 0] *)
Definition conversion_of (prospects : list Prospect.t) : float :=
  if (0 <? List.length prospects)%nat
  then (number_of_nat (won_count prospects)
        / number_of_nat (List.length prospects) * 100)%float
  else 0%float.

Definition product_step (m : list (string * product_group)) (sale : Sale.t)
    : list (string * product_group) :=
  let existing :=
    match map_get String.eqb (Sale.productOrService sale) m with
    | Some e => e
    | None => mkGroup 0 0%float
    end in
  map_set String.eqb (Sale.productOrService sale)
    (mkGroup (g_count existing + 1)
             (g_revenue existing + Amount.value (Sale.amount sale))%float) m.

Definition productMap_of (sales : list Sale.t)
    : list (string * product_group) :=
  fold_left product_step sales [].

(** [(a, b) => b.revenue - a.revenue] *)
Definition by_revenue_desc (a b : product_stat) : float :=
  (revenue b - revenue a)%float.

(** What [Array.prototype.sort] makes of the comparator: [a] stays in front
    of [b] unless [compareFn(a, b) > 0]; a NaN result counts as [+0]
    (ECMAScript, SortCompare).  The sort is stable, and its result is
    determined by the language only where the comparator is consistent on
    the elements: total and transitive.  Where it is, the result is that of
    [stable_sort]. *)
Definition revenue_before (a b : product_stat) : bool :=
  negb (0 <? by_revenue_desc a b)%float.

Definition product_entries (sales : list Sale.t) : list product_stat :=
  map (fun e => mkProductStat (fst e) (g_count (snd e)) (g_revenue (snd e)))
      (productMap_of sales).

Definition topProducts_of (sales : list Sale.t) : list product_stat :=
  firstn 5 (stable_sort revenue_before (product_entries sales)).

(** [new Date(sale.date).toISOString().slice(0, 7)] belongs to the
    JavaScript runtime: [isoMonth] gives the month key of a date string, or
    [None] where [toISOString] throws a [RangeError]. *)
Definition month_step (isoMonth : string -> option string)
    (acc : option (list (string * (float * nat)))) (sale : Sale.t)
    : option (list (string * (float * nat))) :=
  match acc with
  | None => None
  | Some m =>
      match isoMonth (Sale.date sale) with
      | None => None
      | Some key =>
          let existing :=
            match map_get String.eqb key m with
            | Some e => e
            | None => (0%float, 0%nat)
            end in
          Some (map_set String.eqb key
                  ((fst existing + Amount.value (Sale.amount sale))%float,
                   (snd existing + 1)%nat)
                  m)
      end
  end.

Definition monthMap_of (isoMonth : string -> option string)
    (sales : list Sale.t) : option (list (string * (float * nat))) :=
  fold_left (month_step isoMonth) sales (Some []).

(** [.sort((a, b) => a.month.localeCompare(b.month))], on [YYYY-MM] keys. *)
Definition salesByMonth_of (m : list (string * (float * nat)))
    : list month_stat :=
  stable_sort (fun a b => String.leb (month a) (month b))
    (map (fun e => mkMonthStat (fst e) (fst (snd e)) (snd (snd e))) m).

Definition tally_step {K : Type} (eqb : K -> K -> bool)
    (m : list (K * nat)) (k : K) : list (K * nat) :=
  map_set eqb k
    (match map_get eqb k m with Some n => n | None => 0 end + 1)%nat m.

Definition tally {K : Type} (eqb : K -> K -> bool) (keys : list K)
    : list (K * nat) :=
  fold_left (tally_step eqb) keys [].

Definition invalid_time_value : string :=
  "RangeError: Invalid time value"%string.

Definition getAnalyticsData (isoMonth : string -> option string)
    (userId : Z) (startDate endDate : option string) : DB AnalyticsData :=
  require_db ;;;
  sales <- getAllAsync (analyticsSales userId startDate endDate) ;;
  clients <- getClients userId ;;
  prospects <- getProspects userId ;;
  callLogs <- getCallLogs userId ;;
  followUps <- getFollowUps userId ;;
  match monthMap_of isoMonth sales with
  | None => throw invalid_time_value
  | Some monthMap =>
      ret (mkAnalytics
             (sum_amounts sales)
             (List.length clients)
             (List.length prospects)
             (List.length callLogs)
             (List.length followUps)
             (List.length (filter FollowUp.isCompleted followUps))
             (List.length
                (filter (fun f => negb (FollowUp.isCompleted f)) followUps))
             (conversion_of prospects)
             (average_of sales)
             (topProducts_of sales)
             (salesByMonth_of monthMap)
             (tally Prospect.status_eqb (map Prospect.status_ prospects))
             (tally CallLog.feedback_eqb
                    (map (fun l => CallLog.feedback (fst l)) callLogs)))
  end.

(** ** The remaining repository functions *)

Definition delete_rows {A : Type} (where_ : A -> bool) (t : table A)
    : table A :=
  mkTable (filter (fun r => negb (where_ r)) (rows t)) (seq t).

(** [Omit<Client, "id" | "userId">] *)
Record client_fields := mkClientFields {
  cf_name : string; cf_phone : string; cf_email : string;
  cf_company : string; cf_industry : string }.

Definition addClient (userId : Z) (client : client_fields) : DB Client.t :=
  require_db ;;;
  let client_row := fun i =>
    Client.mk i userId (cf_name client) (cf_phone client) (cf_email client)
      (cf_company client) (cf_industry client) in
  rowId <- runAsync (insert_client client_row) ;;
  ret (client_row rowId).

(** [deleteClient]: three statements, follow-ups, then sales, then the
    client. *)
Definition deleteClient (clientId : Z) : DB unit :=
  require_db ;;;
  runAsync (fun s =>
    Ok (0, with_FollowUps
             (delete_rows
                (fun f => (FollowUp.entityId f =? clientId)
                          && FollowUp.entity_eqb (FollowUp.entityType f)
                               FollowUp.client)
                (FollowUps s)) s)) ;;;
  runAsync (fun s =>
    Ok (0, with_Sales
             (delete_rows (fun x => Sale.clientId x =? clientId) (Sales s))
             s)) ;;;
  runAsync (fun s =>
    Ok (0, with_Clients
             (delete_rows (fun c => Client.id c =? clientId) (Clients s))
             s)) ;;;
  ret tt.

(** [Omit<Prospect, "id" | "userId">] *)
Record prospect_fields := mkProspectFields {
  pf_name : string; pf_phone : string; pf_email : string;
  pf_company : string; pf_status : Prospect.status;
  pf_followUpDate : string }.

Definition addProspect (userId : Z) (prospect : prospect_fields)
    : DB Prospect.t :=
  require_db ;;;
  let prospect_row := fun i =>
    Prospect.mk i userId (pf_name prospect) (pf_phone prospect)
      (pf_email prospect) (pf_company prospect) (pf_status prospect)
      (pf_followUpDate prospect) in
  rowId <- runAsync (insert_prospect prospect_row) ;;
  ret (prospect_row rowId).

(** [UPDATE Prospects SET status = ? WHERE id = ?] *)
Definition updateProspectStatus (prospectId : Z) (status : Prospect.status)
    : DB unit :=
  require_db ;;;
  runAsync (fun s =>
    Ok (0, with_Prospects
             (update_rows (fun p => Prospect.id p =? prospectId)
                          (Prospect.set_status status) (Prospects s)) s)) ;;;
  ret tt.

(** One [column = ?] of an [UPDATE Prospects] with its bound value. *)
Inductive prospect_set :=
  | SetProspectName (v : string)
  | SetProspectPhone (v : string)
  | SetProspectEmail (v : string)
  | SetProspectCompany (v : string)
  | SetProspectStatus (v : Prospect.status)
  | SetProspectFollowUpDate (v : string).

Record prospect_updates := mkProspectUpdates {
  pu_name : option string; pu_phone : option string;
  pu_email : option string; pu_company : option string;
  pu_status : option Prospect.status; pu_followUpDate : option string }.

Definition apply_prospect_set (a : prospect_set) (p : Prospect.t)
    : Prospect.t :=
  match a with
  | SetProspectName v =>
      Prospect.mk (Prospect.id p) (Prospect.userId p) v (Prospect.phone p)
        (Prospect.email p) (Prospect.company p) (Prospect.status_ p)
        (Prospect.followUpDate p)
  | SetProspectPhone v =>
      Prospect.mk (Prospect.id p) (Prospect.userId p) (Prospect.name p) v
        (Prospect.email p) (Prospect.company p) (Prospect.status_ p)
        (Prospect.followUpDate p)
  | SetProspectEmail v =>
      Prospect.mk (Prospect.id p) (Prospect.userId p) (Prospect.name p)
        (Prospect.phone p) v (Prospect.company p) (Prospect.status_ p)
        (Prospect.followUpDate p)
  | SetProspectCompany v =>
      Prospect.mk (Prospect.id p) (Prospect.userId p) (Prospect.name p)
        (Prospect.phone p) (Prospect.email p) v (Prospect.status_ p)
        (Prospect.followUpDate p)
  | SetProspectStatus v => Prospect.set_status v p
  | SetProspectFollowUpDate v =>
      Prospect.mk (Prospect.id p) (Prospect.userId p) (Prospect.name p)
        (Prospect.phone p) (Prospect.email p) (Prospect.company p)
        (Prospect.status_ p) v
  end.

(** [if (updates.f !== undefined) { updateFields.push(..);
    values.push(updates.f); }] for a value of any type. *)
Definition push_set {V S : Type} (mk : V -> S) (o : option V)
    (updateFields : list S) : list S :=
  match o with
  | Some v => updateFields ++ [mk v]
  | None => updateFields
  end.

Definition prospect_updateFields (updates : prospect_updates)
    : list prospect_set :=
  push_set SetProspectFollowUpDate (pu_followUpDate updates)
    (push_set SetProspectStatus (pu_status updates)
      (push_set SetProspectCompany (pu_company updates)
        (push_set SetProspectEmail (pu_email updates)
          (push_set SetProspectPhone (pu_phone updates)
            (push_set SetProspectName (pu_name updates) []))))).

Definition updateProspect (prospectId : Z) (updates : prospect_updates)
    : DB unit :=
  require_db ;;;
  let updateFields := prospect_updateFields updates in
  if (List.length updateFields =? 0)%nat then ret tt
  else
    runAsync (fun s =>
      Ok (0, with_Prospects
               (update_rows (fun p => Prospect.id p =? prospectId)
                  (fun p => fold_left (fun p' a => apply_prospect_set a p')
                                      updateFields p)
                  (Prospects s)) s)) ;;;
    ret tt.

(** [deleteProspect]: two statements, follow-ups, then the prospect. *)
Definition deleteProspect (prospectId : Z) : DB unit :=
  require_db ;;;
  runAsync (fun s =>
    Ok (0, with_FollowUps
             (delete_rows
                (fun f => (FollowUp.entityId f =? prospectId)
                          && FollowUp.entity_eqb (FollowUp.entityType f)
                               FollowUp.prospect)
                (FollowUps s)) s)) ;;;
  runAsync (fun s =>
    Ok (0, with_Prospects
             (delete_rows (fun p => Prospect.id p =? prospectId)
                          (Prospects s)) s)) ;;;
  ret tt.

(** [Omit<Sale, "id">] *)
Record sale_fields := mkSaleFields {
  sf_clientId : Z; sf_date : string; sf_amount : Amount.t;
  sf_productOrService : string }.

Definition addSale (sale : sale_fields) : DB Sale.t :=
  require_db ;;;
  let sale_row := fun i =>
    Sale.mk i (sf_clientId sale) (sf_date sale) (sf_amount sale)
      (sf_productOrService sale) in
  rowId <- runAsync (insert_sale sale_row) ;;
  ret (sale_row rowId).

(** [SELECT Sales.*, Clients.name as clientName FROM Sales INNER JOIN Clients
    ON Sales.clientId = Clients.id WHERE Clients.userId = ?
    ORDER BY Sales.date DESC] *)
Definition getSales (userId : Z) : DB (list (Sale.t * string)) :=
  require_db ;;;
  getAllAsync (fun s =>
    stable_sort
      (fun a b => String.leb (Sale.date (fst b)) (Sale.date (fst a)))
      (flat_map (fun sale =>
         map (fun c => (sale, Client.name c))
           (filter (fun c => (Client.id c =? Sale.clientId sale)
                             && (Client.userId c =? userId))
                   (rows (Clients s))))
         (rows (Sales s)))).

(** [SELECT * FROM Sales WHERE clientId = ? ORDER BY date DESC] *)
Definition getSalesByClient (clientId : Z) : DB (list Sale.t) :=
  require_db ;;;
  getAllAsync (fun s =>
    stable_sort (fun a b => String.leb (Sale.date b) (Sale.date a))
      (select (fun x => Sale.clientId x =? clientId) (Sales s))).

Inductive sale_set :=
  | SetSaleDate (v : string)
  | SetSaleAmount (v : Amount.t)
  | SetSaleProduct (v : string).

Record sale_updates := mkSaleUpdates {
  su_date : option string; su_amount : option Amount.t;
  su_productOrService : option string }.

Definition apply_sale_set (a : sale_set) (x : Sale.t) : Sale.t :=
  match a with
  | SetSaleDate v =>
      Sale.mk (Sale.id x) (Sale.clientId x) v (Sale.amount x)
        (Sale.productOrService x)
  | SetSaleAmount v =>
      Sale.mk (Sale.id x) (Sale.clientId x) (Sale.date x) v
        (Sale.productOrService x)
  | SetSaleProduct v =>
      Sale.mk (Sale.id x) (Sale.clientId x) (Sale.date x) (Sale.amount x) v
  end.

Definition sale_updateFields (updates : sale_updates) : list sale_set :=
  push_set SetSaleProduct (su_productOrService updates)
    (push_set SetSaleAmount (su_amount updates)
      (push_set SetSaleDate (su_date updates) [])).

Definition updateSale (saleId : Z) (updates : sale_updates) : DB unit :=
  require_db ;;;
  let updateFields := sale_updateFields updates in
  if (List.length updateFields =? 0)%nat then ret tt
  else
    runAsync (fun s =>
      Ok (0, with_Sales
               (update_rows (fun x => Sale.id x =? saleId)
                  (fun x => fold_left (fun x' a => apply_sale_set a x')
                                      updateFields x)
                  (Sales s)) s)) ;;;
    ret tt.

(** [DELETE FROM Sales WHERE id = ?] *)
Definition deleteSale (saleId : Z) : DB unit :=
  require_db ;;;
  runAsync (fun s =>
    Ok (0, with_Sales (delete_rows (fun x => Sale.id x =? saleId) (Sales s))
             s)) ;;;
  ret tt.

(** ** The remaining follow-up functions *)

(** [Omit<FollowUp, "id" | "createdAt">] *)
Record followUp_fields := mkFollowUpFields {
  ff_entityId : Z; ff_entityType : FollowUp.entity; ff_date : string;
  ff_notes : string; ff_isCompleted : bool }.

(** [now] is the value of [new Date().toISOString()] read by the call. *)
Definition addFollowUp (now : string) (followUp : followUp_fields)
    : DB FollowUp.t :=
  require_db ;;;
  let createdAt := now in
  let followUp_row := fun i =>
    FollowUp.mk i (ff_entityId followUp) (ff_entityType followUp)
      (ff_date followUp) (ff_notes followUp) (ff_isCompleted followUp)
      createdAt in
  rowId <- runAsync (insert_followUp followUp_row) ;;
  ret (followUp_row rowId).

(** A row of [getFollowUpsWithDetails]: the follow-up and the three [CASE]
    columns, [None] being SQL [NULL]. *)
Record followUp_details := mkDetails {
  fd_followUp : FollowUp.t;
  entityName : option string;
  entityPhone : option string;
  entityCompany : option string }.

(** The joined rows of one follow-up that pass the [WHERE] clause. *)
Definition details_of (s : store) (userId : Z) (f : FollowUp.t)
    : list followUp_details :=
  match FollowUp.entityType f with
  | FollowUp.client =>
      map (fun c => mkDetails f (Some (Client.name c)) (Some (Client.phone c))
                      (Some (Client.company c)))
        (filter (fun c => (Client.id c =? FollowUp.entityId f)
                          && (Client.userId c =? userId))
                (rows (Clients s)))
  | FollowUp.prospect =>
      map (fun p => mkDetails f (Some (Prospect.name p))
                      (Some (Prospect.phone p)) (Some (Prospect.company p)))
        (filter (fun p => (Prospect.id p =? FollowUp.entityId f)
                          && (Prospect.userId p =? userId))
                (rows (Prospects s)))
  | FollowUp.phoneNumber =>
      map (fun p => mkDetails f (Some (PhoneNumber.number p))
                      (Some (PhoneNumber.number p)) None)
        (filter (fun p => (PhoneNumber.id p =? FollowUp.entityId f)
                          && (PhoneNumber.userId p =? userId))
                (rows (PhoneNumbers s)))
  end.

(** [ORDER BY FollowUps.isCompleted ASC, FollowUps.date ASC] *)
Definition pending_first (a b : followUp_details) : bool :=
  match FollowUp.isCompleted (fd_followUp a),
        FollowUp.isCompleted (fd_followUp b) with
  | false, true => true
  | true, false => false
  | _, _ => String.leb (FollowUp.date (fd_followUp a))
                       (FollowUp.date (fd_followUp b))
  end.

(** [followUps.filter((f) => f.entityName)] *)
Definition getFollowUpsWithDetails (userId : Z)
    : DB (list followUp_details) :=
  require_db ;;;
  followUps <- getAllAsync (fun s =>
    stable_sort pending_first
      (flat_map (details_of s userId) (rows (FollowUps s)))) ;;
  ret (filter (fun f => truthy_opt (entityName f)) followUps).

(** [SELECT * FROM FollowUps WHERE entityId = ? AND entityType = ?
    ORDER BY date DESC] *)
Definition getFollowUpsByEntity (entityId : Z) (entityType : FollowUp.entity)
    : DB (list FollowUp.t) :=
  require_db ;;;
  getAllAsync (fun s =>
    stable_sort (fun a b => String.leb (FollowUp.date b) (FollowUp.date a))
      (select (fun f => (FollowUp.entityId f =? entityId)
                        && FollowUp.entity_eqb (FollowUp.entityType f)
                             entityType)
              (FollowUps s))).

Inductive followUp_set :=
  | SetFollowUpDate (v : string)
  | SetFollowUpNotes (v : string).

(** [Partial<Pick<FollowUp, "date" | "notes">>] *)
Record followUp_updates := mkFollowUpUpdates {
  fu_date : option string; fu_notes : option string }.

Definition apply_followUp_set (a : followUp_set) (f : FollowUp.t)
    : FollowUp.t :=
  match a with
  | SetFollowUpDate v =>
      FollowUp.mk (FollowUp.id f) (FollowUp.entityId f)
        (FollowUp.entityType f) v (FollowUp.notes f) (FollowUp.isCompleted f)
        (FollowUp.createdAt f)
  | SetFollowUpNotes v =>
      FollowUp.mk (FollowUp.id f) (FollowUp.entityId f)
        (FollowUp.entityType f) (FollowUp.date f) v (FollowUp.isCompleted f)
        (FollowUp.createdAt f)
  end.

(** [if (data.f) { updates.push(..); values.push(data.f); }]: the test is
    truthiness, not [!== undefined]. *)
Definition push_truthy {S : Type} (mk : string -> S) (o : option string)
    (updates : list S) : list S :=
  match o with
  | Some v => if truthy v then updates ++ [mk v] else updates
  | None => updates
  end.

Definition updateFollowUp (followUpId : Z) (data : followUp_updates)
    : DB unit :=
  require_db ;;;
  let updates :=
    push_truthy SetFollowUpNotes (fu_notes data)
      (push_truthy SetFollowUpDate (fu_date data) []) in
  if (List.length updates =? 0)%nat then ret tt
  else
    runAsync (fun s =>
      Ok (0, with_FollowUps
               (update_rows (fun f => FollowUp.id f =? followUpId)
                  (fun f => fold_left (fun f' a => apply_followUp_set a f')
                                      updates f)
                  (FollowUps s)) s)) ;;;
    ret tt.

(** [DELETE FROM FollowUps WHERE id = ?] *)
Definition deleteFollowUp (followUpId : Z) : DB unit :=
  require_db ;;;
  runAsync (fun s =>
    Ok (0, with_FollowUps
             (delete_rows (fun f => FollowUp.id f =? followUpId)
                          (FollowUps s)) s)) ;;;
  ret tt.

(** ** The remaining call functions *)

(** [SELECT * FROM PhoneNumbers WHERE userId = ?
    ORDER BY lastCalledDate DESC] *)
Definition getPhoneNumbers (userId : Z) : DB (list PhoneNumber.t) :=
  require_db ;;;
  getAllAsync (fun s =>
    stable_sort
      (fun a b => String.leb (PhoneNumber.lastCalledDate b)
                             (PhoneNumber.lastCalledDate a))
      (select (fun p => PhoneNumber.userId p =? userId) (PhoneNumbers s))).

(** [SELECT * FROM CallLogs WHERE phoneNumberId = ? ORDER BY date DESC] *)
Definition getCallLogsByPhoneNumber (phoneNumberId : Z)
    : DB (list CallLog.t) :=
  require_db ;;;
  getAllAsync (fun s =>
    stable_sort (fun a b => String.leb (CallLog.date b) (CallLog.date a))
      (select (fun l => CallLog.phoneNumberId l =? phoneNumberId)
              (CallLogs s))).

(** [DELETE FROM CallLogs WHERE id = ?] *)
Definition deleteCallLog (callLogId : Z) : DB unit :=
  require_db ;;;
  runAsync (fun s =>
    Ok (0, with_CallLogs
             (delete_rows (fun l => CallLog.id l =? callLogId) (CallLogs s))
             s)) ;;;
  ret tt.

Module DailyCallStats.
Record t := mk {
  totalCalls : nat; successful : nat; busy : nat; notAnswered : nat;
  dnc : nat; leads : nat }.
End DailyCallStats.

(** [date.split("T")[0]]: what stands before the first [T]. *)
Fixpoint before_T (date : string) : string :=
  match date with
  | EmptyString => EmptyString
  | String c rest =>
      if Ascii.eqb c "T"%char then EmptyString else String c (before_T rest)
  end.

(** The body of [callLogs.forEach((log) => { switch (log.feedback) .. })]. *)
Definition count_feedback (stats : DailyCallStats.t)
    (feedback : CallLog.feedback_t) : DailyCallStats.t :=
  let '(DailyCallStats.mk total ok bz na dn ld) := stats in
  match feedback with
  | CallLog.Successful => DailyCallStats.mk total (ok + 1) bz na dn ld
  | CallLog.Busy => DailyCallStats.mk total ok (bz + 1) na dn ld
  | CallLog.NotAnswered => DailyCallStats.mk total ok bz (na + 1) dn ld
  | CallLog.DNC => DailyCallStats.mk total ok bz na (dn + 1) ld
  | CallLog.ConnectedLead => DailyCallStats.mk total ok bz na dn (ld + 1)
  end.

(** [DATE(CallLogs.date) = DATE(?)]; [sqlDate] is SQLite's [DATE()], [None]
    being the [NULL] it returns for a string it cannot read, and a
    comparison with [NULL] does not hold. *)
Definition same_day (sqlDate : string -> option string) (a b : string)
    : bool :=
  match sqlDate a, sqlDate b with
  | Some x, Some y => String.eqb x y
  | _, _ => false
  end.

Definition getDailyCallStats (sqlDate : string -> option string)
    (userId : Z) (date : string) : DB DailyCallStats.t :=
  require_db ;;;
  let startOfDay := before_T date in
  callLogs <- getAllAsync (fun s =>
    map CallLog.feedback
      (stable_sort (fun a b => String.leb (CallLog.date b) (CallLog.date a))
         (flat_map (fun log =>
            map (fun _ => log)
              (filter (fun p =>
                 (PhoneNumber.id p =? CallLog.phoneNumberId log)
                 && (PhoneNumber.userId p =? userId))
                 (rows (PhoneNumbers s))))
            (filter (fun log => same_day sqlDate (CallLog.date log) startOfDay)
                    (rows (CallLogs s)))))) ;;
  ret (fold_left count_feedback callLogs
         (DailyCallStats.mk (List.length callLogs) 0 0 0 0 0)).

(** ** Accounts *)

Module User.
Record t := mk {
  id : Z; username : string; passwordHash : string; name : string }.
End User.

(** [Users] is read and written by [signup] and [signin] alone, and the two
    touch no other table: they are modelled on that table, with the same
    engine as above. *)
Record auth_world := mkAuthWorld {
  users : option (table User.t); auth_faults : list bool }.

Definition username_exists : string := "Username already exists"%string.
Definition invalid_credentials : string := "Invalid credentials"%string.

(** [hashPassword] is [CryptoJS.SHA256(password).toString()].  Whatever makes
    the [INSERT] fail, the [catch] throws "Username already exists". *)
Definition signup (hashPassword : string -> string)
    (username password name : string) (w : auth_world)
    : outcome User.t * auth_world :=
  match users w with
  | None => (Throw not_initialized, w)
  | Some t =>
      let passwordHash := hashPassword password in
      let rest := tl (auth_faults w) in
      if hd false (auth_faults w)
      then (Throw username_exists, mkAuthWorld (Some t) rest)
      else if existsb (fun u => String.eqb (User.username u) username)
                      (rows t)
      then (Throw username_exists, mkAuthWorld (Some t) rest)
      else
        let (t', i) :=
          insert_row User.id
            (fun i => User.mk i username passwordHash name) t in
        (Ok (User.mk i username passwordHash name),
         mkAuthWorld (Some t') rest)
  end.

(** [SELECT * FROM Users WHERE username = ? AND passwordHash = ?] *)
Definition signin (hashPassword : string -> string)
    (username password : string) (w : auth_world)
    : outcome User.t * auth_world :=
  match users w with
  | None => (Throw not_initialized, w)
  | Some t =>
      let passwordHash := hashPassword password in
      let rest := tl (auth_faults w) in
      if hd false (auth_faults w)
      then (Throw engine_error, mkAuthWorld (Some t) rest)
      else
        match hd_error
                (select (fun u => String.eqb (User.username u) username
                                  && String.eqb (User.passwordHash u)
                                       passwordHash) t) with
        | None => (Throw invalid_credentials, mkAuthWorld (Some t) rest)
        | Some result => (Ok result, mkAuthWorld (Some t) rest)
        end
  end.

(** ** Reset tokens ([src/services/passwordResetService.ts]) *)

Record reset_entry := mkReset {
  re_userId : Z; re_token : string; re_expiresAt : Z }.

(** [Map.prototype.delete] *)
Definition map_delete {K V : Type} (eqb : K -> K -> bool) (k : K)
    (m : list (K * V)) : list (K * V) :=
  filter (fun e => negb (eqb (fst e) k)) m.

(** [now] is the value of [Date.now()] read by the call; the result pairs the
    answer with the token map the call leaves. *)
Definition validateResetToken (now : Z) (token : string)
    (resetTokens : list (string * reset_entry))
    : bool * list (string * reset_entry) :=
  match map_get String.eqb token resetTokens with
  | None => (false, resetTokens)
  | Some resetData =>
      if now >? re_expiresAt resetData
      then (false, map_delete String.eqb token resetTokens)
      else (true, resetTokens)
  end.

(** [for (const [token, data] of resetTokens.entries())
    if (now > data.expiresAt) resetTokens.delete(token)] *)
Definition clearExpiredTokens (now : Z)
    (resetTokens : list (string * reset_entry))
    : list (string * reset_entry) :=
  filter (fun e => negb (now >? re_expiresAt (snd e))) resetTokens.

(** ** Triples over the database monad *)

(** From a store satisfying [P] and under every fault plan, [m] either
    returns [a] in a store satisfying [Q a] or throws in a store satisfying
    [E]. *)
Definition hoare {A : Type} (P : store -> Prop) (m : DB A)
    (Q : A -> store -> Prop) (E : store -> Prop) : Prop :=
  forall (s : store) (plan : list bool),
    P s ->
    match m (mkWorld (Some s) plan) with
    | (Ok a, w') => exists s', db w' = Some s' /\ Q a s'
    | (Throw _, w') => exists s', db w' = Some s' /\ E s'
    end.

(** [m] keeps [I], whether it returns or throws. *)
Definition keeps {A : Type} (I : store -> Prop) (m : DB A) : Prop :=
  hoare I m (fun _ => I) I.

(** Every sale belongs to a client that exists. *)
Definition sales_have_clients (s : store) : Prop :=
  forall x, In x (rows (Sales s)) ->
            exists c, In c (rows (Clients s)) /\ Client.id c = Sale.clientId x.

(** Every call log belongs to a phone number that exists. *)
Definition logs_have_phones (s : store) : Prop :=
  forall l, In l (rows (CallLogs s)) ->
            exists p, In p (rows (PhoneNumbers s))
                      /\ PhoneNumber.id p = CallLog.phoneNumberId l.

(** [PRIMARY KEY]: no two rows of a table share their id. *)
Definition primary_keys (s : store) : Prop :=
  NoDup (map Client.id (rows (Clients s)))
  /\ NoDup (map Prospect.id (rows (Prospects s)))
  /\ NoDup (map Sale.id (rows (Sales s)))
  /\ NoDup (map FollowUp.id (rows (FollowUps s)))
  /\ NoDup (map PhoneNumber.id (rows (PhoneNumbers s)))
  /\ NoDup (map CallLog.id (rows (CallLogs s))).

(** ** Specification-side notions *)

(** The schema constraint [UNIQUE(userId, number)] on [PhoneNumbers]. *)
Definition unique_phone (s : store) : Prop :=
  NoDup (map (fun p => (PhoneNumber.userId p, PhoneNumber.number p))
             (rows (PhoneNumbers s))).

(** The distinct elements of a list, in order of first occurrence. *)
Fixpoint first_seen (l : list string) : list string :=
  match l with
  | [] => []
  | x :: t => x :: filter (fun y => negb (String.eqb y x)) (first_seen t)
  end.

Definition sales_of_product (p : string) (sales : list Sale.t) : list Sale.t :=
  filter (fun sale => String.eqb (Sale.productOrService sale) p) sales.

(** Every sale of the clients of a user, newest first: what the analytics
    query selects when it carries no date bound at all. *)
Definition sales_of_user (u : Z) (s : store) : list Sale.t :=
  stable_sort (fun a b => String.leb (Sale.date b) (Sale.date a))
    (flat_map (fun sale =>
       map (fun _ => sale)
         (filter (fun c => (Client.id c =? Sale.clientId sale)
                           && (Client.userId c =? u))
                 (rows (Clients s))))
       (rows (Sales s))).

(** The exact value of a double, counted in units of the smallest subnormal
    (2^-1074), with the infinities placed beyond every finite value.  It is
    used to state the order of doubles; NaN has no value. *)
Definition sf_value (x : spec_float) : Z :=
  match x with
  | S754_zero _ => 0
  | S754_infinity s => cond_Zopp s (2 ^ 2098)
  | S754_nan => 0
  | S754_finite s m e => cond_Zopp s (Zpos m * 2 ^ (e + 1074))
  end.

Definition number_value (x : float) : Z := sf_value (Prim2SF x).

(** A finite nonzero number or an infinity, of sign [s]. *)
Definition signed_nonzero (s : bool) (x : spec_float) : Prop :=
  match x with
  | S754_finite s' _ _ | S754_infinity s' => s' = s
  | _ => False
  end.

Definition SFpositive (x : spec_float) : bool := SFltb (S754_zero false) x.

(** The order of the groups by the exact value of their revenue. *)
Definition by_value (a b : product_stat) : bool :=
  number_value (revenue b) <=? number_value (revenue a).

(** No group has a NaN revenue.  A NaN can only come from adding amounts of
    opposite infinite sign; the comparator orders nothing against it. *)
Definition revenues_are_numbers (groups : list product_stat) : Prop :=
  Forall (fun g => is_nan (revenue g) = false) groups.

Definition amounts_not_negative (sales : list Sale.t) : Prop :=
  Forall (fun sale => (0 <=? Amount.value (Sale.amount sale))%float = true)
         sales.

(** [x] stands somewhere in front of [y] in the list. *)
Definition precedes {A : Type} (x y : A) (l : list A) : Prop :=
  exists l1 l2 l3, l = l1 ++ x :: l2 ++ y :: l3.

(** Ownership isolation read over every query, by-id lookups included: no
    query issued on behalf of user [a] hands back a row owned by another
    user [b]. *)
Definition isolation_of_every_query : Prop :=
  forall (s : store) (a b : Z), a <> b ->
    (forall cs c, fst (getClients a (healthy s)) = Ok cs ->
                  In c cs -> Client.userId c <> b)
    /\ (forall ps p, fst (getProspects a (healthy s)) = Ok ps ->
                     In p ps -> Prospect.userId p <> b)
    /\ (forall clientId c,
          fst (getClientById clientId (healthy s)) = Ok (Some c) ->
          Client.userId c <> b).

(** A prospect of user 7, used to exercise the conversion workflow. *)
Definition ada : Prospect.t :=
  Prospect.mk 1 7 "Ada"%string "0700111222"%string "ada@example.org"%string
    "Analytical"%string Prospect.Qualified "2025-01-10"%string.

Definition store_with_ada : store :=
  with_Prospects (mkTable [ada] 1) empty_store.

Definition a_sale : sale_data :=
  mkSaleData "2025-01-15"%string (amount_of 250) "Consulting"%string.

(** A client of user 2, looked up by somebody else. *)
Definition bob_client : Client.t :=
  Client.mk 1 2 "Bob"%string "0700999888"%string "bob@example.org"%string
    "Bobco"%string "Retail"%string.

Definition store_with_bob_client : store :=
  with_Clients (mkTable [bob_client] 1) empty_store.

(** Two users who called the same number, and two calls of user 7. *)
Definition store_with_phones : store :=
  with_PhoneNumbers
    (mkTable
       [PhoneNumber.mk 1 7 "0700111222"%string "2025-01-01"%string false None;
        PhoneNumber.mk 2 8 "0700111222"%string "2025-01-02"%string false None]
       2)
    empty_store.

Definition lead_call : log_data :=
  mkLogData "2025-02-01T10:00:00.000Z"%string CallLog.ConnectedLead 120
    "interested"%string (Some "2030-01-01"%string).

Definition later_call : log_data :=
  mkLogData "2025-02-03T09:30:00.000Z"%string CallLog.Busy 0 EmptyString None.

Definition a_prospect : prospect_data :=
  mkProspectData "Grace"%string "grace@example.org"%string "Navy"%string
    Prospect.New "2030-01-01"%string.

(** Six products; [A] and [B] end with the same revenue, [A] sold first. *)
Definition demo_sales : list Sale.t :=
  [ Sale.mk 1 1 "2025-03-09"%string (amount_of 100) "A"%string;
    Sale.mk 2 1 "2025-03-08"%string (amount_of 50) "B"%string;
    Sale.mk 3 1 "2025-03-07"%string (amount_of 300) "C"%string;
    Sale.mk 4 1 "2025-03-06"%string (amount_of 50) "B"%string;
    Sale.mk 5 1 "2025-03-05"%string (amount_of 10) "D"%string;
    Sale.mk 6 1 "2025-03-04"%string (amount_of 20) "E"%string;
    Sale.mk 7 1 "2025-03-03"%string (amount_of 30) "F"%string ].

(** User 7 with one client, the sales above, and two prospects, one won. *)
Definition demo_store : store :=
  mkStore
    (mkTable [Client.mk 1 7 "Ada"%string "0700111222"%string
                "ada@example.org"%string "Analytical"%string
                "General"%string] 1)
    (mkTable [Prospect.mk 1 7 "Grace"%string "0700333444"%string
                "grace@example.org"%string "Navy"%string Prospect.Won
                "2025-03-01"%string;
              Prospect.mk 2 7 "Edsger"%string "0700555666"%string
                "ewd@example.org"%string "THE"%string Prospect.Contacted
                "2025-02-01"%string] 2)
    (mkTable demo_sales 7)
    empty_table empty_table empty_table.

(** A month key for dates already written as [YYYY-MM-DD..] in UTC. *)
Definition iso_prefix (d : string) : option string :=
  Some (substring 0 7 d).

(** The same three amounts for two products, entered in opposite orders:
    added from the left they round to different sums. *)
Definition rounding_sales : list Sale.t :=
  [ Sale.mk 1 1 "2025-04-06"%string (amount_of 0.3) "B"%string;
    Sale.mk 2 1 "2025-04-05"%string (amount_of 0.2) "B"%string;
    Sale.mk 3 1 "2025-04-04"%string (amount_of 0.1) "B"%string;
    Sale.mk 4 1 "2025-04-03"%string (amount_of 0.1) "A"%string;
    Sale.mk 5 1 "2025-04-02"%string (amount_of 0.2) "A"%string;
    Sale.mk 6 1 "2025-04-01"%string (amount_of 0.3) "A"%string ].

Definition rounding_store : store :=
  mkStore
    (mkTable [Client.mk 1 7 "Ada"%string "0700111222"%string
                "ada@example.org"%string "Analytical"%string
                "General"%string] 1)
    empty_table (mkTable rounding_sales 6)
    empty_table empty_table empty_table.

(** 2^53, and 2^53 followed by 1: the last addition is absorbed. *)
Definition absorbed_sales : list Sale.t :=
  [ Sale.mk 1 1 "2025-04-03"%string (amount_of 9007199254740992) "B"%string;
    Sale.mk 2 1 "2025-04-02"%string (amount_of 9007199254740992) "A"%string;
    Sale.mk 3 1 "2025-04-01"%string (amount_of 1) "A"%string ].

(** Amounts of opposite infinite sign for one product. *)
Definition unbounded_sales : list Sale.t :=
  [ Sale.mk 1 1 "2025-04-04"%string (amount_of 1) "A"%string;
    Sale.mk 2 1 "2025-04-03"%string (amount_of infinity) "N"%string;
    Sale.mk 3 1 "2025-04-02"%string (amount_of neg_infinity) "N"%string;
    Sale.mk 4 1 "2025-04-01"%string (amount_of 2) "B"%string ].

(** A client with the supplied fields of a partial update written over. *)
Definition patch_client (upd : client_updates) (c : Client.t) : Client.t :=
  let pick := fun (o : option string) (old : string) =>
    match o with Some v => v | None => old end in
  Client.mk (Client.id c) (Client.userId c)
    (pick (upd_name upd) (Client.name c))
    (pick (upd_phone upd) (Client.phone c))
    (pick (upd_email upd) (Client.email c))
    (pick (upd_company upd) (Client.company c))
    (pick (upd_industry upd) (Client.industry c)).

(** A follow-up with the non-empty fields of an update written over. *)
Definition patch_followUp (data : followUp_updates) (f : FollowUp.t)
    : FollowUp.t :=
  let pick := fun (o : option string) (old : string) =>
    match o with
    | Some v => if truthy v then v else old
    | None => old
    end in
  FollowUp.mk (FollowUp.id f) (FollowUp.entityId f) (FollowUp.entityType f)
    (pick (fu_date data) (FollowUp.date f))
    (pick (fu_notes data) (FollowUp.notes f))
    (FollowUp.isCompleted f) (FollowUp.createdAt f).

(** The entity a follow-up points to is there. *)
Definition entity_exists (s : store) (entityType : FollowUp.entity)
    (entityId : Z) : Prop :=
  match entityType with
  | FollowUp.client =>
      exists c, In c (rows (Clients s)) /\ Client.id c = entityId
  | FollowUp.prospect =>
      exists p, In p (rows (Prospects s)) /\ Prospect.id p = entityId
  | FollowUp.phoneNumber =>
      exists p, In p (rows (PhoneNumbers s)) /\ PhoneNumber.id p = entityId
  end.

(** Two reset tokens, expiring at times 1000 and 5000. *)
Definition demo_tokens : list (string * reset_entry) :=
  [ ("abc"%string, mkReset 1 "abc"%string 1000);
    ("xyz"%string, mkReset 2 "xyz"%string 5000) ].

(** ** Proof tools *)

Ltac run_db :=
  unfold bind, require_db, getFirstAsync, getAllAsync, runAsync, statement,
    ret, throw, healthy; simpl.

Lemma filter_nil_iff_absent :
  forall (A : Type) (p : A -> bool) (l : list A),
    (forall x, In x l -> p x = false) -> filter p l = [].
Proof.
  intros A p l H. induction l as [|a l IH]; simpl; [reflexivity|].
  rewrite (H a (or_introl eq_refl)). apply IH.
  intros x Hx. apply H. right. exact Hx.
Qed.

Lemma hd_error_In :
  forall (A : Type) (l : list A) (x : A), hd_error l = Some x -> In x l.
Proof.
  intros A [|y l] x H; simpl in H; [discriminate|].
  injection H as ->. left. reflexivity.
Qed.

Lemma hd_error_nil :
  forall (A : Type) (l : list A), hd_error l = None -> l = [].
Proof. intros A [|y l] H; [reflexivity | discriminate]. Qed.

Lemma map_update_idem :
  forall (A : Type) (p : A -> bool) (f : A -> A) (l : list A),
    (forall x, p (f x) = p x) -> (forall x, f (f x) = f x) ->
    map (fun r => if p r then f r else r)
        (map (fun r => if p r then f r else r) l)
    = map (fun r => if p r then f r else r) l.
Proof.
  intros A p f l Hp Hf. rewrite map_map. apply map_ext. intro r.
  destruct (p r) eqn:E.
  - rewrite Hp, E. apply Hf.
  - rewrite E. reflexivity.
Qed.

(** ** Partial update of a client *)

(** C9: [updateClient(id, {})] sends no statement: it returns normally and
    the world (tables and engine alike) is exactly what it was. *)
Theorem updateClient_no_fields_is_noop :
  forall (clientId : Z) (s : store) (plan : list bool),
    updateClient clientId no_client_updates (mkWorld (Some s) plan)
    = (Ok tt, mkWorld (Some s) plan).
Proof. intros. reflexivity. Qed.

(** ** Completion of a follow-up *)

(** C8: on a healthy engine [completeFollowUp(id)] succeeds and leaves the
    store it started from with [isCompleted] set on the follow-ups of that
    id and nothing else touched: the same rows in the same order, every other
    column and every other table as they were.  A second call succeeds and
    leaves the world obtained after the first call unchanged.  With no
    follow-up of that id the store is the one it started from. *)
Theorem completeFollowUp_idempotent :
  forall (followUpId : Z) (s : store),
    let once := completeFollowUp followUpId (healthy s) in
    let twice := completeFollowUp followUpId (snd once) in
    fst once = Ok tt /\ fst twice = Ok tt /\ snd twice = snd once /\
    exists s1, snd once = healthy s1 /\
      (forall f, In f (rows (FollowUps s1)) ->
                 FollowUp.id f = followUpId -> FollowUp.isCompleted f = true)
      /\ rows (FollowUps s1)
         = map (fun f => if FollowUp.id f =? followUpId
                         then FollowUp.complete f else f)
               (rows (FollowUps s))
      /\ map FollowUp.isCompleted (rows (FollowUps s1))
         = map (fun f => (FollowUp.id f =? followUpId)
                         || FollowUp.isCompleted f)
               (rows (FollowUps s))
      /\ map (fun f => (FollowUp.id f, FollowUp.entityId f,
                        FollowUp.entityType f, FollowUp.date f,
                        FollowUp.notes f, FollowUp.createdAt f))
             (rows (FollowUps s1))
         = map (fun f => (FollowUp.id f, FollowUp.entityId f,
                          FollowUp.entityType f, FollowUp.date f,
                          FollowUp.notes f, FollowUp.createdAt f))
               (rows (FollowUps s))
      /\ seq (FollowUps s1) = seq (FollowUps s)
      /\ Clients s1 = Clients s /\ Prospects s1 = Prospects s
      /\ Sales s1 = Sales s /\ PhoneNumbers s1 = PhoneNumbers s
      /\ CallLogs s1 = CallLogs s
      /\ ((forall f, In f (rows (FollowUps s)) ->
                     FollowUp.id f <> followUpId) -> s1 = s).
Proof.
  intros followUpId s. cbv zeta. unfold completeFollowUp. run_db.
  split; [reflexivity|]. split; [reflexivity|]. split.
  { unfold with_FollowUps, update_rows. simpl.
    rewrite map_update_idem; [reflexivity| |]; intros [] ; reflexivity. }
  eexists. split; [reflexivity|]. simpl. split.
  { intros f Hin Hid. apply in_map_iff in Hin. destruct Hin as [r [Hr _]].
    destruct (FollowUp.id r =? followUpId) eqn:E.
    - subst f. reflexivity.
    - subst f. apply Z.eqb_neq in E. contradiction. }
  split; [reflexivity|]. split.
  { rewrite map_map. apply map_ext. intro f.
    destruct (FollowUp.id f =? followUpId); reflexivity. }
  split.
  { rewrite map_map. apply map_ext. intro f.
    destruct (FollowUp.id f =? followUpId); reflexivity. }
  do 6 (split; [reflexivity|]).
  intro Hnone. destruct s as [cl pr sa [fr fs] ph lo]. simpl in *.
  unfold with_FollowUps, update_rows. simpl. do 2 f_equal.
  transitivity (map (fun f : FollowUp.t => f) fr); [|apply map_id].
  apply map_ext_in. intros f Hf.
  destruct (FollowUp.id f =? followUpId) eqn:E; [|reflexivity].
  apply Z.eqb_eq in E. exfalso. exact (Hnone f Hf E).
Qed.

(** ** Conversion of a prospect that does not exist *)

(** C5: when no prospect has the given id, the conversion throws
    "Prospect not found" and the tables are those it started with; no engine
    failure can make it write anything either. *)
Theorem convertProspect_absent_not_found :
  forall (prospectId : Z) (saleData : sale_data) (s : store),
    (forall p, In p (rows (Prospects s)) -> Prospect.id p <> prospectId) ->
    convertProspectToClientAndRecordSale prospectId saleData (healthy s)
    = (Throw prospect_not_found, healthy s)
    /\ forall plan,
         db (snd (convertProspectToClientAndRecordSale prospectId saleData
                    (mkWorld (Some s) plan))) = Some s.
Proof.
  intros prospectId saleData s Habs.
  assert (Hsel : select (fun p => Prospect.id p =? prospectId) (Prospects s)
                 = []).
  { apply filter_nil_iff_absent. intros p Hp. apply Z.eqb_neq. auto. }
  split.
  - unfold convertProspectToClientAndRecordSale. run_db. rewrite Hsel.
    reflexivity.
  - intro plan. unfold convertProspectToClientAndRecordSale. run_db.
    destruct plan as [|[] plan]; simpl; try reflexivity;
      rewrite Hsel; reflexivity.
Qed.

Lemma convertProspect_absent_not_found_witness :
  convertProspectToClientAndRecordSale 5 a_sale (healthy store_with_ada)
  = (Throw prospect_not_found, healthy store_with_ada)
  /\ forall plan,
       db (snd (convertProspectToClientAndRecordSale 5 a_sale
                  (mkWorld (Some store_with_ada) plan)))
       = Some store_with_ada.
Proof.
  apply (convertProspect_absent_not_found 5 a_sale store_with_ada).
  intros p [Hp|[]]. subst p. simpl. lia.
Defined.

(** ** The stable sort *)

Section StableSortFacts.
Context {A : Type} (before : A -> A -> bool).

Lemma insert_sorted_perm :
  forall (x : A) (l : list A), Permutation (insert_sorted before x l) (x :: l).
Proof.
  intros x l. induction l as [|y l IH]; simpl.
  - apply Permutation_refl.
  - destruct (before x y).
    + apply Permutation_refl.
    + eapply perm_trans; [apply perm_skip, IH | apply perm_swap].
Qed.

Lemma stable_sort_perm :
  forall l : list A, Permutation (stable_sort before l) l.
Proof.
  induction l as [|x l IH]; simpl.
  - apply perm_nil.
  - eapply perm_trans; [apply insert_sorted_perm | apply perm_skip, IH].
Qed.

Lemma stable_sort_In :
  forall (l : list A) (x : A), In x (stable_sort before l) <-> In x l.
Proof.
  intros l x. split; apply Permutation_in.
  - apply stable_sort_perm.
  - apply Permutation_sym, stable_sort_perm.
Qed.

Lemma stable_sort_length :
  forall l : list A, List.length (stable_sort before l) = List.length l.
Proof. intro l. apply Permutation_length, stable_sort_perm. Qed.

(** Elements that are pairwise allowed to stay in front of each other keep
    their relative order: this is stability. *)
Lemma insert_sorted_filter :
  forall (p : A -> bool),
    (forall a b, p a = true -> p b = true -> before a b = true) ->
    forall (x : A) (l : list A),
      filter p (insert_sorted before x l) = filter p (x :: l).
Proof.
  intros p Htie x l. induction l as [|y l IH]; [reflexivity|].
  simpl insert_sorted. destruct (before x y) eqn:E; [reflexivity|].
  simpl. simpl in IH. destruct (p y) eqn:Py.
  - destruct (p x) eqn:Px.
    + rewrite (Htie x y Px Py) in E. discriminate.
    + rewrite IH. reflexivity.
  - exact IH.
Qed.

Lemma stable_sort_filter :
  forall (p : A -> bool),
    (forall a b, p a = true -> p b = true -> before a b = true) ->
    forall l : list A, filter p (stable_sort before l) = filter p l.
Proof.
  intros p Htie l. induction l as [|x l IH]; [reflexivity|].
  simpl stable_sort. rewrite (insert_sorted_filter p Htie). simpl.
  rewrite IH. reflexivity.
Qed.

Hypothesis before_total : forall a b, before a b = true \/ before b a = true.
Hypothesis before_trans :
  forall a b c, before a b = true -> before b c = true -> before a c = true.

Lemma insert_sorted_sorted :
  forall (x : A) (l : list A),
    StronglySorted (fun a b => before a b = true) l ->
    StronglySorted (fun a b => before a b = true) (insert_sorted before x l).
Proof.
  intros x l Hs. induction Hs as [|y l Hs IH Hall]; simpl.
  - constructor; constructor.
  - destruct (before x y) eqn:E.
    + constructor; [constructor; assumption|].
      constructor; [exact E|].
      eapply Forall_impl; [|exact Hall].
      intros z Hz. eapply before_trans; eassumption.
    + constructor; [exact IH|].
      assert (Hyx : before y x = true).
      { destruct (before_total x y) as [H|H]; [congruence|exact H]. }
      eapply Permutation_Forall;
        [apply Permutation_sym, insert_sorted_perm|].
      constructor; assumption.
Qed.

Lemma stable_sort_sorted :
  forall l : list A,
    StronglySorted (fun a b => before a b = true) (stable_sort before l).
Proof.
  induction l as [|x l IH]; simpl.
  - constructor.
  - apply insert_sorted_sorted, IH.
Qed.
End StableSortFacts.

Lemma firstn_incl :
  forall (A : Type) (n : nat) (l : list A) (y : A),
    In y (firstn n l) -> In y l.
Proof.
  intros A n. induction n as [|n IH]; intros l y Hy; simpl in Hy.
  - contradiction.
  - destruct l as [|x l]; [contradiction|].
    destruct Hy as [Hy|Hy]; [left; exact Hy | right; apply IH, Hy].
Qed.

Lemma StronglySorted_firstn :
  forall (A : Type) (R : A -> A -> Prop) (n : nat) (l : list A),
    StronglySorted R l -> StronglySorted R (firstn n l).
Proof.
  intros A R n. induction n as [|n IH]; intros l Hs; simpl.
  - constructor.
  - destruct Hs as [|x l Hs Hall]; [constructor|].
    constructor; [apply IH, Hs|].
    rewrite Forall_forall in *. intros y Hy. apply Hall.
    eapply firstn_incl, Hy.
Qed.

(** ** Ownership isolation *)

(** C2, as stated, fails: [getClientById] selects on [id] alone, so a lookup
    made on behalf of user 1 returns the client of user 2. *)
Lemma getClientById_crosses_owners : ~ isolation_of_every_query.
Proof.
  intro H.
  destruct (H store_with_bob_client 1 2 ltac:(lia)) as [_ [_ Hid]].
  apply (Hid 1 bob_client); reflexivity.
Qed.

(** C2, amended: the list queries [getClients] and [getProspects] return
    rows of the table whose [userId] is the requested one, hence no row of
    another user; [getClientById] returns the first row of the table with the
    requested id, whoever owns it. *)
Theorem list_queries_filter_by_owner :
  forall (s : store) (a b : Z),
    a <> b ->
    (exists cs, getClients a (healthy s) = (Ok cs, healthy s) /\
       (forall c, In c cs <->
                  In c (rows (Clients s)) /\ Client.userId c = a) /\
       (forall c, In c cs -> Client.userId c <> b))
    /\ (exists ps, getProspects a (healthy s) = (Ok ps, healthy s) /\
          (forall p, In p ps <->
                     In p (rows (Prospects s)) /\ Prospect.userId p = a) /\
          (forall p, In p ps -> Prospect.userId p <> b))
    /\ (forall clientId, exists r,
          getClientById clientId (healthy s) = (Ok r, healthy s) /\
          (forall c, r = Some c ->
                     In c (rows (Clients s)) /\ Client.id c = clientId) /\
          (r = None ->
           forall c, In c (rows (Clients s)) -> Client.id c <> clientId)).
Proof.
  intros s a b Hab.
  assert (Hc : forall c,
            In c (stable_sort
                    (fun x y => String.leb (Client.name x) (Client.name y))
                    (select (fun c => Client.userId c =? a) (Clients s)))
            <-> In c (rows (Clients s)) /\ Client.userId c = a).
  { intro c. rewrite stable_sort_In. unfold select. rewrite filter_In.
    rewrite Z.eqb_eq. reflexivity. }
  assert (Hp : forall p,
            In p (stable_sort
                    (fun x y => String.leb (Prospect.followUpDate x)
                                           (Prospect.followUpDate y))
                    (select (fun p => Prospect.userId p =? a) (Prospects s)))
            <-> In p (rows (Prospects s)) /\ Prospect.userId p = a).
  { intro p. rewrite stable_sort_In. unfold select. rewrite filter_In.
    rewrite Z.eqb_eq. reflexivity. }
  split; [|split].
  - eexists. split; [reflexivity|]. split; [exact Hc|].
    intros c Hin. apply Hc in Hin. lia.
  - eexists. split; [reflexivity|]. split; [exact Hp|].
    intros p Hin. apply Hp in Hin. lia.
  - intro clientId. eexists. split; [reflexivity|]. split.
    + intros c Hr. apply hd_error_In in Hr. unfold select in Hr.
      apply filter_In in Hr. rewrite Z.eqb_eq in Hr. exact Hr.
    + intros Hr c Hin Hid. apply hd_error_nil in Hr.
      assert (Hf : In c (select (fun c => Client.id c =? clientId)
                                (Clients s))).
      { unfold select. apply filter_In. split; [exact Hin|].
        apply Z.eqb_eq, Hid. }
      rewrite Hr in Hf. exact Hf.
Qed.

Lemma list_queries_filter_by_owner_witness :
  (exists cs, getClients 1 (healthy store_with_bob_client)
              = (Ok cs, healthy store_with_bob_client) /\
     (forall c, In c cs <->
                In c (rows (Clients store_with_bob_client))
                /\ Client.userId c = 1) /\
     (forall c, In c cs -> Client.userId c <> 2))
  /\ (exists ps, getProspects 1 (healthy store_with_bob_client)
                 = (Ok ps, healthy store_with_bob_client) /\
        (forall p, In p ps <->
                   In p (rows (Prospects store_with_bob_client))
                   /\ Prospect.userId p = 1) /\
        (forall p, In p ps -> Prospect.userId p <> 2))
  /\ (forall clientId, exists r,
        getClientById clientId (healthy store_with_bob_client)
        = (Ok r, healthy store_with_bob_client) /\
        (forall c, r = Some c ->
                   In c (rows (Clients store_with_bob_client))
                   /\ Client.id c = clientId) /\
        (r = None ->
         forall c, In c (rows (Clients store_with_bob_client)) ->
                   Client.id c <> clientId)).
Proof.
  apply (list_queries_filter_by_owner store_with_bob_client 1 2). lia.
Defined.

(** ** Fresh row identifiers *)

Lemma next_rowid_fresh :
  forall (A : Type) (rowid : A -> Z) (t : table A) (r : A),
    In r (rows t) -> rowid r < next_rowid rowid t.
Proof.
  intros A rowid t r Hin. unfold next_rowid, max_rowid.
  induction (rows t) as [|x l IH]; simpl in *; [contradiction|].
  destruct Hin as [->|Hin]; [lia|]. specialize (IH Hin). lia.
Qed.

(** ** Conversion of a prospect into a client with a sale *)

(** On a healthy engine the conversion of an existing prospect performs its
    three writes: the client copies the prospect's contact fields, the sale
    refers to that client, and the prospect is marked [Won]. *)
Lemma convertProspect_success :
  forall (prospectId : Z) (saleData : sale_data) (s : store) (P : Prospect.t),
    hd_error (select (fun p => Prospect.id p =? prospectId) (Prospects s))
    = Some P ->
    exists c sale s',
      convertProspectToClientAndRecordSale prospectId saleData (healthy s)
      = (Ok (c, sale), healthy s')
      /\ rows (Clients s') = rows (Clients s) ++ [c]
      /\ Client.userId c = Prospect.userId P
      /\ Client.name c = Prospect.name P
      /\ Client.phone c = Prospect.phone P
      /\ Client.email c = Prospect.email P
      /\ Client.company c = Prospect.company P
      /\ Client.industry c = general_industry
      /\ rows (Sales s') = rows (Sales s) ++ [sale]
      /\ Sale.clientId sale = Client.id c
      /\ Sale.date sale = sd_date saleData
      /\ Sale.amount sale = sd_amount saleData
      /\ Sale.productOrService sale = sd_productOrService saleData
      /\ rows (Prospects s')
         = map (fun p => if Prospect.id p =? prospectId
                         then Prospect.set_status Prospect.Won p else p)
               (rows (Prospects s)).
Proof.
  intros prospectId saleData s P HP.
  unfold convertProspectToClientAndRecordSale. run_db. rewrite HP. simpl.
  do 3 eexists. split; [reflexivity|]. simpl. repeat split; reflexivity.
Qed.

(** Without a transaction the writes already made stay when a later one is
    rejected: if the engine refuses the [INSERT INTO Sales], the client row
    is there, with no sale and with the prospect not yet [Won]. *)
Lemma convertProspect_sale_rejected :
  forall (prospectId : Z) (saleData : sale_data) (s : store) (P : Prospect.t),
    hd_error (select (fun p => Prospect.id p =? prospectId) (Prospects s))
    = Some P ->
    exists c s',
      convertProspectToClientAndRecordSale prospectId saleData
        (mkWorld (Some s) [false; false; true])
      = (Throw engine_error, healthy s')
      /\ rows (Clients s') = rows (Clients s) ++ [c]
      /\ Client.name c = Prospect.name P
      /\ Sales s' = Sales s
      /\ Prospects s' = Prospects s.
Proof.
  intros prospectId saleData s P HP.
  unfold convertProspectToClientAndRecordSale. run_db. rewrite HP. simpl.
  do 2 eexists. split; [reflexivity|]. simpl. repeat split; reflexivity.
Qed.

(** C1: the conversion is not atomic.  Prospect 1 exists; the engine accepts
    the read and the client insert and rejects the sale insert.  The call
    throws, and the store now holds the new client although it holds no sale
    and the prospect is still [Qualified]. *)
Theorem convertProspect_partial_state :
  let w := mkWorld (Some store_with_ada) [false; false; true] in
  let r := convertProspectToClientAndRecordSale 1 a_sale w in
  fst r = Throw engine_error
  /\ exists s',
       snd r = healthy s'
       /\ rows (Clients s')
          = [Client.mk 1 7 "Ada"%string "0700111222"%string
               "ada@example.org"%string "Analytical"%string "General"%string]
       /\ rows (Sales s') = []
       /\ rows (Prospects s') = [ada]
       /\ Prospect.status_ ada = Prospect.Qualified.
Proof.
  cbv zeta. split; [reflexivity|].
  eexists. split; [reflexivity|]. repeat split; reflexivity.
Qed.

(** ** Conversion of a phone number into a prospect *)

Lemma in_update_rows :
  forall (A : Type) (p : A -> bool) (f : A -> A) (l : list A) (x : A),
    In x (map (fun r => if p r then f r else r) l) ->
    exists r, In r l /\ x = (if p r then f r else r).
Proof.
  intros A p f l x Hin. apply in_map_iff in Hin.
  destruct Hin as [r [Hr Hin]]. exists r. split; [exact Hin | symmetry; exact Hr].
Qed.

(** C4: with no row of that id the conversion throws "Phone number not
    found" and writes nothing; otherwise, [pn] being the row read, it appends
    a prospect with a fresh id whose phone is [pn]'s number, marks every
    phone-number row of that id as a prospect pointing to it, and completes
    every follow-up addressed to that phone number, leaving all other
    follow-ups as they were. *)
Theorem convertPhoneNumberToProspect_spec :
  forall (phoneNumberId : Z) (prospectData : prospect_data) (s : store),
    match hd_error (select (fun p => PhoneNumber.id p =? phoneNumberId)
                           (PhoneNumbers s)) with
    | None =>
        (forall r, In r (rows (PhoneNumbers s)) ->
                   PhoneNumber.id r <> phoneNumberId)
        /\ convertPhoneNumberToProspect phoneNumberId prospectData (healthy s)
           = (Throw phone_number_not_found, healthy s)
    | Some pn =>
        exists p s',
          In pn (rows (PhoneNumbers s))
          /\ PhoneNumber.id pn = phoneNumberId
          /\ convertPhoneNumberToProspect phoneNumberId prospectData
               (healthy s)
             = (Ok p, healthy s')
          /\ rows (Prospects s') = rows (Prospects s) ++ [p]
          /\ (forall q, In q (rows (Prospects s)) ->
                        Prospect.id q <> Prospect.id p)
          /\ Prospect.phone p = PhoneNumber.number pn
          /\ Prospect.userId p = PhoneNumber.userId pn
          /\ Prospect.name p = pd_name prospectData
          /\ Prospect.status_ p = pd_status prospectData
          /\ List.length (rows (PhoneNumbers s'))
             = List.length (rows (PhoneNumbers s))
          /\ (exists r, In r (rows (PhoneNumbers s'))
                        /\ PhoneNumber.id r = phoneNumberId)
          /\ (forall r, In r (rows (PhoneNumbers s')) ->
                PhoneNumber.id r = phoneNumberId ->
                PhoneNumber.isProspect r = true
                /\ PhoneNumber.prospectId r = Some (Prospect.id p))
          /\ rows (FollowUps s')
             = map (fun f =>
                      if (FollowUp.entityId f =? phoneNumberId)
                         && FollowUp.entity_eqb (FollowUp.entityType f)
                              FollowUp.phoneNumber
                      then FollowUp.complete f else f)
                   (rows (FollowUps s))
          /\ (forall f, In f (rows (FollowUps s')) ->
                FollowUp.entityId f = phoneNumberId ->
                FollowUp.entityType f = FollowUp.phoneNumber ->
                FollowUp.isCompleted f = true)
          /\ Clients s' = Clients s /\ Sales s' = Sales s
          /\ CallLogs s' = CallLogs s
    end.
Proof.
  intros phoneNumberId prospectData s.
  destruct (hd_error (select (fun p => PhoneNumber.id p =? phoneNumberId)
                             (PhoneNumbers s))) as [pn|] eqn:Hfound.
  - assert (Hpn : In pn (rows (PhoneNumbers s))
                  /\ PhoneNumber.id pn = phoneNumberId).
    { apply hd_error_In in Hfound. unfold select in Hfound.
      apply filter_In in Hfound. rewrite Z.eqb_eq in Hfound. exact Hfound. }
    unfold convertPhoneNumberToProspect. run_db. rewrite Hfound. simpl.
    do 2 eexists. split; [apply Hpn|]. split; [apply Hpn|].
    split; [reflexivity|]. simpl.
    split; [reflexivity|]. split.
    { intros q Hq. apply (next_rowid_fresh _ Prospect.id) in Hq. lia. }
    do 4 (split; [reflexivity|]).
    split; [apply length_map|]. split.
    { apply hd_error_In in Hfound. unfold select in Hfound.
      apply filter_In in Hfound. destruct Hfound as [Hin Hid].
      eexists. split.
      - apply in_map_iff. exists pn. split; [reflexivity | exact Hin].
      - rewrite Hid. simpl. apply Z.eqb_eq, Hid. }
    split.
    { intros r Hin Hid. apply in_update_rows in Hin.
      destruct Hin as [r0 [_ ->]].
      destruct (PhoneNumber.id r0 =? phoneNumberId) eqn:E.
      - split; reflexivity.
      - apply Z.eqb_neq in E. contradiction. }
    split; [reflexivity|]. split.
    { intros f Hin Hid Hty. apply in_update_rows in Hin.
      destruct Hin as [f0 [_ ->]].
      destruct ((FollowUp.entityId f0 =? phoneNumberId)
                && FollowUp.entity_eqb (FollowUp.entityType f0)
                     FollowUp.phoneNumber) eqn:E.
      - reflexivity.
      - rewrite Hty in E. apply Z.eqb_eq in Hid. rewrite Hid in E.
        discriminate. }
    repeat split; reflexivity.
  - split.
    + intros r Hin Hid. apply hd_error_nil in Hfound.
      assert (Hf : In r (select (fun p => PhoneNumber.id p =? phoneNumberId)
                                (PhoneNumbers s))).
      { unfold select. apply filter_In. split; [exact Hin|].
        apply Z.eqb_eq, Hid. }
      rewrite Hfound in Hf. exact Hf.
    + unfold convertPhoneNumberToProspect. run_db. rewrite Hfound.
      reflexivity.
Qed.

(** ** Recording calls *)

Lemma same_phone_iff :
  forall (u : Z) (n : string) (p : PhoneNumber.t),
    same_phone u n p = true
    <-> (PhoneNumber.userId p, PhoneNumber.number p) = (u, n).
Proof.
  intros u n p. unfold same_phone.
  rewrite andb_true_iff, Z.eqb_eq, String.eqb_eq.
  split; [intros [-> ->]; reflexivity | intro H; inversion H; auto].
Qed.

Lemma filter_map_preserve :
  forall (A : Type) (p : A -> bool) (f : A -> A) (l : list A),
    (forall x, p (f x) = p x) -> filter p (map f l) = map f (filter p l).
Proof.
  intros A p f l Hp. induction l as [|x l IH]; [reflexivity|].
  simpl. rewrite Hp. destruct (p x); simpl; rewrite IH; reflexivity.
Qed.

Lemma existsb_filter_nil :
  forall (A : Type) (p : A -> bool) (l : list A),
    filter p l = [] -> existsb p l = false.
Proof.
  intros A p l. induction l as [|x l IH]; [reflexivity|].
  simpl. destruct (p x); [discriminate | exact IH].
Qed.

(** Under [UNIQUE(userId, number)] a pair selects at most one row. *)
Lemma unique_phone_select :
  forall (u : Z) (n : string) (s : store),
    unique_phone s ->
    select (same_phone u n) (PhoneNumbers s) = []
    \/ exists x, select (same_phone u n) (PhoneNumbers s) = [x].
Proof.
  intros u n s. unfold unique_phone, select.
  induction (rows (PhoneNumbers s)) as [|x l IH]; intro Hnd.
  - left. reflexivity.
  - simpl in Hnd. inversion Hnd as [|k ks Hnotin Hnd']; subst.
    simpl. destruct (same_phone u n x) eqn:Ex.
    + right. exists x. f_equal. apply filter_nil_iff_absent.
      intros y Hy. destruct (same_phone u n y) eqn:Ey; [|reflexivity].
      exfalso. apply Hnotin. apply same_phone_iff in Ex, Ey.
      rewrite Ex, <- Ey.
      apply (in_map (fun p => (PhoneNumber.userId p, PhoneNumber.number p))).
      exact Hy.
    + apply IH, Hnd'.
Qed.

Lemma same_phone_touch :
  forall (u : Z) (n : string) (i : Z) (d : string) (r : PhoneNumber.t),
    same_phone u n
      (if PhoneNumber.id r =? i then PhoneNumber.set_lastCalledDate d r else r)
    = same_phone u n r.
Proof. intros. destruct (PhoneNumber.id r =? i); reflexivity. Qed.

(** A call to a number that already has its row: the row is updated in
    place, nothing is inserted into [PhoneNumbers], one call log is added. *)
Lemma recordNewCall_known_number :
  forall (now : string) (u : Z) (n : string) (d : log_data) (s : store)
         (x : PhoneNumber.t),
    select (same_phone u n) (PhoneNumbers s) = [x] ->
    exists cl s',
      recordNewCall now u (mkCallData n d) (healthy s)
      = (Ok (PhoneNumber.set_lastCalledDate (ld_date d) x, cl), healthy s')
      /\ select (same_phone u n) (PhoneNumbers s')
         = [PhoneNumber.set_lastCalledDate (ld_date d) x]
      /\ List.length (rows (PhoneNumbers s'))
         = List.length (rows (PhoneNumbers s))
      /\ rows (CallLogs s') = rows (CallLogs s) ++ [cl]
      /\ CallLog.phoneNumberId cl = PhoneNumber.id x
      /\ CallLog.date cl = ld_date d.
Proof.
  intros now u n d s x Hsel.
  assert (Hafter :
    filter (same_phone u n)
      (map (fun r => if PhoneNumber.id r =? PhoneNumber.id x
                     then PhoneNumber.set_lastCalledDate (ld_date d) r else r)
           (rows (PhoneNumbers s)))
    = [PhoneNumber.set_lastCalledDate (ld_date d) x]).
  { rewrite filter_map_preserve by (intro; apply same_phone_touch).
    unfold select in Hsel. rewrite Hsel. simpl. rewrite Z.eqb_refl.
    reflexivity. }
  unfold recordNewCall. run_db. rewrite Hsel. simpl.
  destruct (ld_nextFollowUpDate d) as [next|]; [destruct (truthy next)|];
    simpl; do 2 eexists; (split; [reflexivity|]); simpl; unfold select; simpl;
    (split; [exact Hafter|]); (split; [apply length_map|]);
    repeat split; reflexivity.
Qed.

(** A call to a number without a row: the row is created. *)
Lemma recordNewCall_new_number :
  forall (now : string) (u : Z) (n : string) (d : log_data) (s : store),
    select (same_phone u n) (PhoneNumbers s) = [] ->
    exists pn cl s',
      recordNewCall now u (mkCallData n d) (healthy s)
      = (Ok (pn, cl), healthy s')
      /\ select (same_phone u n) (PhoneNumbers s') = [pn]
      /\ PhoneNumber.lastCalledDate pn = ld_date d
      /\ rows (PhoneNumbers s') = rows (PhoneNumbers s) ++ [pn]
      /\ rows (CallLogs s') = rows (CallLogs s) ++ [cl]
      /\ CallLog.phoneNumberId cl = PhoneNumber.id pn.
Proof.
  intros now u n d s Hsel.
  assert (Hex : existsb (same_phone u n) (rows (PhoneNumbers s)) = false).
  { apply existsb_filter_nil. exact Hsel. }
  assert (Hafter : forall i,
    filter (same_phone u n)
      (rows (PhoneNumbers s)
       ++ [PhoneNumber.mk i u n (ld_date d) false None])
    = [PhoneNumber.mk i u n (ld_date d) false None]).
  { intro i. rewrite filter_app. unfold select in Hsel. rewrite Hsel. simpl.
    unfold same_phone. simpl. rewrite Z.eqb_refl, String.eqb_refl.
    reflexivity. }
  unfold recordNewCall. run_db. rewrite Hsel. simpl.
  unfold insert_phoneNumber. rewrite Hex. simpl.
  destruct (ld_nextFollowUpDate d) as [next|]; [destruct (truthy next)|];
    simpl; do 3 eexists; (split; [reflexivity|]); simpl; unfold select; simpl;
    (split; [apply Hafter|]); repeat split; reflexivity.
Qed.

(** C3: on a store respecting [UNIQUE(userId, number)], two successive calls
    to the same number of the same user both succeed; afterwards exactly one
    row of [PhoneNumbers] carries that pair, its [lastCalledDate] is the date
    of the second call, the second call added no phone-number row, and
    exactly two call logs were appended, both attached to that row. *)
Theorem recordNewCall_twice_one_phone_row :
  forall (now1 now2 : string) (u : Z) (n : string) (d1 d2 : log_data)
         (s : store),
    unique_phone s ->
    exists pn1 cl1 s1 pn2 cl2 s2,
      recordNewCall now1 u (mkCallData n d1) (healthy s)
      = (Ok (pn1, cl1), healthy s1)
      /\ recordNewCall now2 u (mkCallData n d2) (healthy s1)
         = (Ok (pn2, cl2), healthy s2)
      /\ select (same_phone u n) (PhoneNumbers s2) = [pn2]
      /\ PhoneNumber.lastCalledDate pn2 = ld_date d2
      /\ PhoneNumber.id pn2 = PhoneNumber.id pn1
      /\ List.length (rows (PhoneNumbers s2))
         = List.length (rows (PhoneNumbers s1))
      /\ rows (CallLogs s2) = rows (CallLogs s) ++ [cl1; cl2]
      /\ CallLog.phoneNumberId cl1 = PhoneNumber.id pn2
      /\ CallLog.phoneNumberId cl2 = PhoneNumber.id pn2
      /\ CallLog.date cl2 = ld_date d2.
Proof.
  intros now1 now2 u n d1 d2 s Hu.
  assert (Hfirst : exists pn1 cl1 s1,
    recordNewCall now1 u (mkCallData n d1) (healthy s)
    = (Ok (pn1, cl1), healthy s1)
    /\ select (same_phone u n) (PhoneNumbers s1) = [pn1]
    /\ rows (CallLogs s1) = rows (CallLogs s) ++ [cl1]
    /\ CallLog.phoneNumberId cl1 = PhoneNumber.id pn1).
  { destruct (unique_phone_select u n s Hu) as [Hnone|[x Hone]].
    - destruct (recordNewCall_new_number now1 u n d1 s Hnone)
        as (pn & cl & s1 & Hrun & Hsel & _ & _ & Hlogs & Hid).
      exists pn, cl, s1. auto.
    - destruct (recordNewCall_known_number now1 u n d1 s x Hone)
        as (cl & s1 & Hrun & Hsel & _ & Hlogs & Hid & _).
      exists (PhoneNumber.set_lastCalledDate (ld_date d1) x), cl, s1. auto. }
  destruct Hfirst as (pn1 & cl1 & s1 & Hrun1 & Hsel1 & Hlogs1 & Hid1).
  destruct (recordNewCall_known_number now2 u n d2 s1 pn1 Hsel1)
    as (cl2 & s2 & Hrun2 & Hsel2 & Hlen2 & Hlogs2 & Hid2 & Hdate2).
  exists pn1, cl1, s1, (PhoneNumber.set_lastCalledDate (ld_date d2) pn1),
    cl2, s2.
  split; [exact Hrun1|]. split; [exact Hrun2|]. split; [exact Hsel2|].
  split; [reflexivity|]. split; [reflexivity|]. split; [exact Hlen2|].
  split; [rewrite Hlogs2, Hlogs1, <- app_assoc; reflexivity|].
  split; [exact Hid1|]. split; [exact Hid2|]. exact Hdate2.
Qed.

(** ** JavaScript maps keyed by strings *)

Section StringMapFacts.
Context {V : Type}.
Implicit Types (m : list (string * V)) (k : string) (v : V).

Lemma map_get_set_same :
  forall m k v, map_get String.eqb k (map_set String.eqb k v m) = Some v.
Proof.
  intros m k v. induction m as [|[k' v'] m IH]; simpl.
  - rewrite String.eqb_refl. reflexivity.
  - destruct (String.eqb k' k) eqn:E; simpl.
    + rewrite String.eqb_refl. reflexivity.
    + rewrite E. exact IH.
Qed.

Lemma map_get_set_other :
  forall m k k' v,
    k' <> k ->
    map_get String.eqb k' (map_set String.eqb k v m)
    = map_get String.eqb k' m.
Proof.
  intros m k k' v Hne. induction m as [|[k0 v0] m IH]; simpl.
  - destruct (String.eqb k k') eqn:E; [|reflexivity].
    apply String.eqb_eq in E. congruence.
  - destruct (String.eqb k0 k) eqn:E; simpl.
    + apply String.eqb_eq in E. subst k0.
      destruct (String.eqb k k') eqn:E'; [|reflexivity].
      apply String.eqb_eq in E'. congruence.
    + rewrite IH. reflexivity.
Qed.

Lemma map_set_keys :
  forall m k v,
    map fst (map_set String.eqb k v m)
    = match map_get String.eqb k m with
      | Some _ => map fst m
      | None => map fst m ++ [k]
      end.
Proof.
  intros m k v. induction m as [|[k' v'] m IH]; simpl; [reflexivity|].
  destruct (String.eqb k' k) eqn:E; simpl.
  - apply String.eqb_eq in E. subst k'. reflexivity.
  - rewrite IH. destruct (map_get String.eqb k m); reflexivity.
Qed.

Lemma map_get_of_entry :
  forall m k v,
    NoDup (map fst m) -> In (k, v) m -> map_get String.eqb k m = Some v.
Proof.
  intros m k v Hnd Hin. induction m as [|[k' v'] m IH]; [contradiction|].
  simpl in Hnd. inversion Hnd as [|x xs Hnotin Hnd']; subst. simpl.
  destruct Hin as [Heq|Hin].
  - inversion Heq; subst. rewrite String.eqb_refl. reflexivity.
  - destruct (String.eqb k' k) eqn:E.
    + apply String.eqb_eq in E. subst k'. exfalso. apply Hnotin.
      apply (in_map fst) in Hin. exact Hin.
    + apply IH; assumption.
Qed.
End StringMapFacts.

(** ** Order of first occurrence *)

Lemma first_seen_snoc :
  forall (l : list string) (x : string),
    first_seen (l ++ [x])
    = if existsb (String.eqb x) l then first_seen l else first_seen l ++ [x].
Proof.
  intros l x. induction l as [|y t IH]; [reflexivity|].
  simpl. rewrite IH. destruct (String.eqb x y) eqn:E; simpl.
  - destruct (existsb (String.eqb x) t); [reflexivity|].
    rewrite filter_app. simpl. rewrite E. simpl. rewrite app_nil_r.
    reflexivity.
  - destruct (existsb (String.eqb x) t); [reflexivity|].
    rewrite filter_app. simpl. rewrite E. reflexivity.
Qed.

Lemma first_seen_In :
  forall (l : list string) (x : string), In x (first_seen l) <-> In x l.
Proof.
  intros l x. induction l as [|y t IH]; simpl; [tauto|].
  rewrite filter_In, IH. destruct (String.eqb x y) eqn:E.
  - apply String.eqb_eq in E. subst y. split; auto.
  - split.
    + intros [H|[H _]]; auto.
    + intros [H|H]; [left; exact H | right; split; [exact H | reflexivity]].
Qed.

Lemma first_seen_NoDup : forall l : list string, NoDup (first_seen l).
Proof.
  induction l as [|y t IH]; simpl; constructor.
  - rewrite filter_In. intros [_ H]. rewrite String.eqb_refl in H.
    discriminate.
  - apply NoDup_filter, IH.
Qed.

(** ** Grouping sales by product *)

Lemma productMap_snoc :
  forall (l : list Sale.t) (x : Sale.t),
    productMap_of (l ++ [x]) = product_step (productMap_of l) x.
Proof. intros l x. unfold productMap_of. apply fold_left_app. Qed.

Lemma sum_amounts_snoc :
  forall (l : list Sale.t) (x : Sale.t),
    sum_amounts (l ++ [x])
    = (sum_amounts l + Amount.value (Sale.amount x))%float.
Proof. intros l x. unfold sum_amounts. apply fold_left_app. Qed.

(** What [productMap] holds for a product: nothing if no sale has it, and
    otherwise the number and the running sum of the sales that have it. *)
Lemma productMap_get :
  forall (l : list Sale.t) (p : string),
    map_get String.eqb p (productMap_of l)
    = match sales_of_product p l with
      | [] => None
      | y :: ys =>
          Some (mkGroup (List.length (y :: ys)) (sum_amounts (y :: ys)))
      end.
Proof.
  intros l p. induction l as [|x l IH] using rev_ind; [reflexivity|].
  rewrite productMap_snoc. unfold product_step, sales_of_product.
  rewrite filter_app. simpl.
  destruct (String.eqb (Sale.productOrService x) p) eqn:E.
  - apply String.eqb_eq in E. subst p. rewrite map_get_set_same, IH.
    unfold sales_of_product.
    destruct (filter _ l) as [|y ys] eqn:F.
    + reflexivity.
    + cbn [g_count g_revenue app].
      rewrite <- (sum_amounts_snoc (y :: ys) x).
      replace (List.length (y :: ys) + 1)%nat
        with (S (List.length (ys ++ [x]))); [reflexivity|].
      rewrite length_app. simpl. lia.
  - rewrite map_get_set_other, IH, app_nil_r; [reflexivity|].
    intro Heq. subst p. rewrite String.eqb_refl in E. discriminate.
Qed.

Lemma existsb_product :
  forall (l : list Sale.t) (k : string),
    existsb (String.eqb k) (map Sale.productOrService l)
    = match sales_of_product k l with [] => false | _ :: _ => true end.
Proof.
  intros l k. induction l as [|y t IH]; [reflexivity|].
  simpl. rewrite (String.eqb_sym k). unfold sales_of_product in *.
  destruct (String.eqb (Sale.productOrService y) k); [reflexivity|].
  exact IH.
Qed.

(** The keys of [productMap] are the products in order of first sale. *)
Lemma productMap_keys :
  forall l : list Sale.t,
    map fst (productMap_of l) = first_seen (map Sale.productOrService l).
Proof.
  induction l as [|x l IH] using rev_ind; [reflexivity|].
  rewrite productMap_snoc. unfold product_step.
  rewrite map_set_keys, productMap_get, IH, map_app. simpl.
  rewrite first_seen_snoc, existsb_product.
  destruct (sales_of_product (Sale.productOrService x) l); reflexivity.
Qed.

Lemma product_entries_names :
  forall l : list Sale.t,
    map product (product_entries l)
    = first_seen (map Sale.productOrService l).
Proof.
  intro l. unfold product_entries. rewrite map_map. simpl.
  apply productMap_keys.
Qed.

Lemma product_entries_values :
  forall (l : list Sale.t) (g : product_stat),
    In g (product_entries l) ->
    sales_of_product (product g) l <> []
    /\ count g = List.length (sales_of_product (product g) l)
    /\ revenue g = sum_amounts (sales_of_product (product g) l).
Proof.
  intros l g Hin. unfold product_entries in Hin. apply in_map_iff in Hin.
  destruct Hin as [[k v] [<- Hin]]. simpl.
  assert (Hget : map_get String.eqb k (productMap_of l) = Some v).
  { apply map_get_of_entry; [|exact Hin].
    rewrite productMap_keys. apply first_seen_NoDup. }
  rewrite productMap_get in Hget.
  destruct (sales_of_product k l) as [|y ys]; [discriminate|].
  injection Hget as <-. simpl. repeat split. discriminate.
Qed.

(** ** IEEE 754 doubles *)

(** The facts about doubles that the analytics rest on, derived from the
    specification of the primitive operations ([SpecFloat], [FloatAxioms]):
    the order of doubles is the order of their exact values, the sign of a
    rounded difference is the sign of the exact difference, and a sum of
    numbers that are not negative is a number. *)

Lemma digits2_pos_bounds :
  forall m : positive,
    2 ^ (Zpos (digits2_pos m) - 1) <= Zpos m < 2 ^ Zpos (digits2_pos m).
Proof.
  induction m as [m IH|m IH|]; cbn [digits2_pos].
  - rewrite Pos2Z.inj_succ. change (Zpos m~1) with (2 * Zpos m + 1).
    replace (Z.succ (Zpos (digits2_pos m)) - 1)
      with (Z.succ (Zpos (digits2_pos m) - 1)) by lia.
    rewrite !Z.pow_succ_r by lia. lia.
  - rewrite Pos2Z.inj_succ. change (Zpos m~0) with (2 * Zpos m).
    replace (Z.succ (Zpos (digits2_pos m)) - 1)
      with (Z.succ (Zpos (digits2_pos m) - 1)) by lia.
    rewrite !Z.pow_succ_r by lia. lia.
  - simpl. lia.
Qed.

Lemma bounded_facts :
  forall (m : positive) (e : Z),
    bounded prec emax m e = true ->
    -1074 <= e <= 971
    /\ Zpos (digits2_pos m) <= 53
    /\ (-1074 < e -> Zpos (digits2_pos m) = 53).
Proof.
  intros m e H. unfold bounded, canonical_mantissa, fexp, SpecFloat.emin in H.
  apply andb_true_iff in H. destruct H as [H1 H2].
  apply Z.eqb_eq in H1. apply Z.leb_le in H2.
  change prec with 53 in *. change emax with 1024 in *. lia.
Qed.

Lemma finite_value_bounds :
  forall (m : positive) (e : Z),
    bounded prec emax m e = true ->
    0 < Zpos m * 2 ^ (e + 1074) < 2 ^ 2098.
Proof.
  intros m e H. destruct (bounded_facts m e H) as [He [Hd _]].
  pose proof (digits2_pos_bounds m) as [_ Hm].
  assert (H53 : Zpos m < 2 ^ 53).
  { eapply Z.lt_le_trans; [exact Hm|]. apply Z.pow_le_mono_r; lia. }
  assert (Hp : 0 < 2 ^ (e + 1074)) by (apply Z.pow_pos_nonneg; lia).
  assert (Hq : 2 ^ (e + 1074) <= 2 ^ 2045) by (apply Z.pow_le_mono_r; lia).
  split; [lia|].
  replace (2 ^ 2098) with (2 ^ 53 * 2 ^ 2045)
    by (rewrite <- Z.pow_add_r by lia; reflexivity).
  apply Z.lt_le_trans with (2 ^ 53 * 2 ^ (e + 1074)).
  - apply Z.mul_lt_mono_pos_r; assumption.
  - apply Z.mul_le_mono_nonneg_l; [apply Z.pow_nonneg; lia | exact Hq].
Qed.

Lemma cond_Zopp_compare :
  forall (s1 s2 : bool) (a b : Z),
    0 < a -> 0 < b ->
    (cond_Zopp s1 a ?= cond_Zopp s2 b)
    = match s1, s2 with
      | true, false => Lt
      | false, true => Gt
      | false, false => a ?= b
      | true, true => CompOpp (a ?= b)
      end.
Proof.
  intros [] [] a b Ha Hb; simpl.
  - rewrite Z.compare_opp. apply Z.compare_antisym.
  - apply Z.compare_lt_iff. lia.
  - apply Z.compare_gt_iff. lia.
  - reflexivity.
Qed.

(** On canonical representations the order by exponent, then mantissa, is
    the order of the values. *)
Lemma canonical_compare :
  forall (m1 m2 : positive) (e1 e2 : Z),
    bounded prec emax m1 e1 = true -> bounded prec emax m2 e2 = true ->
    (Zpos m1 * 2 ^ (e1 + 1074) ?= Zpos m2 * 2 ^ (e2 + 1074))
    = match e1 ?= e2 with
      | Lt => Lt
      | Gt => Gt
      | Eq => Pos.compare_cont Eq m1 m2
      end.
Proof.
  assert (Hlt : forall m1 m2 e1 e2,
    bounded prec emax m1 e1 = true -> bounded prec emax m2 e2 = true ->
    e1 < e2 -> Zpos m1 * 2 ^ (e1 + 1074) < Zpos m2 * 2 ^ (e2 + 1074)).
  { intros m1 m2 e1 e2 H1 H2 Hlt.
    destruct (bounded_facts m1 e1 H1) as [He1 [Hd1 _]].
    destruct (bounded_facts m2 e2 H2) as [He2 [_ Hd2]].
    pose proof (digits2_pos_bounds m1) as [_ Hm1].
    pose proof (digits2_pos_bounds m2) as [Hm2 _].
    rewrite Hd2 in Hm2 by lia. change (2 ^ (53 - 1)) with (2 ^ 52) in Hm2.
    assert (H53 : Zpos m1 < 2 ^ 53).
    { eapply Z.lt_le_trans; [exact Hm1|]. apply Z.pow_le_mono_r; lia. }
    replace (e2 + 1074) with ((e1 + 1074) + (e2 - e1)) by lia.
    rewrite (Z.pow_add_r 2 (e1 + 1074) (e2 - e1)) by lia.
    assert (Hp : 0 < 2 ^ (e1 + 1074)) by (apply Z.pow_pos_nonneg; lia).
    assert (Hq : 2 ^ 1 <= 2 ^ (e2 - e1)) by (apply Z.pow_le_mono_r; lia).
    change (2 ^ 1) with 2 in Hq. change (2 ^ 53) with (2 * 2 ^ 52) in H53.
    assert (Hc : 0 < 2 ^ 52) by reflexivity.
    generalize dependent (2 ^ 52). generalize dependent (2 ^ (e2 - e1)).
    generalize dependent (2 ^ (e1 + 1074)).
    intros P HP Q HQ c Hm2 H53 Hc.
    apply Z.lt_le_trans with (2 * c * P).
    - apply Z.mul_lt_mono_pos_r; assumption.
    - apply Z.le_trans with (Zpos m2 * (P * 2)); [nia|].
      apply Z.mul_le_mono_nonneg_l; [lia|]. apply Z.mul_le_mono_nonneg_l; lia. }
  intros m1 m2 e1 e2 H1 H2.
  destruct (Z.compare_spec e1 e2) as [Heq|Hl|Hg].
  - subst e2. rewrite Pos.compare_cont_spec.
    change (Pos.compare m1 m2) with (Zpos m1 ?= Zpos m2).
    destruct (bounded_facts m1 e1 H1) as [He1 _].
    assert (Hp : 0 < 2 ^ (e1 + 1074)) by (apply Z.pow_pos_nonneg; lia).
    destruct (Z.compare_spec (Zpos m1) (Zpos m2)) as [E|E|E].
    + rewrite E. apply Z.compare_refl.
    + apply Z.compare_lt_iff. apply Z.mul_lt_mono_pos_r; assumption.
    + apply Z.compare_gt_iff. apply Z.mul_lt_mono_pos_r; assumption.
  - apply Z.compare_lt_iff. apply Hlt; assumption.
  - apply Z.compare_gt_iff. apply Hlt; assumption.
Qed.

Lemma SFcompare_value :
  forall x y : spec_float,
    valid_binary x = true -> valid_binary y = true ->
    x <> S754_nan -> y <> S754_nan ->
    SFcompare x y = Some (sf_value x ?= sf_value y).
Proof.
  intros x y Hx Hy Nx Ny.
  assert (Hinf : 0 < 2 ^ 2098) by reflexivity.
  destruct x as [sx|sx| |sx mx ex]; [| |congruence|];
  destruct y as [sy|sy| |sy my ey]; try congruence;
  cbn [valid_binary] in Hx, Hy;
  try (pose proof (finite_value_bounds mx ex Hx) as [Hpx Hqx]);
  try (pose proof (finite_value_bounds my ey Hy) as [Hpy Hqy]).
  9: { unfold SFcompare, sf_value. rewrite cond_Zopp_compare by assumption.
       rewrite (canonical_compare mx my ex ey Hx Hy).
       destruct sx, sy; try reflexivity.
       destruct (ex ?= ey); reflexivity. }
  all: unfold SFcompare, sf_value, cond_Zopp;
    try destruct sx; try destruct sy; f_equal; symmetry;
    first [ apply Z.compare_eq_iff; reflexivity
          | apply Z.compare_lt_iff; lia
          | apply Z.compare_gt_iff; lia ].
Qed.

(** Rounding never turns a nonzero multiple of the smallest subnormal into
    zero or into NaN. *)
Lemma shr_1_m :
  forall r : shr_record, 0 <= shr_m r -> shr_m (shr_1 r) = shr_m r / 2.
Proof.
  intros [m r s] H. simpl in H. destruct m as [|p|p]; [reflexivity| |lia].
  destruct p as [p|p|]; cbn [shr_1 shr_m].
  - change (Zpos p~1) with (2 * Zpos p + 1).
    apply Z.div_unique with 1; lia.
  - change (Zpos p~0) with (2 * Zpos p).
    apply Z.div_unique with 0; lia.
  - reflexivity.
Qed.

Lemma iter_pos_shr_m :
  forall (p : positive) (r : shr_record),
    0 <= shr_m r -> shr_m (SpecFloat.iter_pos shr_1 p r) = shr_m r / 2 ^ Zpos p.
Proof.
  assert (Hnn : forall a b, 0 <= a -> 0 < b -> 0 <= a / b).
  { intros a b Ha Hb. apply Z.div_pos; assumption. }
  induction p as [p IH|p IH|]; intros r Hr; cbn [SpecFloat.iter_pos].
  - assert (H1 : 0 <= shr_m (shr_1 r)) by (rewrite shr_1_m; [apply Hnn|]; lia).
    assert (Hp : 0 < 2 ^ Zpos p) by (apply Z.pow_pos_nonneg; lia).
    rewrite IH; [rewrite IH; [|exact H1]|].
    + rewrite shr_1_m by exact Hr. rewrite !Z.div_div by lia.
      f_equal. replace (Zpos p~1) with (1 + (Zpos p + Zpos p)) by lia.
      rewrite !Z.pow_add_r by lia. reflexivity.
    + rewrite IH by exact H1. apply Hnn; [|exact Hp]. rewrite shr_1_m by exact Hr.
      apply Hnn; lia.
  - assert (Hp : 0 < 2 ^ Zpos p) by (apply Z.pow_pos_nonneg; lia).
    rewrite IH; [rewrite IH; [|exact Hr]|].
    + rewrite Z.div_div by lia. f_equal.
      replace (Zpos p~0) with (Zpos p + Zpos p) by lia.
      rewrite Z.pow_add_r by lia. reflexivity.
    + rewrite IH by exact Hr. apply Hnn; assumption.
  - apply shr_1_m, Hr.
Qed.

Lemma shr_fexp_positive :
  forall (m e : Z) (l : location),
    0 < m -> -1074 <= e ->
    0 < shr_m (fst (shr_fexp prec emax m e l))
    /\ -1074 <= snd (shr_fexp prec emax m e l).
Proof.
  intros m e l Hm He. destruct m as [|p|p]; try lia.
  unfold shr_fexp, shr, fexp, SpecFloat.emin. cbn [Zdigits2].
  change prec with 53. change emax with 1024.
  assert (Hrec : shr_m (shr_record_of_loc (Zpos p) l) = Zpos p)
    by (destruct l as [|[]]; reflexivity).
  pose proof (digits2_pos_bounds p) as [Hlow _].
  destruct (Z.max (Zpos (digits2_pos p) + e - 53) (3 - 1024 - 53) - e)
    as [|n|n] eqn:En; cbn [fst snd]; try (rewrite Hrec; lia).
  rewrite iter_pos_shr_m by (rewrite Hrec; lia). rewrite Hrec.
  split; [|lia].
  apply Z.div_str_pos. split; [apply Z.pow_pos_nonneg; lia|].
  eapply Z.le_trans; [|exact Hlow]. apply Z.pow_le_mono_r; lia.
Qed.

Lemma binary_round_aux_nonzero :
  forall (s : bool) (m e : Z) (l : location),
    0 < m -> -1074 <= e ->
    signed_nonzero s (binary_round_aux prec emax s m e l).
Proof.
  intros s m e l Hm He. unfold binary_round_aux.
  pose proof (shr_fexp_positive m e l Hm He) as [H1 H2].
  destruct (shr_fexp prec emax m e l) as [r1 e1]. cbn [fst snd] in H1, H2.
  assert (Hr : 0 < round_nearest_even (shr_m r1) (loc_of_shr_record r1)).
  { unfold round_nearest_even.
    destruct (loc_of_shr_record r1) as [|[]]; try lia.
    destruct (Z.even (shr_m r1)); lia. }
  pose proof (shr_fexp_positive _ e1 loc_Exact Hr H2) as [H3 _].
  destruct (shr_fexp prec emax _ e1 loc_Exact) as [r2 e2]. cbn [fst] in H3.
  destruct (shr_m r2) as [|q|q]; try lia.
  destruct (e2 <=? emax - prec); reflexivity.
Qed.

Lemma binary_round_nonzero :
  forall (s : bool) (m : positive) (e : Z),
    -1074 <= e -> signed_nonzero s (binary_round prec emax s m e).
Proof.
  intros s m e He. unfold binary_round.
  destruct (shl_align m e (fexp prec emax (Zpos (digits2_pos m) + e)))
    as [mz ez] eqn:E.
  apply binary_round_aux_nonzero; [lia|].
  unfold shl_align in E.
  destruct (fexp prec emax (Zpos (digits2_pos m) + e) - e) eqn:D;
    injection E as <- <-; try exact He.
  unfold fexp, SpecFloat.emin. change prec with 53. change emax with 1024.
  lia.
Qed.

Lemma binary_normalize_positive :
  forall m e : Z,
    -1074 <= e ->
    SFpositive (binary_normalize prec emax m e false) = (0 <? m).
Proof.
  intros m e He. destruct m as [|p|p]; cbn [binary_normalize].
  - reflexivity.
  - pose proof (binary_round_nonzero false p e He) as H.
    destruct (binary_round prec emax false p e); simpl in H;
      try contradiction; subst; reflexivity.
  - pose proof (binary_round_nonzero true p e He) as H.
    destruct (binary_round prec emax true p e); simpl in H;
      try contradiction; subst; reflexivity.
Qed.

Lemma Pos_iter_xO :
  forall m d : positive, Zpos (Pos.iter xO m d) = Zpos m * 2 ^ Zpos d.
Proof.
  intros m d. induction d as [|d IH] using Pos.peano_ind.
  - simpl. lia.
  - rewrite Pos.iter_succ, Pos2Z.inj_succ, Z.pow_succ_r by lia.
    change (Zpos (Pos.iter xO m d)~0) with (2 * Zpos (Pos.iter xO m d)).
    rewrite IH. lia.
Qed.

Lemma shl_align_value :
  forall (m : positive) (e ez : Z),
    ez <= e -> Zpos (fst (shl_align m e ez)) = Zpos m * 2 ^ (e - ez).
Proof.
  intros m e ez H. unfold shl_align.
  destruct (ez - e) as [|d|d] eqn:D; cbn [fst]; try lia.
  - replace (e - ez) with 0 by lia. lia.
  - rewrite Pos_iter_xO. f_equal. f_equal. lia.
Qed.

Lemma cond_Zopp_mul :
  forall (s : bool) (a b : Z), cond_Zopp s a * b = cond_Zopp s (a * b).
Proof. intros [] a b; simpl; lia. Qed.

(** The sign of a rounded difference is the sign of the exact one. *)
Lemma SFsub_positive :
  forall x y : spec_float,
    valid_binary x = true -> valid_binary y = true ->
    x <> S754_nan -> y <> S754_nan ->
    SFpositive (SF64sub y x) = (sf_value x <? sf_value y).
Proof.
  intros x y Hx Hy Nx Ny.
  assert (Hinf : 0 < 2 ^ 2098) by reflexivity.
  destruct x as [sx|sx| |sx mx ex]; [| |congruence|];
  destruct y as [sy|sy| |sy my ey]; try congruence;
  cbn [valid_binary] in Hx, Hy;
  try (pose proof (finite_value_bounds mx ex Hx) as [Hpx Hqx]);
  try (pose proof (finite_value_bounds my ey Hy) as [Hpy Hqy]).
  9: { destruct (bounded_facts mx ex Hx) as [Hex _].
       destruct (bounded_facts my ey Hy) as [Hey _].
       unfold SF64sub, SFsub.
       rewrite binary_normalize_positive by lia.
       rewrite !shl_align_value by lia.
       set (ez := Z.min ey ex).
       assert (Hz : 0 < 2 ^ (ez + 1074)) by (apply Z.pow_pos_nonneg; lia).
       assert (Vx : sf_value (S754_finite sx mx ex)
                    = cond_Zopp sx (Zpos mx * 2 ^ (ex - ez)) * 2 ^ (ez + 1074)).
       { cbn [sf_value]. rewrite cond_Zopp_mul, <- Z.mul_assoc.
         rewrite <- Z.pow_add_r by lia. do 3 f_equal. lia. }
       assert (Vy : sf_value (S754_finite sy my ey)
                    = cond_Zopp sy (Zpos my * 2 ^ (ey - ez)) * 2 ^ (ez + 1074)).
       { cbn [sf_value]. rewrite cond_Zopp_mul, <- Z.mul_assoc.
         rewrite <- Z.pow_add_r by lia. do 3 f_equal. lia. }
       rewrite Vx, Vy. clear Vx Vy.
       generalize (cond_Zopp sx (Zpos mx * 2 ^ (ex - ez))).
       generalize (cond_Zopp sy (Zpos my * 2 ^ (ey - ez))).
       generalize dependent (2 ^ (ez + 1074)). intros P HP a b.
       destruct (Z.ltb_spec 0 (a - b)); destruct (Z.ltb_spec (b * P) (a * P));
         try reflexivity; exfalso; nia. }
  all: unfold SF64sub, SFsub, SFpositive, SFltb, SFcompare, sf_value, cond_Zopp;
    try destruct sx; try destruct sy;
    first [ reflexivity
          | symmetry; apply Z.ltb_lt; lia
          | symmetry; apply Z.ltb_ge; lia ].
Qed.

Lemma SFadd_nonnegative :
  forall x y : spec_float,
    valid_binary x = true -> valid_binary y = true ->
    SFleb (S754_zero false) x = true -> SFleb (S754_zero false) y = true ->
    SFleb (S754_zero false) (SF64add x y) = true.
Proof.
  intros x y Hx Hy Px Py.
  destruct x as [sx|sx| |sx mx ex]; destruct y as [sy|sy| |sy my ey];
    try discriminate;
    try (destruct sx; try discriminate); try (destruct sy; try discriminate);
    try reflexivity.
  cbn [valid_binary] in Hx, Hy.
  destruct (bounded_facts mx ex Hx) as [Hex _].
  destruct (bounded_facts my ey Hy) as [Hey _].
  unfold SF64add, SFadd. cbn [cond_Zopp].
  pose proof (binary_round_nonzero false
                (fst (shl_align mx ex (Z.min ex ey))
                 + fst (shl_align my ey (Z.min ex ey)))%positive
                (Z.min ex ey)) as H.
  cbn [binary_normalize Z.add].
  destruct (binary_round prec emax false _ (Z.min ex ey));
    simpl in H; specialize (H ltac:(lia)); try contradiction; subst;
    reflexivity.
Qed.

(** What the primitive operations do, read off their specification. *)

Lemma Prim2SF_not_nan :
  forall x : float, is_nan x = false -> Prim2SF x <> S754_nan.
Proof.
  intros x H. unfold Prim2SF. rewrite H.
  destruct (is_zero x); [discriminate|].
  destruct (is_infinity x); [discriminate|].
  destruct (Z.frexp x) as [r e].
  destruct (shr_fexp prec emax _ _ _) as [sh e'].
  destruct (shr_m sh); discriminate.
Qed.

Lemma Prim2SF_nan :
  forall x : float, is_nan x = true -> Prim2SF x = S754_nan.
Proof. intros x H. unfold Prim2SF. rewrite H. reflexivity. Qed.

Lemma sub_positive :
  forall x y : float,
    is_nan x = false -> is_nan y = false ->
    (0 <? y - x)%float = (number_value x <? number_value y).
Proof.
  intros x y Hx Hy. rewrite ltb_spec, sub_spec.
  change (Prim2SF 0) with (S754_zero false).
  apply SFsub_positive;
    auto using Prim2SF_valid, Prim2SF_not_nan.
Qed.

Lemma leb_value :
  forall x y : float,
    is_nan x = false -> is_nan y = false ->
    (x <=? y)%float = (number_value x <=? number_value y).
Proof.
  intros x y Hx Hy. rewrite leb_spec. unfold SFleb.
  rewrite SFcompare_value by auto using Prim2SF_valid, Prim2SF_not_nan.
  unfold number_value, Z.leb.
  destruct (sf_value (Prim2SF x) ?= sf_value (Prim2SF y)); reflexivity.
Qed.

Lemma eqb_value :
  forall x y : float,
    (x =? y)%float = true ->
    is_nan x = false /\ is_nan y = false /\ number_value x = number_value y.
Proof.
  intros x y H. rewrite FloatAxioms.eqb_spec in H. unfold SFeqb in H.
  destruct (is_nan x) eqn:Nx.
  { rewrite (Prim2SF_nan x Nx) in H. discriminate. }
  destruct (is_nan y) eqn:Ny.
  { rewrite (Prim2SF_nan y Ny) in H.
    destruct (Prim2SF x); discriminate. }
  rewrite SFcompare_value in H
    by auto using Prim2SF_valid, Prim2SF_not_nan.
  split; [reflexivity|]. split; [reflexivity|].
  unfold number_value.
  destruct (sf_value (Prim2SF x) ?= sf_value (Prim2SF y)) eqn:C;
    try discriminate.
  apply Z.compare_eq_iff, C.
Qed.

Lemma nonnegative_not_nan :
  forall x : float, (0 <=? x)%float = true -> is_nan x = false.
Proof.
  intros x H. destruct (is_nan x) eqn:N; [|reflexivity].
  rewrite leb_spec, (Prim2SF_nan x N) in H. discriminate.
Qed.

Lemma add_nonnegative :
  forall x y : float,
    (0 <=? x)%float = true -> (0 <=? y)%float = true ->
    (0 <=? x + y)%float = true.
Proof.
  intros x y Hx Hy. rewrite leb_spec in *. rewrite add_spec.
  change (Prim2SF 0) with (S754_zero false) in *.
  apply SFadd_nonnegative; auto using Prim2SF_valid.
Qed.

(** ** More on the stable sort *)

Section StableSortOrder.
Context {A : Type}.

Lemma insert_sorted_ext_in :
  forall (before before' : A -> A -> bool) (x : A) (l : list A),
    (forall b, In b l -> before x b = before' x b) ->
    insert_sorted before x l = insert_sorted before' x l.
Proof.
  intros before before' x l. induction l as [|y l IH]; intro H; simpl.
  - reflexivity.
  - rewrite <- (H y) by (left; reflexivity).
    destruct (before x y); [reflexivity|].
    rewrite IH; [reflexivity|]. intros b Hb. apply H. right. exact Hb.
Qed.

(** Two comparators that agree on the elements of a list sort it alike. *)
Lemma stable_sort_ext_in :
  forall (before before' : A -> A -> bool) (l : list A),
    (forall a b, In a l -> In b l -> before a b = before' a b) ->
    stable_sort before l = stable_sort before' l.
Proof.
  intros before before' l. induction l as [|x l IH]; intro H; simpl.
  - reflexivity.
  - rewrite IH by (intros a b Ha Hb; apply H; right; assumption).
    apply insert_sorted_ext_in. intros b Hb.
    apply H; [left; reflexivity|]. right.
    apply (stable_sort_In before' l b), Hb.
Qed.

Lemma StronglySorted_impl_in :
  forall (R R' : A -> A -> Prop) (l : list A),
    (forall a b, In a l -> In b l -> R a b -> R' a b) ->
    StronglySorted R l -> StronglySorted R' l.
Proof.
  intros R R' l Himp Hs. induction Hs as [|x l Hs IH Hall].
  - constructor.
  - constructor.
    + apply IH. intros a b Ha Hb. apply Himp; right; assumption.
    + rewrite Forall_forall in *. intros b Hb.
      apply Himp; [left; reflexivity | right; exact Hb | apply Hall, Hb].
Qed.

Lemma precedes_cons :
  forall (x y z : A) (l : list A), precedes x y l -> precedes x y (z :: l).
Proof.
  intros x y z l (l1 & l2 & l3 & ->). exists (z :: l1), l2, l3. reflexivity.
Qed.

Lemma precedes_head :
  forall (x y : A) (l : list A), In y l -> precedes x y (x :: l).
Proof.
  intros x y l Hin. apply in_split in Hin. destruct Hin as (l2 & l3 & ->).
  exists [], l2, l3. reflexivity.
Qed.

Lemma precedes_inv :
  forall (x y z : A) (l : list A),
    precedes x y (z :: l) -> (x = z /\ In y l) \/ precedes x y l.
Proof.
  intros x y z l (l1 & l2 & l3 & H). destruct l1 as [|a l1]; simpl in H.
  - injection H as -> ->. left. split; [reflexivity|].
    apply in_or_app. right. left. reflexivity.
  - injection H as -> ->. right. exists l1, l2, l3. reflexivity.
Qed.

Lemma insert_sorted_keeps_precedes :
  forall (before : A -> A -> bool) (x a b : A) (l : list A),
    precedes a b l -> precedes a b (insert_sorted before x l).
Proof.
  intros before x a b l. induction l as [|y l IH]; intro H; simpl.
  - destruct H as (l1 & l2 & l3 & H). destruct l1; discriminate.
  - destruct (before x y); [apply precedes_cons, H|].
    apply precedes_inv in H. destruct H as [[-> Hin]|H].
    + apply precedes_head.
      apply (Permutation_in _ (Permutation_sym (insert_sorted_perm before x l))).
      right. exact Hin.
    + apply precedes_cons, IH, H.
Qed.

Lemma insert_sorted_in_front :
  forall (before : A -> A -> bool) (x b : A) (l : list A),
    In b l -> before x b = true -> precedes x b (insert_sorted before x l).
Proof.
  intros before x b l. induction l as [|y l IH]; intros Hin Hb; simpl.
  - contradiction.
  - destruct (before x y) eqn:E; [apply precedes_head, Hin|].
    destruct Hin as [->|Hin]; [congruence|].
    apply precedes_cons, IH; assumption.
Qed.

(** Stability, pair by pair: an element that stands in front of another and
    that the comparator does not put behind it stays in front of it. *)
Lemma stable_sort_keeps_precedes :
  forall (before : A -> A -> bool) (a b : A) (l : list A),
    precedes a b l -> before a b = true ->
    precedes a b (stable_sort before l).
Proof.
  intros before a b l. induction l as [|x l IH]; intros H Hab.
  - destruct H as (l1 & l2 & l3 & H). destruct l1; discriminate.
  - simpl. apply precedes_inv in H. destruct H as [[-> Hin]|H].
    + apply insert_sorted_in_front; [|exact Hab].
      apply (stable_sort_In before l b), Hin.
    + apply insert_sorted_keeps_precedes, IH; assumption.
Qed.
End StableSortOrder.

(** ** The comparator of [topProducts] *)

(** Between revenues that are numbers, [b.revenue - a.revenue] is positive
    exactly when [b] has the larger revenue. *)
Lemma revenue_before_by_value :
  forall a b : product_stat,
    is_nan (revenue a) = false -> is_nan (revenue b) = false ->
    revenue_before a b = by_value a b.
Proof.
  intros a b Ha Hb. unfold revenue_before, by_revenue_desc, by_value.
  rewrite sub_positive by assumption. symmetry. apply Z.leb_antisym.
Qed.

Lemma by_value_leb :
  forall a b : product_stat,
    is_nan (revenue a) = false -> is_nan (revenue b) = false ->
    by_value a b = (revenue b <=? revenue a)%float.
Proof.
  intros a b Ha Hb. unfold by_value. symmetry. apply leb_value; assumption.
Qed.

Lemma by_value_total :
  forall a b : product_stat, by_value a b = true \/ by_value b a = true.
Proof.
  intros a b. unfold by_value. rewrite !Z.leb_le. lia.
Qed.

Lemma by_value_trans :
  forall a b c : product_stat,
    by_value a b = true -> by_value b c = true -> by_value a c = true.
Proof.
  intros a b c. unfold by_value. rewrite !Z.leb_le. lia.
Qed.

(** Groups of equal revenue are not ordered by the comparator. *)
Lemma revenue_ties_before :
  forall (r : float) (a b : product_stat),
    (revenue a =? r)%float = true -> (revenue b =? r)%float = true ->
    revenue_before a b = true.
Proof.
  intros r a b Ha Hb.
  apply eqb_value in Ha. destruct Ha as (Na & _ & Va).
  apply eqb_value in Hb. destruct Hb as (Nb & _ & Vb).
  rewrite revenue_before_by_value by assumption.
  unfold by_value. rewrite Va, Vb. apply Z.leb_refl.
Qed.

(** With revenues that are numbers the sort puts the groups in descending
    order of revenue, in the order [<=] of doubles. *)
Lemma topProducts_sorted :
  forall groups : list product_stat,
    revenues_are_numbers groups ->
    StronglySorted (fun x y => (revenue y <=? revenue x)%float = true)
                   (stable_sort revenue_before groups).
Proof.
  intros groups Hnum. unfold revenues_are_numbers in Hnum.
  rewrite Forall_forall in Hnum.
  rewrite (stable_sort_ext_in revenue_before by_value)
    by (intros a b Ha Hb; apply revenue_before_by_value; auto).
  apply StronglySorted_impl_in with (R := fun x y => by_value x y = true).
  - intros a b Ha Hb Hab. rewrite <- by_value_leb; [exact Hab| |];
      apply Hnum; [apply (stable_sort_In by_value groups a), Ha
                  | apply (stable_sort_In by_value groups b), Hb].
  - apply stable_sort_sorted; [apply by_value_total | apply by_value_trans].
Qed.

Lemma sum_not_negative :
  forall (sales : list Sale.t) (acc : float),
    amounts_not_negative sales -> (0 <=? acc)%float = true ->
    (0 <=? fold_left
             (fun sum sale => sum + Amount.value (Sale.amount sale))%float
             sales acc)%float = true.
Proof.
  induction sales as [|x sales IH]; intros acc Hall Hacc; simpl.
  - exact Hacc.
  - inversion Hall as [|y ys Hx Hrest]; subst.
    apply IH; [exact Hrest|]. apply add_nonnegative; assumption.
Qed.

(** ** Analytics *)

Lemma StronglySorted_impl :
  forall (A : Type) (R R' : A -> A -> Prop) (l : list A),
    (forall a b, R a b -> R' a b) -> StronglySorted R l -> StronglySorted R' l.
Proof.
  intros A R R' l Himp Hs. induction Hs as [|x l Hs IH Hall].
  - constructor.
  - constructor; [exact IH|]. eapply Forall_impl; [|exact Hall].
    intros b Hb. apply Himp, Hb.
Qed.


Lemma monthMap_none :
  forall (isoMonth : string -> option string) (l : list Sale.t)
         (acc : option (list (string * (float * nat)))),
    fold_left (month_step isoMonth) l acc = None ->
    acc = None
    \/ exists sale, In sale l /\ isoMonth (Sale.date sale) = None.
Proof.
  intros isoMonth l. induction l as [|x l IH]; intros acc H; simpl in H.
  - left. exact H.
  - destruct (IH _ H) as [Hstep|[sale [Hin Hnone]]].
    + destruct acc as [m|]; [|left; reflexivity]. right. exists x.
      split; [left; reflexivity|]. simpl in Hstep.
      destruct (isoMonth (Sale.date x)); [discriminate | reflexivity].
    + right. exists sale. split; [right; exact Hin | exact Hnone].
Qed.

Lemma monthMap_some :
  forall (isoMonth : string -> option string) (l : list Sale.t)
         (m : list (string * (float * nat))),
    Forall (fun sale => isoMonth (Sale.date sale) <> None) l ->
    exists m', fold_left (month_step isoMonth) l (Some m) = Some m'.
Proof.
  intros isoMonth l. induction l as [|x l IH]; intros m Hall; simpl.
  - exists m. reflexivity.
  - inversion Hall as [|y ys Hx Hl]; subst.
    destruct (isoMonth (Sale.date x)) as [key|]; [|congruence].
    apply IH, Hl.
Qed.

(** The sales that the analytics query reads: the rows of [Sales] inside the
    date bound (if any) whose client belongs to the user. *)
Lemma analyticsSales_In :
  forall (u : Z) (sd ed : option string) (s : store) (sale : Sale.t),
    In sale (analyticsSales u sd ed s)
    <-> In sale (rows (Sales s)) /\ dateFilter sd ed sale = true
        /\ exists c, In c (rows (Clients s))
                     /\ Client.id c = Sale.clientId sale
                     /\ Client.userId c = u.
Proof.
  intros u sd ed s sale. unfold analyticsSales.
  rewrite stable_sort_In, in_flat_map. split.
  - intros [x [Hx Hin]]. apply filter_In in Hx. destruct Hx as [Hx Hd].
    apply in_map_iff in Hin. destruct Hin as [c [<- Hc]].
    apply filter_In in Hc. destruct Hc as [Hc Hm].
    apply andb_true_iff in Hm. rewrite !Z.eqb_eq in Hm.
    split; [exact Hx|]. split; [exact Hd|]. exists c. tauto.
  - intros [Hx [Hd [c [Hc [Hid Hu]]]]]. exists sale. split.
    + apply filter_In. split; assumption.
    + apply in_map_iff. exists c. split; [reflexivity|].
      apply filter_In. split; [exact Hc|].
      apply andb_true_iff. rewrite !Z.eqb_eq. split; assumption.
Qed.

(** [getAnalyticsData] on a healthy engine, outcome by outcome. *)
Lemma getAnalyticsData_healthy :
  forall (isoMonth : string -> option string) (u : Z)
         (sd ed : option string) (s : store),
    let sales := analyticsSales u sd ed s in
    let prospects :=
      stable_sort
        (fun a b => String.leb (Prospect.followUpDate a)
                               (Prospect.followUpDate b))
        (select (fun p => Prospect.userId p =? u) (Prospects s)) in
    match monthMap_of isoMonth sales with
    | None =>
        getAnalyticsData isoMonth u sd ed (healthy s)
        = (Throw invalid_time_value, healthy s)
    | Some monthMap =>
        exists a,
          getAnalyticsData isoMonth u sd ed (healthy s) = (Ok a, healthy s)
          /\ totalRevenue a = sum_amounts sales
          /\ averageSaleAmount a = average_of sales
          /\ totalProspects a = List.length prospects
          /\ conversionRate a = conversion_of prospects
          /\ topProducts a = topProducts_of sales
          /\ salesByMonth a = salesByMonth_of monthMap
    end.
Proof.
  intros isoMonth u sd ed s. cbv zeta.
  unfold getAnalyticsData, getClients, getProspects, getCallLogs,
    getFollowUps. run_db.
  destruct (monthMap_of isoMonth (analyticsSales u sd ed s)) as [mm|].
  - eexists. split; [reflexivity|]. simpl. repeat split; reflexivity.
  - reflexivity.
Qed.



(** Totals kept by the maps of the analytics. *)

Lemma filter_split_length :
  forall (A : Type) (p : A -> bool) (l : list A),
    List.length l
    = (List.length (filter p l)
       + List.length (filter (fun x => negb (p x)) l))%nat.
Proof.
  intros A p l. induction l as [|x l IH]; [reflexivity|].
  simpl. destruct (p x); simpl; lia.
Qed.

Lemma list_sum_perm :
  forall (A : Type) (f : A -> nat) (l l' : list A),
    Permutation l l' -> list_sum (map f l) = list_sum (map f l').
Proof.
  intros A f l l' Hp.
  induction Hp as [|x l l' Hp IH|x y l|l l' l'' H1 IH1 H2 IH2]; simpl;
    try lia.
Qed.

(** Replacing the value of a key moves the total by the difference. *)
Lemma map_set_total :
  forall (K V : Type) (eqb : K -> K -> bool) (f : V -> nat) (k : K) (v : V)
         (m : list (K * V)),
    (list_sum (map (fun e => f (snd e)) (map_set eqb k v m))
     + match map_get eqb k m with Some e => f e | None => 0 end)%nat
    = (list_sum (map (fun e => f (snd e)) m) + f v)%nat.
Proof.
  intros K V eqb f k v m. induction m as [|[k' v'] m IH]; simpl; [lia|].
  destruct (eqb k' k); simpl; lia.
Qed.

Lemma tally_total :
  forall (K : Type) (eqb : K -> K -> bool) (keys : list K),
    list_sum (map snd (tally eqb keys)) = List.length keys.
Proof.
  intros K eqb keys. unfold tally.
  assert (H : forall m,
            list_sum (map snd (fold_left (tally_step eqb) keys m))
            = (list_sum (map snd m) + List.length keys)%nat).
  { induction keys as [|k keys IH]; intro m; simpl; [lia|].
    rewrite IH. unfold tally_step.
    pose proof (map_set_total K nat eqb (fun n => n) k
                  (match map_get eqb k m with
                   | Some n => n
                   | None => 0
                   end + 1)%nat
                  m) as Hset.
    simpl in Hset.
    change (fun e : K * nat => snd e) with (@snd K nat) in Hset.
    destruct (map_get eqb k m); lia. }
  rewrite H. reflexivity.
Qed.

Lemma monthMap_total :
  forall (isoMonth : string -> option string) (sales : list Sale.t)
         (m m' : list (string * (float * nat))),
    fold_left (month_step isoMonth) sales (Some m) = Some m' ->
    list_sum (map (fun e => snd (snd e)) m')
    = (list_sum (map (fun e => snd (snd e)) m) + List.length sales)%nat.
Proof.
  intros isoMonth sales. induction sales as [|x sales IH]; intros m m' H.
  - simpl in H. injection H as <-. simpl. lia.
  - simpl in H. destruct (isoMonth (Sale.date x)) as [key|] eqn:Hkey.
    + apply IH in H. rewrite H.
      pose proof (map_set_total string (float * nat) String.eqb snd key
                    ((fst match map_get String.eqb key m with
                          | Some e => e
                          | None => (0%float, 0%nat)
                          end + Amount.value (Sale.amount x))%float,
                     (snd match map_get String.eqb key m with
                          | Some e => e
                          | None => (0%float, 0%nat)
                          end + 1)%nat) m) as Hset.
      simpl in Hset. simpl. destruct (map_get String.eqb key m); simpl in *;
        lia.
    + exfalso. clear - H.
      assert (Hnone : forall l,
                fold_left (month_step isoMonth) l None = None).
      { induction l; simpl; auto. }
      rewrite Hnone in H. discriminate.
Qed.

Lemma salesByMonth_counts :
  forall (isoMonth : string -> option string) (sales : list Sale.t)
         (monthMap : list (string * (float * nat))),
    monthMap_of isoMonth sales = Some monthMap ->
    list_sum (map month_count (salesByMonth_of monthMap)) = List.length sales.
Proof.
  intros isoMonth sales mm Hm. unfold salesByMonth_of.
  rewrite (list_sum_perm _ month_count _ _ (stable_sort_perm _ _)).
  rewrite map_map. simpl. unfold monthMap_of in Hm.
  rewrite (monthMap_total _ _ _ _ Hm). reflexivity.
Qed.

Lemma filter_all :
  forall (A : Type) (p : A -> bool) (l : list A),
    (forall x, p x = true) -> filter p l = l.
Proof.
  intros A p l H. induction l as [|x l IH]; simpl; [reflexivity|].
  rewrite H, IH. reflexivity.
Qed.

(** Without both dates the query has no date bound. *)
Lemma analyticsSales_unbounded :
  forall (u : Z) (sd ed : option string) (s : store),
    truthy_opt sd && truthy_opt ed = false ->
    analyticsSales u sd ed s = sales_of_user u s.
Proof.
  intros u sd ed s H. unfold analyticsSales, sales_of_user.
  rewrite filter_all; [reflexivity|]. intro sale.
  destruct sd as [lo|], ed as [hi|]; simpl in *; try reflexivity.
  rewrite H. reflexivity.
Qed.

Lemma sales_of_user_In :
  forall (u : Z) (s : store) (sale : Sale.t),
    In sale (sales_of_user u s)
    <-> In sale (rows (Sales s))
        /\ exists c, In c (rows (Clients s))
                     /\ Client.id c = Sale.clientId sale
                     /\ Client.userId c = u.
Proof.
  intros u s sale.
  rewrite <- (analyticsSales_unbounded u None None s eq_refl).
  rewrite analyticsSales_In. simpl. tauto.
Qed.

(** A key that is unique selects at most one row. *)
Lemma filter_unique_key :
  forall (A B : Type) (key : A -> Z) (q : A -> bool) (k : Z) (v : B)
         (l : list A),
    NoDup (map key l) ->
    map (fun _ => v) (filter (fun c => (key c =? k) && q c) l)
    = if existsb (fun c => (key c =? k) && q c) l then [v] else [].
Proof.
  intros A B key q k v l. induction l as [|x l IH]; intro Hnd;
    [reflexivity|].
  simpl in Hnd. inversion Hnd as [|? ? Hnotin Hnd']; subst. simpl.
  destruct ((key x =? k) && q x) eqn:E; simpl; [|apply IH, Hnd'].
  rewrite filter_nil_iff_absent; [reflexivity|].
  intros c Hc. apply andb_true_iff in E. destruct E as [E _].
  apply Z.eqb_eq in E. destruct (key c =? k) eqn:Ec; [|reflexivity].
  apply Z.eqb_eq in Ec. exfalso. apply Hnotin. rewrite E, <- Ec.
  apply in_map, Hc.
Qed.

(** With client ids that are unique the join reads each sale of the user
    once. *)
Lemma sales_of_user_once :
  forall (u : Z) (s : store),
    NoDup (map Client.id (rows (Clients s))) ->
    Permutation (sales_of_user u s)
      (filter (fun sale =>
                 existsb (fun c => (Client.id c =? Sale.clientId sale)
                                   && (Client.userId c =? u))
                         (rows (Clients s)))
              (rows (Sales s))).
Proof.
  intros u s Hnd. unfold sales_of_user.
  eapply perm_trans; [apply stable_sort_perm|].
  induction (rows (Sales s)) as [|sale l IH]; simpl; [apply perm_nil|].
  rewrite (filter_unique_key _ _ Client.id (fun c => Client.userId c =? u)
             (Sale.clientId sale) sale _ Hnd).
  destruct (existsb _ (rows (Clients s))); simpl;
    [apply perm_skip, IH | exact IH].
Qed.

Lemma getAllAsync_ext :
  forall (A : Type) (f g : store -> list A) (w : world),
    (forall s, f s = g s) -> getAllAsync f w = getAllAsync g w.
Proof.
  intros A f g w H. unfold getAllAsync, statement.
  destruct (db w) as [s|]; [|reflexivity]. rewrite (H s). reflexivity.
Qed.

Lemma getAnalyticsData_unbounded :
  forall (isoMonth : string -> option string) (u : Z)
         (sd ed : option string) (w : world),
    truthy_opt sd && truthy_opt ed = false ->
    getAnalyticsData isoMonth u sd ed w
    = getAnalyticsData isoMonth u None None w.
Proof.
  intros isoMonth u sd ed w H. unfold getAnalyticsData.
  unfold bind at 1. symmetry. unfold bind at 1. symmetry.
  destruct (require_db w) as [[[]|e] w1]; [|reflexivity].
  unfold bind at 1. symmetry. unfold bind at 1. symmetry.
  rewrite (getAllAsync_ext _ (analyticsSales u sd ed)
             (analyticsSales u None None) w1); [reflexivity|].
  intro s. rewrite (analyticsSales_unbounded u sd ed s H).
  rewrite (analyticsSales_unbounded u None None s eq_refl). reflexivity.
Qed.

Lemma StronglySorted_app_inv :
  forall (A : Type) (R : A -> A -> Prop) (l1 l2 : list A),
    StronglySorted R (l1 ++ l2) ->
    forall a b, In a l1 -> In b l2 -> R a b.
Proof.
  intros A R l1. induction l1 as [|x l1 IH]; intros l2 Hs a b Ha Hb;
    [contradiction|].
  simpl in Hs. inversion Hs as [|? ? Hs' Hall]; subst.
  destruct Ha as [->|Ha].
  - rewrite Forall_forall in Hall. apply Hall. apply in_or_app. right.
    exact Hb.
  - eapply IH; eassumption.
Qed.

(** With amounts that are not negative no revenue is NaN. *)
Lemma revenues_of_not_negative_amounts :
  forall sales : list Sale.t,
    amounts_not_negative sales -> revenues_are_numbers (product_entries sales).
Proof.
  intros sales Hall. unfold revenues_are_numbers. apply Forall_forall.
  intros g Hg. apply product_entries_values in Hg.
  destruct Hg as (_ & _ & ->).
  apply nonnegative_not_nan. unfold sum_amounts.
  apply sum_not_negative; [|reflexivity].
  unfold amounts_not_negative, sales_of_product in *.
  rewrite Forall_forall in *. intros x Hx. apply filter_In in Hx.
  apply Hall, Hx.
Qed.



(** C7: for every list of sales, [topProducts] is made of one group per
    product, in order of first sale, each with the number of the sales of
    its product and with their amounts added from the left as doubles; the
    groups are sorted by the comparator [b.revenue - a.revenue] and the
    first five are kept.  Groups of equal revenue keep their order of first
    sale, and so does every pair that the comparator does not invert.
    The sorted groups are in descending order of revenue, and no group
    that is dropped has more revenue than one that is kept, as soon as every
    revenue is a number, which is the case whenever no amount is negative.
    [getAnalyticsData] returns exactly this for the sales it reads. *)
Theorem topProducts_grouped_sorted_top5 :
  forall sales : list Sale.t,
    let groups := product_entries sales in
    let sorted := stable_sort revenue_before groups in
    topProducts_of sales = firstn 5 sorted
    /\ map product groups = first_seen (map Sale.productOrService sales)
    /\ (forall g, In g groups ->
          count g = List.length (sales_of_product (product g) sales)
          /\ revenue g = sum_amounts (sales_of_product (product g) sales))
    /\ Permutation sorted groups
    /\ (revenues_are_numbers groups ->
        StronglySorted (fun x y => (revenue y <=? revenue x)%float = true)
                       sorted
        /\ forall kept dropped : product_stat,
             In kept (topProducts_of sales) -> In dropped groups ->
             ~ In dropped (topProducts_of sales) ->
             (revenue dropped <=? revenue kept)%float = true)
    /\ (amounts_not_negative sales -> revenues_are_numbers groups)
    /\ (forall r : float,
          filter (fun g => (revenue g =? r)%float) sorted
          = filter (fun g => (revenue g =? r)%float) groups)
    /\ (forall a b : product_stat,
          precedes a b groups -> revenue_before a b = true ->
          precedes a b sorted)
    /\ (List.length (topProducts_of sales) <= 5)%nat
    /\ forall (isoMonth : string -> option string) (u : Z)
              (sd ed : option string) (s : store),
         match getAnalyticsData isoMonth u sd ed (healthy s) with
         | (Ok a, _) => topProducts a = topProducts_of (analyticsSales u sd ed s)
         | (Throw e, _) =>
             exists sale, In sale (analyticsSales u sd ed s)
                          /\ isoMonth (Sale.date sale) = None
         end.
Proof.
  intros sales groups sorted. split; [reflexivity|].
  split; [apply product_entries_names|]. split.
  { intros g Hg. apply product_entries_values in Hg. tauto. }
  split; [apply stable_sort_perm|].
  split.
  { intro Hnum. pose proof (topProducts_sorted groups Hnum) as Hs.
    fold sorted in Hs. split; [exact Hs|].
    intros kept dropped Hk Hd Hno.
    rewrite <- (firstn_skipn 5 sorted) in Hs.
    apply (StronglySorted_app_inv _ _ _ _ Hs kept dropped); [exact Hk|].
    apply (stable_sort_In revenue_before groups dropped) in Hd.
    fold sorted in Hd. rewrite <- (firstn_skipn 5 sorted) in Hd.
    apply in_app_or in Hd. destruct Hd as [Hd|Hd]; [|exact Hd].
    exfalso. apply Hno. exact Hd. }
  split; [apply revenues_of_not_negative_amounts|].
  split.
  { intro r. apply stable_sort_filter. apply revenue_ties_before. }
  split.
  { intros a b. apply stable_sort_keeps_precedes. }
  split; [apply firstn_le_length|].
  intros isoMonth u sd ed s.
  pose proof (getAnalyticsData_healthy isoMonth u sd ed s) as H.
  cbv zeta in H.
  destruct (monthMap_of isoMonth (analyticsSales u sd ed s)) as [mm|] eqn:Hm.
  - destruct H as (a & Hrun & _ & _ & _ & _ & Htop & _). rewrite Hrun.
    exact Htop.
  - rewrite H. destruct (monthMap_none _ _ _ Hm) as [Habs|Hex];
      [discriminate | exact Hex].
Qed.

Lemma topProducts_grouped_sorted_top5_witness :
  amounts_not_negative rounding_sales
  /\ revenues_are_numbers (product_entries rounding_sales)
  /\ StronglySorted (fun x y => (revenue y <=? revenue x)%float = true)
       (stable_sort revenue_before (product_entries rounding_sales)).
Proof.
  assert (Hpos : amounts_not_negative rounding_sales)
    by (repeat constructor).
  destruct (topProducts_grouped_sorted_top5 rounding_sales)
    as (_ & _ & _ & _ & Hsorted & Hnum & _).
  split; [exact Hpos|]. split; [exact (Hnum Hpos)|].
  exact (proj1 (Hsorted (Hnum Hpos))).
Defined.

(** C10: the date bound is applied only when both dates are given and
    neither is the empty string.  In every other case - one date missing,
    one date empty, or both - the call is the call without dates, whatever
    the world; and on a healthy engine what it returns is computed from
    every sale of the user's clients, each read once: the revenue is their
    sum, the average and the top products are theirs, the months are theirs
    and count each of them once, and the only error is the unparseable date
    of one of them. *)
Theorem getAnalyticsData_one_date_is_no_date :
  forall (isoMonth : string -> option string) (u : Z)
         (sd ed : option string),
    truthy_opt sd && truthy_opt ed = false ->
    (forall w : world,
       getAnalyticsData isoMonth u sd ed w
       = getAnalyticsData isoMonth u None None w)
    /\ forall s : store,
         let all := sales_of_user u s in
         (forall sale : Sale.t,
            In sale all
            <-> In sale (rows (Sales s))
                /\ exists c, In c (rows (Clients s))
                             /\ Client.id c = Sale.clientId sale
                             /\ Client.userId c = u)
         /\ (primary_keys s ->
             Permutation all
               (filter (fun sale =>
                          existsb (fun c =>
                                     (Client.id c =? Sale.clientId sale)
                                     && (Client.userId c =? u))
                                  (rows (Clients s)))
                       (rows (Sales s))))
         /\ match getAnalyticsData isoMonth u sd ed (healthy s) with
            | (Ok a, w') =>
                w' = healthy s
                /\ totalRevenue a = sum_amounts all
                /\ averageSaleAmount a = average_of all
                /\ topProducts a = topProducts_of all
                /\ (exists monthMap,
                      monthMap_of isoMonth all = Some monthMap
                      /\ salesByMonth a = salesByMonth_of monthMap)
                /\ list_sum (map month_count (salesByMonth a))
                   = List.length all
            | (Throw e, _) =>
                e = invalid_time_value
                /\ exists sale, In sale all /\ isoMonth (Sale.date sale) = None
            end.
Proof.
  intros isoMonth u sd ed Hone. split.
  { intro w. apply getAnalyticsData_unbounded, Hone. }
  intros s all. split; [apply sales_of_user_In|].
  split; [intros [Hkeys _]; apply sales_of_user_once, Hkeys|].
  pose proof (getAnalyticsData_healthy isoMonth u sd ed s) as H.
  cbv zeta in H. rewrite (analyticsSales_unbounded u sd ed s Hone) in H.
  fold all in H.
  destruct (monthMap_of isoMonth all) as [mm|] eqn:Hm.
  - destruct H as (a & Hrun & Htot & Havg & _ & _ & Htop & Hmonths).
    rewrite Hrun. split; [reflexivity|]. split; [exact Htot|].
    split; [exact Havg|]. split; [exact Htop|].
    split; [exists mm; split; [reflexivity | exact Hmonths]|].
    rewrite Hmonths. apply salesByMonth_counts with (isoMonth := isoMonth).
    exact Hm.
  - rewrite H. split; [reflexivity|].
    destruct (monthMap_none _ _ _ Hm) as [Habs|Hex];
      [discriminate | exact Hex].
Qed.

Lemma getAnalyticsData_one_date_is_no_date_witness :
  truthy_opt (Some "2025-03-05"%string) && truthy_opt None = false
  /\ getAnalyticsData iso_prefix 7 (Some "2025-03-05"%string) None
       (healthy demo_store)
     = getAnalyticsData iso_prefix 7 None None (healthy demo_store)
  /\ exists a,
       getAnalyticsData iso_prefix 7 (Some "2025-03-05"%string) None
         (healthy demo_store)
       = (Ok a, healthy demo_store)
       /\ totalRevenue a = sum_amounts (sales_of_user 7 demo_store)
       /\ totalRevenue a = 560%float.
Proof.
  split; [reflexivity|].
  destruct (getAnalyticsData_one_date_is_no_date iso_prefix 7
              (Some "2025-03-05"%string) None eq_refl) as [Hsame Hall].
  split; [apply Hsame|].
  destruct (Hall demo_store) as (_ & _ & Hres).
  destruct (getAnalyticsData iso_prefix 7 (Some "2025-03-05"%string) None
              (healthy demo_store)) as [[a|e] w'].
  - destruct Hres as (-> & Htot & _). exists a.
    split; [reflexivity|]. split; [exact Htot|]. rewrite Htot. reflexivity.
  - destruct Hres as (_ & sale & _ & Hnone). discriminate Hnone.
Defined.

(** ** The functions on concrete data *)

Example topProducts_demo :
  map (fun g => (product g, count g)) (topProducts_of demo_sales)
  = [("C", 1); ("A", 1); ("B", 2); ("F", 1); ("E", 1)]%string%nat.
Proof. reflexivity. Qed.

(** 0.1 + 0.2 + 0.3 and 0.3 + 0.2 + 0.1 are different doubles: [A], sold
    last, comes first. *)
Example topProducts_rounding_demo :
  map (fun g => (product g, revenue g)) (topProducts_of rounding_sales)
  = [("A"%string, 0.6000000000000001%float); ("B"%string, 0.6%float)].
Proof. reflexivity. Qed.

(** 2^53 + 1 is 2^53: the two products tie and [B], sold first, stays
    first. *)
Example topProducts_absorbed_demo :
  map (fun g => (product g, revenue g)) (topProducts_of absorbed_sales)
  = [("B"%string, 9007199254740992%float);
     ("A"%string, 9007199254740992%float)].
Proof. reflexivity. Qed.

(** Infinite amounts of opposite sign add up to NaN, and NaN is not ordered:
    the comparator lets [A] stand before [N] and [N] before [B] but not [A]
    before [B], and no arrangement of the three groups is descending. *)
Example nan_revenue_is_not_ordered :
  exists a n b : product_stat,
    product_entries unbounded_sales = [a; n; b]
    /\ is_nan (revenue n) = true
    /\ revenue_before a n = true /\ revenue_before n b = true
    /\ revenue_before a b = false
    /\ forall l : list product_stat,
         Permutation l [a; n; b] ->
         ~ StronglySorted (fun x y => (revenue y <=? revenue x)%float = true) l.
Proof.
  do 3 eexists. split; [reflexivity|]. do 4 (split; [reflexivity|]).
  intros l Hperm Hsorted.
  assert (Hn : In (mkProductStat "N" 2 nan) l).
  { apply (Permutation_in _ (Permutation_sym Hperm)). right. left.
    reflexivity. }
  assert (Hlen : List.length l = 3%nat)
    by (rewrite (Permutation_length Hperm); reflexivity).
  apply in_split in Hn. destruct Hn as (l1 & l2 & ->).
  destruct l1 as [|x l1].
  - destruct l2 as [|y l2]; [discriminate Hlen|].
    inversion Hsorted as [|? ? _ Hall]; subst.
    inversion Hall as [|? ? Hy _]; subst. simpl in Hy.
    assert (E : (revenue y <=? nan)%float = false).
    { rewrite leb_spec. change (Prim2SF nan) with S754_nan.
      destruct (Prim2SF (revenue y)); reflexivity. }
    congruence.
  - inversion Hsorted as [|? ? _ Hall]; subst.
    apply Forall_app in Hall. destruct Hall as [_ Hall].
    inversion Hall as [|? ? Hy _]; subst.
    destruct x as [px cx rx]. simpl in Hy.
    assert (E : (nan <=? rx)%float = false).
    { rewrite leb_spec. reflexivity. }
    congruence.
Qed.

Example analytics_demo :
  exists a,
    getAnalyticsData iso_prefix 7 None None (healthy demo_store)
    = (Ok a, healthy demo_store)
    /\ totalRevenue a = 560%float
    /\ averageSaleAmount a = 80%float
    /\ conversionRate a = 50%float
    /\ map product (topProducts a) = ["C"; "A"; "B"; "F"; "E"]%string
    /\ map month (salesByMonth a) = ["2025-03"%string].
Proof.
  eexists. split; [cbv; reflexivity|]. repeat split; reflexivity.
Qed.

Example analytics_rounding_demo :
  exists a,
    getAnalyticsData iso_prefix 7 None None (healthy rounding_store)
    = (Ok a, healthy rounding_store)
    /\ totalRevenue a = 1.2%float
    /\ averageSaleAmount a = 0.19999999999999998%float
    /\ map product (topProducts a) = ["A"; "B"]%string.
Proof.
  eexists. split; [cbv; reflexivity|]. repeat split; reflexivity.
Qed.

Example analytics_empty_date_demo :
  getAnalyticsData iso_prefix 7 (Some EmptyString) (Some "2025-03-05"%string)
    (healthy demo_store)
  = getAnalyticsData iso_prefix 7 None None (healthy demo_store).
Proof. apply getAnalyticsData_unbounded. reflexivity. Qed.

Example analytics_bounded_demo :
  exists a,
    getAnalyticsData iso_prefix 7 (Some "2025-03-05"%string)
      (Some "2025-03-07"%string) (healthy demo_store)
    = (Ok a, healthy demo_store)
    /\ totalRevenue a = 360%float
    /\ map product (topProducts a) = ["C"; "B"; "D"]%string.
Proof.
  eexists. split; [cbv; reflexivity|]. repeat split; reflexivity.
Qed.

Example analytics_of_nobody :
  exists a,
    getAnalyticsData (fun _ => None) 9 None None (healthy demo_store)
    = (Ok a, healthy demo_store)
    /\ averageSaleAmount a = 0%float /\ conversionRate a = 0%float
    /\ topProducts a = [].
Proof.
  eexists. split; [cbv; reflexivity|]. repeat split; reflexivity.
Qed.

Example first_call_creates_row_and_followUp :
  exists pn cl s',
    recordNewCall "2025-02-01T10:05:00.000Z"%string 7
      (mkCallData "0700111222"%string lead_call) (healthy empty_store)
    = (Ok (pn, cl), healthy s')
    /\ rows (PhoneNumbers s')
       = [PhoneNumber.mk 1 7 "0700111222"%string
            "2025-02-01T10:00:00.000Z"%string false None]
    /\ rows (FollowUps s')
       = [FollowUp.mk 1 1 FollowUp.phoneNumber "2030-01-01"%string
            "Follow-up call for 0700111222"%string false
            "2025-02-01T10:05:00.000Z"%string].
Proof. do 3 eexists. split; [cbv; reflexivity|]. split; reflexivity. Qed.

Example call_then_convert :
  exists pn cl s1 p s2,
    recordNewCall "2025-02-01T10:05:00.000Z"%string 7
      (mkCallData "0700111222"%string lead_call) (healthy empty_store)
    = (Ok (pn, cl), healthy s1)
    /\ convertPhoneNumberToProspect (PhoneNumber.id pn) a_prospect
         (healthy s1)
       = (Ok p, healthy s2)
    /\ Prospect.phone p = "0700111222"%string
    /\ map PhoneNumber.isProspect (rows (PhoneNumbers s2)) = [true]
    /\ map FollowUp.isCompleted (rows (FollowUps s2)) = [true].
Proof.
  do 5 eexists. split; [cbv; reflexivity|]. split; [cbv; reflexivity|].
  repeat split; reflexivity.
Qed.

Lemma recordNewCall_twice_one_phone_row_witness :
  unique_phone store_with_phones
  /\ exists pn1 cl1 s1 pn2 cl2 s2,
       recordNewCall "t1"%string 7
         (mkCallData "0700111222"%string lead_call)
         (healthy store_with_phones)
       = (Ok (pn1, cl1), healthy s1)
       /\ recordNewCall "t2"%string 7
            (mkCallData "0700111222"%string later_call) (healthy s1)
          = (Ok (pn2, cl2), healthy s2)
       /\ select (same_phone 7 "0700111222"%string) (PhoneNumbers s2) = [pn2]
       /\ PhoneNumber.lastCalledDate pn2 = ld_date later_call
       /\ PhoneNumber.id pn2 = PhoneNumber.id pn1
       /\ List.length (rows (PhoneNumbers s2))
          = List.length (rows (PhoneNumbers s1))
       /\ rows (CallLogs s2) = rows (CallLogs store_with_phones) ++ [cl1; cl2]
       /\ CallLog.phoneNumberId cl1 = PhoneNumber.id pn2
       /\ CallLog.phoneNumberId cl2 = PhoneNumber.id pn2
       /\ CallLog.date cl2 = ld_date later_call.
Proof.
  assert (H : unique_phone store_with_phones).
  { unfold unique_phone. simpl. constructor.
    - intros [E|[]]. discriminate E.
    - constructor; [intros [] | constructor]. }
  split; [exact H|].
  apply (recordNewCall_twice_one_phone_row "t1"%string "t2"%string 7
           "0700111222"%string lead_call later_call store_with_phones H).
Defined.

(** ** Rules for triples *)

Lemma hoare_ret :
  forall (A : Type) (P : store -> Prop) (a : A) (Q : A -> store -> Prop)
         (E : store -> Prop),
    (forall s, P s -> Q a s) -> hoare P (ret a) Q E.
Proof.
  intros A P a Q E H s plan HP. simpl. exists s. split; [reflexivity|].
  apply H, HP.
Qed.

Lemma hoare_throw :
  forall (A : Type) (P : store -> Prop) (msg : string)
         (Q : A -> store -> Prop) (E : store -> Prop),
    (forall s, P s -> E s) -> hoare P (throw msg) Q E.
Proof.
  intros A P msg Q E H s plan HP. simpl. exists s. split; [reflexivity|].
  apply H, HP.
Qed.

Lemma hoare_bind :
  forall (A B : Type) (P : store -> Prop) (m : DB A)
         (Q : A -> store -> Prop) (k : A -> DB B) (R : B -> store -> Prop)
         (E : store -> Prop),
    hoare P m Q E -> (forall a, hoare (Q a) (k a) R E) ->
    hoare P (bind m k) R E.
Proof.
  intros A B P m Q k R E Hm Hk s plan HP. unfold bind.
  specialize (Hm s plan HP).
  destruct (m (mkWorld (Some s) plan)) as [[a|e] [d f]].
  - destruct Hm as [s' [Hdb HQ]]. simpl in Hdb. rewrite Hdb.
    apply (Hk a s' f HQ).
  - exact Hm.
Qed.

Lemma hoare_consequence :
  forall (A : Type) (P P' : store -> Prop) (m : DB A)
         (Q Q' : A -> store -> Prop) (E : store -> Prop),
    (forall s, P' s -> P s) -> hoare P m Q E ->
    (forall a s, Q a s -> Q' a s) -> hoare P' m Q' E.
Proof.
  intros A P P' m Q Q' E Hpre Hm Hpost s plan HP.
  specialize (Hm s plan (Hpre s HP)).
  destruct (m (mkWorld (Some s) plan)) as [[a|e] w']; [|exact Hm].
  destruct Hm as [s' [Hdb HQ]]. exists s'. split; [exact Hdb|].
  apply Hpost, HQ.
Qed.

Lemma hoare_require_db :
  forall (P E : store -> Prop), hoare P require_db (fun _ => P) E.
Proof.
  intros P E s plan HP. simpl. exists s. split; [reflexivity | exact HP].
Qed.

Lemma hoare_statement :
  forall (A : Type) (P : store -> Prop) (run : store -> outcome (A * store))
         (Q : A -> store -> Prop) (E : store -> Prop),
    (forall s, P s -> E s) ->
    (forall s a s', P s -> run s = Ok (a, s') -> Q a s') ->
    hoare P (statement run) Q E.
Proof.
  intros A P run Q E HE HQ s plan HP. unfold statement. simpl.
  destruct (hd false plan).
  - exists s. split; [reflexivity|]. apply HE, HP.
  - destruct (run s) as [[a s']|e] eqn:Hrun.
    + exists s'. split; [reflexivity|]. eapply HQ; eassumption.
    + exists s. split; [reflexivity|]. apply HE, HP.
Qed.

(** A guarded sequence: [require_db] first, then the body. *)
Lemma hoare_guarded :
  forall (A : Type) (P : store -> Prop) (m : DB A) (Q : A -> store -> Prop)
         (E : store -> Prop),
    hoare P m Q E -> hoare P (require_db ;;; m) Q E.
Proof.
  intros A P m Q E Hm. eapply hoare_bind; [apply hoare_require_db|].
  intros u. exact Hm.
Qed.

(** A write that always succeeds on the engine's side. *)
Lemma hoare_write :
  forall (P : store -> Prop) (f : store -> store) (Q : Z -> store -> Prop)
         (E : store -> Prop),
    (forall s, P s -> E s) -> (forall s, P s -> Q 0 (f s)) ->
    hoare P (runAsync (fun s => Ok (0, f s))) Q E.
Proof.
  intros P f Q E HE HQ. apply hoare_statement; [exact HE|].
  intros s a s' HP Hrun. injection Hrun as <- <-. apply HQ, HP.
Qed.

(** ** Rules for invariants *)

Lemma keeps_ret :
  forall (A : Type) (I : store -> Prop) (a : A), keeps I (ret a).
Proof. intros A I a. apply hoare_ret. auto. Qed.

Lemma keeps_throw :
  forall (A : Type) (I : store -> Prop) (msg : string),
    keeps I (@throw A msg).
Proof. intros A I msg. apply hoare_throw. auto. Qed.

Lemma keeps_require_db : forall I : store -> Prop, keeps I require_db.
Proof. intro I. apply hoare_require_db. Qed.

Lemma keeps_bind :
  forall (A B : Type) (I : store -> Prop) (m : DB A) (k : A -> DB B),
    keeps I m -> (forall a, keeps I (k a)) -> keeps I (bind m k).
Proof. intros A B I m k Hm Hk. eapply hoare_bind; [exact Hm | exact Hk]. Qed.

Lemma keeps_statement :
  forall (A : Type) (I : store -> Prop) (run : store -> outcome (A * store)),
    (forall s a s', I s -> run s = Ok (a, s') -> I s') ->
    keeps I (statement run).
Proof. intros A I run H. apply hoare_statement; [auto | exact H]. Qed.

(** Splits a function of the file into the statements it sends. *)
Ltac keeps_steps :=
  unfold getFirstAsync, getAllAsync, runAsync; cbv zeta;
  repeat first
    [ apply keeps_require_db
    | apply keeps_ret
    | apply keeps_throw
    | apply keeps_bind; [|intro]
    | apply keeps_statement
    | match goal with
      | |- keeps _ (match ?x with _ => _ end) => destruct x
      end ].

(** ** Keys under the three kinds of write *)

Lemma keys_after_insert :
  forall (A : Type) (rowid : A -> Z) (t : table A) (r : A),
    rowid r = next_rowid rowid t ->
    NoDup (map rowid (rows t)) ->
    NoDup (map rowid (rows t ++ [r])).
Proof.
  intros A rowid t r Hid Hnd. rewrite map_app. simpl.
  apply NoDup_app; [exact Hnd | repeat constructor; intros [] |].
  intros i Hin [Heq|[]]. subst i. apply in_map_iff in Hin.
  destruct Hin as [x [Hx Hin]].
  apply (next_rowid_fresh _ rowid) in Hin. lia.
Qed.

Lemma keys_after_update :
  forall (A : Type) (rowid : A -> Z) (where_ : A -> bool) (set_ : A -> A)
         (l : list A),
    (forall r, rowid (set_ r) = rowid r) ->
    map rowid (map (fun r => if where_ r then set_ r else r) l)
    = map rowid l.
Proof.
  intros A rowid where_ set_ l Hid. rewrite map_map.
  apply map_ext. intro r. destruct (where_ r); [apply Hid | reflexivity].
Qed.

Lemma keys_after_delete :
  forall (A : Type) (rowid : A -> Z) (where_ : A -> bool) (l : list A),
    NoDup (map rowid l) ->
    NoDup (map rowid (filter (fun r => negb (where_ r)) l)).
Proof.
  intros A rowid where_ l.
  induction l as [|r l IH]; intro Hnd; [constructor|].
  simpl in Hnd. inversion Hnd as [|k ks Hnotin Hnd']; subst.
  simpl. destruct (where_ r); simpl; [apply IH, Hnd'|].
  constructor; [|apply IH, Hnd'].
  intro Hin. apply Hnotin. apply in_map_iff in Hin.
  destruct Hin as [x [Hx Hin]]. apply filter_In in Hin.
  apply in_map_iff. exists x. tauto.
Qed.

Lemma client_sets_keep_id :
  forall (sets : list (client_column * string)) (c : Client.t),
    Client.id (apply_client_sets sets c) = Client.id c
    /\ Client.userId (apply_client_sets sets c) = Client.userId c.
Proof.
  unfold apply_client_sets. induction sets as [|[col v] l IH]; intro c.
  - split; reflexivity.
  - simpl. destruct (IH (set_client_column col v c)) as [H1 H2].
    rewrite H1, H2. destruct col; split; reflexivity.
Qed.

Lemma prospect_sets_keep_id :
  forall (sets : list prospect_set) (p : Prospect.t),
    Prospect.id (fold_left (fun p' a => apply_prospect_set a p') sets p)
    = Prospect.id p
    /\ Prospect.userId
         (fold_left (fun p' a => apply_prospect_set a p') sets p)
       = Prospect.userId p.
Proof.
  induction sets as [|a l IH]; intro p.
  - split; reflexivity.
  - simpl. destruct (IH (apply_prospect_set a p)) as [H1 H2].
    rewrite H1, H2. destruct a; split; reflexivity.
Qed.

Lemma sale_sets_keep_id :
  forall (sets : list sale_set) (x : Sale.t),
    Sale.id (fold_left (fun x' a => apply_sale_set a x') sets x) = Sale.id x
    /\ Sale.clientId (fold_left (fun x' a => apply_sale_set a x') sets x)
       = Sale.clientId x.
Proof.
  induction sets as [|a l IH]; intro x.
  - split; reflexivity.
  - simpl. destruct (IH (apply_sale_set a x)) as [H1 H2].
    rewrite H1, H2. destruct a; split; reflexivity.
Qed.

Lemma followUp_sets_keep_binding :
  forall (sets : list followUp_set) (f : FollowUp.t),
    let f' := fold_left (fun f' a => apply_followUp_set a f') sets f in
    FollowUp.id f' = FollowUp.id f
    /\ FollowUp.entityId f' = FollowUp.entityId f
    /\ FollowUp.entityType f' = FollowUp.entityType f
    /\ FollowUp.isCompleted f' = FollowUp.isCompleted f
    /\ FollowUp.createdAt f' = FollowUp.createdAt f.
Proof.
  induction sets as [|a l IH]; intro f.
  - repeat split; reflexivity.
  - simpl. destruct (IH (apply_followUp_set a f)) as (H1 & H2 & H3 & H4 & H5).
    rewrite H1, H2, H3, H4, H5. destruct a; repeat split; reflexivity.
Qed.

(** Closes one statement of a function for [primary_keys]. *)
Ltac keys_statement :=
  let s := fresh "s" in
  let a := fresh "a" in
  let s' := fresh "s'" in
  let HI := fresh "HI" in
  let Hrun := fresh "Hrun" in
  intros s a s' HI Hrun;
  unfold insert_client, insert_sale, insert_prospect, insert_followUp,
    insert_callLog, insert_phoneNumber, insert_row in Hrun;
  try match type of Hrun with
      | (if ?b then _ else _) = _ => destruct b; [discriminate|]
      end;
  injection Hrun as <- <-;
  unfold primary_keys in *; simpl;
  destruct HI as (K1 & K2 & K3 & K4 & K5 & K6);
  repeat split; try assumption;
  first
    [ apply keys_after_insert; [reflexivity | assumption]
    | apply keys_after_delete; assumption
    | rewrite keys_after_update; [assumption|]; intro;
      first [ reflexivity
            | apply client_sets_keep_id
            | apply prospect_sets_keep_id
            | apply sale_sets_keep_id
            | apply followUp_sets_keep_binding ] ].

(** ** Invariants of the tables *)

(** X1: whatever statement the engine rejects, no modelled write ever makes
    two rows of a table share their id. *)
Theorem writes_keep_primary_keys :
  (forall u c, keeps primary_keys (addClient u c))
  /\ (forall i upd, keeps primary_keys (updateClient i upd))
  /\ (forall i, keeps primary_keys (deleteClient i))
  /\ (forall u p, keeps primary_keys (addProspect u p))
  /\ (forall i st, keeps primary_keys (updateProspectStatus i st))
  /\ (forall i upd, keeps primary_keys (updateProspect i upd))
  /\ (forall i, keeps primary_keys (deleteProspect i))
  /\ (forall x, keeps primary_keys (addSale x))
  /\ (forall i upd, keeps primary_keys (updateSale i upd))
  /\ (forall i, keeps primary_keys (deleteSale i))
  /\ (forall i sd,
        keeps primary_keys (convertProspectToClientAndRecordSale i sd))
  /\ (forall now f, keeps primary_keys (addFollowUp now f))
  /\ (forall i, keeps primary_keys (completeFollowUp i))
  /\ (forall i upd, keeps primary_keys (updateFollowUp i upd))
  /\ (forall i, keeps primary_keys (deleteFollowUp i))
  /\ (forall now u cd, keeps primary_keys (recordNewCall now u cd))
  /\ (forall i, keeps primary_keys (deleteCallLog i))
  /\ (forall i pd, keeps primary_keys (convertPhoneNumberToProspect i pd)).
Proof.
  repeat split; intros.
  - unfold addClient. keeps_steps. keys_statement.
  - unfold updateClient. keeps_steps. keys_statement.
  - unfold deleteClient. keeps_steps; keys_statement.
  - unfold addProspect. keeps_steps. keys_statement.
  - unfold updateProspectStatus. keeps_steps. keys_statement.
  - unfold updateProspect. keeps_steps. keys_statement.
  - unfold deleteProspect. keeps_steps; keys_statement.
  - unfold addSale. keeps_steps. keys_statement.
  - unfold updateSale. keeps_steps. keys_statement.
  - unfold deleteSale. keeps_steps. keys_statement.
  - unfold convertProspectToClientAndRecordSale. keeps_steps;
      keys_statement.
  - unfold addFollowUp. keeps_steps. keys_statement.
  - unfold completeFollowUp. keeps_steps. keys_statement.
  - unfold updateFollowUp. keeps_steps. keys_statement.
  - unfold deleteFollowUp. keeps_steps. keys_statement.
  - unfold recordNewCall. keeps_steps; keys_statement.
  - unfold deleteCallLog. keeps_steps. keys_statement.
  - unfold convertPhoneNumberToProspect. keeps_steps; keys_statement.
Qed.

(** ** Phone numbers and their call logs *)

Lemma phone_keys_after_update :
  forall (where_ : PhoneNumber.t -> bool) (set_ : PhoneNumber.t -> PhoneNumber.t)
         (l : list PhoneNumber.t),
    (forall r, PhoneNumber.userId (set_ r) = PhoneNumber.userId r
               /\ PhoneNumber.number (set_ r) = PhoneNumber.number r) ->
    map (fun p => (PhoneNumber.userId p, PhoneNumber.number p))
        (map (fun r => if where_ r then set_ r else r) l)
    = map (fun p => (PhoneNumber.userId p, PhoneNumber.number p)) l.
Proof.
  intros where_ set_ l H. rewrite map_map. apply map_ext. intro r.
  destruct (where_ r); [|reflexivity]. destruct (H r) as [-> ->].
  reflexivity.
Qed.

Lemma unique_phone_after_insert :
  forall (u : Z) (n : string) (l : list PhoneNumber.t) (r : PhoneNumber.t),
    existsb (same_phone u n) l = false ->
    PhoneNumber.userId r = u -> PhoneNumber.number r = n ->
    NoDup (map (fun p => (PhoneNumber.userId p, PhoneNumber.number p)) l) ->
    NoDup (map (fun p => (PhoneNumber.userId p, PhoneNumber.number p))
               (l ++ [r])).
Proof.
  intros u n l r Hex Hu Hn Hnd. rewrite map_app. simpl. rewrite Hu, Hn.
  apply NoDup_app; [exact Hnd | repeat constructor; intros [] |].
  intros k Hin [Heq|[]]. subst k. apply in_map_iff in Hin.
  destruct Hin as [x [Hx Hin]]. apply same_phone_iff in Hx.
  assert (Hsome : existsb (same_phone u n) l = true).
  { apply existsb_exists. exists x. split; assumption. }
  congruence.
Qed.

Lemma phones_survive_update :
  forall (where_ : PhoneNumber.t -> bool) (set_ : PhoneNumber.t -> PhoneNumber.t)
         (l : list PhoneNumber.t) (i : Z),
    (forall r, PhoneNumber.id (set_ r) = PhoneNumber.id r) ->
    (exists p, In p l /\ PhoneNumber.id p = i) ->
    exists p, In p (map (fun r => if where_ r then set_ r else r) l)
              /\ PhoneNumber.id p = i.
Proof.
  intros where_ set_ l i Hid [p [Hin Hp]].
  exists (if where_ p then set_ p else p). split.
  - apply in_map_iff. exists p. split; [reflexivity | exact Hin].
  - destruct (where_ p); [rewrite Hid|]; exact Hp.
Qed.

(** X2: under every fault plan, [recordNewCall] and
    [convertPhoneNumberToProspect] keep [UNIQUE(userId, number)] and leave
    no call log without its phone number: the phone row is written before
    the log that points to it. *)
Theorem calls_keep_their_phone_numbers :
  (forall now u callData,
     keeps (fun s => unique_phone s /\ logs_have_phones s)
           (recordNewCall now u callData))
  /\ (forall i prospectData,
        keeps (fun s => unique_phone s /\ logs_have_phones s)
              (convertPhoneNumberToProspect i prospectData)).
Proof.
  split.
  - intros now u callData. unfold keeps, recordNewCall.
    apply hoare_guarded. cbv zeta.
    eapply hoare_bind with
      (Q := fun found s =>
              (unique_phone s /\ logs_have_phones s)
              /\ forall x, found = Some x -> In x (rows (PhoneNumbers s))).
    { unfold getFirstAsync. apply hoare_statement; [auto|].
      intros s a s' HJ Hrun. injection Hrun as <- <-.
      split; [exact HJ|]. intros x Hx. apply hd_error_In in Hx.
      apply filter_In in Hx. tauto. }
    intro found.
    eapply hoare_bind with
      (Q := fun pn s =>
              (unique_phone s /\ logs_have_phones s)
              /\ exists p, In p (rows (PhoneNumbers s))
                           /\ PhoneNumber.id p = PhoneNumber.id pn).
    { destruct found as [x|].
      - eapply hoare_bind with
          (Q := fun _ s =>
                  (unique_phone s /\ logs_have_phones s)
                  /\ exists p, In p (rows (PhoneNumbers s))
                               /\ PhoneNumber.id p = PhoneNumber.id x).
        + apply hoare_write; [tauto|].
          intros s [[Hu Hl] Hx]. specialize (Hx x eq_refl).
          split; [split|].
          * unfold unique_phone. simpl.
            rewrite phone_keys_after_update; [exact Hu|].
            intro r. split; reflexivity.
          * intros l Hin. simpl. apply phones_survive_update;
              [reflexivity | apply Hl, Hin].
          * simpl. apply phones_survive_update; [reflexivity|].
            exists x. split; [exact Hx | reflexivity].
        + intro z. apply hoare_ret. auto.
      - eapply hoare_bind with
          (Q := fun rowId s =>
                  (unique_phone s /\ logs_have_phones s)
                  /\ exists p, In p (rows (PhoneNumbers s))
                               /\ PhoneNumber.id p = rowId).
        + unfold runAsync. apply hoare_statement; [tauto|].
          intros s a s' [[Hu Hl] _] Hrun. unfold insert_phoneNumber in Hrun.
          destruct (existsb _ _) eqn:Hex; [discriminate|].
          unfold insert_row in Hrun. injection Hrun as <- <-.
          split; [split|].
          * unfold unique_phone. simpl.
            eapply unique_phone_after_insert;
              [exact Hex | reflexivity | reflexivity | exact Hu].
          * intros l Hin. simpl. destruct (Hl l Hin) as [p [Hp Hid]].
            exists p. split; [apply in_or_app; left; exact Hp | exact Hid].
          * simpl. eexists. split;
              [apply in_or_app; right; left; reflexivity | reflexivity].
        + intro rowId. apply hoare_ret. auto. }
    intro pn.
    eapply hoare_bind with
      (Q := fun _ s => unique_phone s /\ logs_have_phones s).
    { unfold runAsync. apply hoare_statement; [tauto|].
      intros s a s' [[Hu Hl] Hp] Hrun.
      unfold insert_callLog, insert_row in Hrun. injection Hrun as <- <-.
      split; [exact Hu|]. intros l Hin. simpl in Hin.
      apply in_app_or in Hin. destruct Hin as [Hin|[<-|[]]].
      - apply Hl, Hin.
      - exact Hp. }
    intro logRowId.
    assert (Hfollow : forall mkrow : Z -> FollowUp.t,
              hoare (fun s => unique_phone s /\ logs_have_phones s)
                (runAsync (insert_followUp mkrow))
                (fun _ s => unique_phone s /\ logs_have_phones s)
                (fun s => unique_phone s /\ logs_have_phones s)).
    { intro mkrow. unfold runAsync. apply hoare_statement; [auto|].
      intros s a s' HJ Hrun. unfold insert_followUp, insert_row in Hrun.
      injection Hrun as <- <-. exact HJ. }
    destruct (ld_nextFollowUpDate (cd_logData callData)) as [next|];
      [destruct (truthy next)|]; try (apply hoare_ret; auto).
    eapply hoare_bind; [apply Hfollow|]. intro z. apply hoare_ret. auto.
  - intros i prospectData. unfold convertPhoneNumberToProspect.
    keeps_steps.
    + intros s res s' HJ Hrun. injection Hrun as <- <-. exact HJ.
    + intros s res s' HJ Hrun. unfold insert_prospect, insert_row in Hrun.
      injection Hrun as <- <-. exact HJ.
    + intros s res s' [Hu Hl] Hrun. injection Hrun as <- <-. split.
      * unfold unique_phone. simpl.
        rewrite phone_keys_after_update; [exact Hu|].
        intro r. split; reflexivity.
      * intros l Hin. simpl. apply phones_survive_update;
          [reflexivity | apply Hl, Hin].
    + intros s res s' HJ Hrun. injection Hrun as <- <-. exact HJ.
Qed.

(** ** Sales and their clients *)

(** X3: under every fault plan, converting a prospect and deleting a client
    leave no sale without its client: the conversion inserts the client
    before the sale, the deletion removes the sales before the client. *)
Theorem sales_keep_their_clients :
  (forall prospectId saleData,
     keeps sales_have_clients
           (convertProspectToClientAndRecordSale prospectId saleData))
  /\ (forall clientId, keeps sales_have_clients (deleteClient clientId)).
Proof.
  split.
  - intros prospectId saleData.
    unfold keeps, convertProspectToClientAndRecordSale.
    apply hoare_guarded.
    eapply hoare_bind with (Q := fun _ s => sales_have_clients s).
    { unfold getFirstAsync. apply hoare_statement; [auto|].
      intros s a s' HI Hrun. injection Hrun as <- <-. exact HI. }
    intros [prospect|]; [|apply hoare_throw; auto]. cbv zeta.
    eapply hoare_bind with
      (Q := fun rowId s =>
              sales_have_clients s
              /\ exists c, In c (rows (Clients s)) /\ Client.id c = rowId).
    { unfold runAsync. apply hoare_statement; [auto|].
      intros s a s' HI Hrun. unfold insert_client, insert_row in Hrun.
      injection Hrun as <- <-. split.
      - intros x Hx. simpl. destruct (HI x Hx) as [c [Hc Hid]].
        exists c. split; [apply in_or_app; left; exact Hc | exact Hid].
      - simpl. eexists. split;
          [apply in_or_app; right; left; reflexivity | reflexivity]. }
    intro clientRowId.
    eapply hoare_bind with (Q := fun _ s => sales_have_clients s).
    { unfold runAsync. apply hoare_statement; [tauto|].
      intros s a s' [HI Hc] Hrun. unfold insert_sale, insert_row in Hrun.
      injection Hrun as <- <-. intros x Hx. simpl in Hx.
      apply in_app_or in Hx. destruct Hx as [Hx|[<-|[]]].
      - apply HI, Hx.
      - exact Hc. }
    intro saleRowId.
    eapply hoare_bind with (Q := fun _ s => sales_have_clients s).
    { apply hoare_write; auto. }
    intro z. apply hoare_ret. auto.
  - intro clientId. unfold keeps, deleteClient. apply hoare_guarded.
    eapply hoare_bind with (Q := fun _ s => sales_have_clients s).
    { apply hoare_write; auto. }
    intro z1.
    eapply hoare_bind with
      (Q := fun _ s =>
              sales_have_clients s
              /\ forall x, In x (rows (Sales s)) ->
                           Sale.clientId x <> clientId).
    { apply hoare_write; [auto|]. intros s HI. split.
      - intros x Hx. simpl in Hx. apply filter_In in Hx.
        apply HI. tauto.
      - intros x Hx. simpl in Hx. apply filter_In in Hx.
        destruct Hx as [_ Hx]. apply negb_true_iff, Z.eqb_neq in Hx.
        exact Hx. }
    intro z2.
    eapply hoare_bind with (Q := fun _ s => sales_have_clients s).
    { apply hoare_write; [tauto|]. intros s [HI Hno] x Hx. simpl in Hx.
      destruct (HI x Hx) as [c [Hc Hid]]. exists c. split; [|exact Hid].
      simpl. apply filter_In. split; [exact Hc|].
      apply negb_true_iff, Z.eqb_neq. rewrite Hid. apply Hno, Hx. }
    intro z3. apply hoare_ret. auto.
Qed.

(** ** The order on date and name strings *)

Lemma ascii_compare_refl : forall c : ascii, Ascii.compare c c = Eq.
Proof. intro c. unfold Ascii.compare. apply N.compare_refl. Qed.

Lemma string_compare_refl : forall a : string, String.compare a a = Eq.
Proof.
  induction a as [|c a IH]; simpl; [reflexivity|].
  rewrite ascii_compare_refl. exact IH.
Qed.

Lemma string_leb_refl : forall a : string, String.leb a a = true.
Proof. intro a. unfold String.leb. rewrite string_compare_refl. reflexivity. Qed.

Lemma string_leb_trans :
  forall a b c : string,
    String.leb a b = true -> String.leb b c = true -> String.leb a c = true.
Proof.
  unfold String.leb.
  induction a as [|x a IH]; intros [|y b] [|z c] H1 H2; simpl in *;
    try reflexivity; try discriminate.
  destruct (Ascii.compare x y) eqn:Exy; [| |discriminate];
    destruct (Ascii.compare y z) eqn:Eyz; try discriminate.
  - apply Ascii.compare_eq_iff in Exy, Eyz. subst y z.
    rewrite ascii_compare_refl. eapply IH; eassumption.
  - apply Ascii.compare_eq_iff in Exy. subst y. rewrite Eyz. reflexivity.
  - apply Ascii.compare_eq_iff in Eyz. subst z. rewrite Exy. reflexivity.
  - unfold Ascii.compare in *. rewrite N.compare_lt_iff in Exy, Eyz.
    assert (Hxz : (N_of_ascii x ?= N_of_ascii z)%N = Lt)
      by (apply N.compare_lt_iff; lia).
    rewrite Hxz. reflexivity.
Qed.

(** A string is below each of its proper extensions, never above one. *)
Lemma string_extension_above :
  forall d t : string,
    t <> EmptyString ->
    String.leb d (d ++ t) = true /\ String.leb (d ++ t) d = false.
Proof.
  unfold String.leb. induction d as [|c d IH]; intros t Ht; simpl.
  - destruct t; [contradiction | split; reflexivity].
  - rewrite ascii_compare_refl. apply IH, Ht.
Qed.

Lemma StronglySorted_filter :
  forall (A : Type) (R : A -> A -> Prop) (p : A -> bool) (l : list A),
    StronglySorted R l -> StronglySorted R (filter p l).
Proof.
  intros A R p l Hs. induction Hs as [|x l Hs IH Hall]; simpl.
  - constructor.
  - destruct (p x); [|exact IH]. constructor; [exact IH|].
    rewrite Forall_forall in *. intros y Hy. apply filter_In in Hy.
    apply Hall. tauto.
Qed.

Lemma StronglySorted_map :
  forall (A B : Type) (R : B -> B -> Prop) (f : A -> B) (l : list A),
    StronglySorted (fun a b => R (f a) (f b)) l -> StronglySorted R (map f l).
Proof.
  intros A B R f l Hs. induction Hs as [|x l Hs IH Hall]; simpl.
  - constructor.
  - constructor; [exact IH|]. rewrite Forall_forall in *.
    intros y Hy. apply in_map_iff in Hy. destruct Hy as [a [<- Ha]].
    apply Hall, Ha.
Qed.

(** Sorting on a string key, ascending or descending. *)
Lemma sorted_by_key :
  forall (A : Type) (key : A -> string) (l : list A),
    StronglySorted (fun a b => String.leb (key a) (key b) = true)
      (stable_sort (fun a b => String.leb (key a) (key b)) l)
    /\ StronglySorted (fun a b => String.leb (key b) (key a) = true)
         (stable_sort (fun a b => String.leb (key b) (key a)) l).
Proof.
  intros A key l. split; apply stable_sort_sorted.
  - intros a b. apply String.leb_total.
  - intros a b c. apply string_leb_trans.
  - intros a b. apply String.leb_total.
  - intros a b c H1 H2. eapply string_leb_trans; eassumption.
Qed.

(** ** Adding and deleting clients *)

Lemma select_fresh_row :
  forall (A : Type) (rowid : A -> Z) (t : table A) (r : A),
    rowid r = next_rowid rowid t ->
    filter (fun x => rowid x =? next_rowid rowid t) (rows t ++ [r]) = [r].
Proof.
  intros A rowid t r Hid. rewrite filter_app. simpl. rewrite Hid, Z.eqb_refl.
  rewrite filter_nil_iff_absent; [reflexivity|].
  intros x Hx. apply Z.eqb_neq.
  apply (next_rowid_fresh _ rowid) in Hx. lia.
Qed.

(** X4: on a healthy engine [addClient] returns the client it stored, owned
    by the given user, with the given fields and an id above every id of
    the table; [getClientById] on that id then returns this very client. *)
Theorem addClient_then_getClientById :
  forall (u : Z) (c : client_fields) (s : store),
    exists cl s',
      addClient u c (healthy s) = (Ok cl, healthy s')
      /\ cl = Client.mk (Client.id cl) u (cf_name c) (cf_phone c)
                (cf_email c) (cf_company c) (cf_industry c)
      /\ (forall r, In r (rows (Clients s)) -> Client.id r < Client.id cl)
      /\ rows (Clients s') = rows (Clients s) ++ [cl]
      /\ getClientById (Client.id cl) (healthy s')
         = (Ok (Some cl), healthy s').
Proof.
  intros u c s. unfold addClient. run_db. do 2 eexists.
  split; [reflexivity|]. simpl. split; [reflexivity|]. split.
  { intros r Hr. apply (next_rowid_fresh _ Client.id) in Hr. exact Hr. }
  split; [reflexivity|].
  unfold getClientById. run_db. unfold select. simpl.
  rewrite (select_fresh_row _ Client.id (Clients s)); reflexivity.
Qed.

(** X5: an id is never given twice.  A client is added and deleted; the
    client added next gets a larger id, and the old id now finds nothing. *)
Theorem client_ids_are_not_reused :
  forall (u u' : Z) (c c' : client_fields) (s : store),
    exists cl s1 s2 cl' s3,
      addClient u c (healthy s) = (Ok cl, healthy s1)
      /\ deleteClient (Client.id cl) (healthy s1) = (Ok tt, healthy s2)
      /\ addClient u' c' (healthy s2) = (Ok cl', healthy s3)
      /\ Client.id cl < Client.id cl'
      /\ getClientById (Client.id cl) (healthy s3) = (Ok None, healthy s3).
Proof.
  intros u u' c c' s. unfold addClient, deleteClient. run_db.
  do 5 eexists. split; [reflexivity|]. split; [reflexivity|].
  split; [reflexivity|]. simpl. split.
  - set (i := next_rowid Client.id (Clients s)).
    unfold next_rowid. simpl. lia.
  - unfold getClientById. run_db. unfold select. simpl.
    rewrite filter_nil_iff_absent; [reflexivity|].
    intros x Hx. apply in_app_or in Hx. destruct Hx as [Hx|[<-|[]]].
    + apply filter_In in Hx. destruct Hx as [_ Hx].
      apply negb_true_iff in Hx. exact Hx.
    + simpl. apply Z.eqb_neq.
      set (i := next_rowid Client.id (Clients s)).
      unfold next_rowid. simpl. lia.
Qed.

(** X6: on a healthy engine [deleteClient] removes the client, its sales and
    the follow-ups addressed to it as a client, and nothing else: the other
    clients and sales stay, and so does every follow-up of another entity,
    even one carrying the same number as a prospect or phone-number id.
    Lookups by that client id then find nothing. *)
Theorem deleteClient_cascades :
  forall (clientId : Z) (s : store),
    exists s',
      deleteClient clientId (healthy s) = (Ok tt, healthy s')
      /\ (forall c, In c (rows (Clients s')) <->
                    In c (rows (Clients s)) /\ Client.id c <> clientId)
      /\ (forall x, In x (rows (Sales s')) <->
                    In x (rows (Sales s)) /\ Sale.clientId x <> clientId)
      /\ (forall f, In f (rows (FollowUps s')) <->
                    In f (rows (FollowUps s))
                    /\ ~ (FollowUp.entityId f = clientId
                          /\ FollowUp.entityType f = FollowUp.client))
      /\ Prospects s' = Prospects s
      /\ PhoneNumbers s' = PhoneNumbers s
      /\ CallLogs s' = CallLogs s
      /\ getClientById clientId (healthy s') = (Ok None, healthy s')
      /\ getSalesByClient clientId (healthy s') = (Ok [], healthy s')
      /\ getFollowUpsByEntity clientId FollowUp.client (healthy s')
         = (Ok [], healthy s').
Proof.
  intros clientId s. unfold deleteClient. run_db. eexists.
  split; [reflexivity|]. simpl.
  assert (Hty : forall f, FollowUp.entity_eqb (FollowUp.entityType f)
                            FollowUp.client = true
                          <-> FollowUp.entityType f = FollowUp.client).
  { intro f. destruct (FollowUp.entityType f); simpl; split;
      intro H; try reflexivity; discriminate. }
  split.
  { intro c. rewrite filter_In, negb_true_iff, Z.eqb_neq. reflexivity. }
  split.
  { intro x. rewrite filter_In, negb_true_iff, Z.eqb_neq. reflexivity. }
  split.
  { intro f. rewrite filter_In, negb_true_iff, andb_false_iff.
    rewrite Z.eqb_neq, <- not_true_iff_false, Hty.
    split; intros [Hin H]; (split; [exact Hin|]).
    - intros [H1 H2]. destruct H; contradiction.
    - destruct (Z.eq_dec (FollowUp.entityId f) clientId) as [E|E];
        [right; intro H2; apply H; split; assumption | left; exact E]. }
  do 3 (split; [reflexivity|]).
  split; [|split].
  - unfold getClientById. run_db. unfold select. simpl.
    rewrite filter_nil_iff_absent; [reflexivity|].
    intros x Hx. apply filter_In in Hx. destruct Hx as [_ Hx].
    apply negb_true_iff in Hx. exact Hx.
  - unfold getSalesByClient. run_db. unfold select. simpl.
    rewrite filter_nil_iff_absent; [reflexivity|].
    intros x Hx. apply filter_In in Hx. destruct Hx as [_ Hx].
    apply negb_true_iff in Hx. exact Hx.
  - unfold getFollowUpsByEntity. run_db. unfold select. simpl.
    rewrite filter_nil_iff_absent; [reflexivity|].
    intros x Hx. apply filter_In in Hx. destruct Hx as [_ Hx].
    apply negb_true_iff in Hx. exact Hx.
Qed.

(** X7: [deleteClient] is not atomic either.  If the engine rejects its
    second statement, the deletion of the sales, the call throws with the
    client and its sales still there and the client's follow-ups gone. *)
Theorem deleteClient_is_not_atomic :
  forall (clientId : Z) (s : store),
    exists s',
      deleteClient clientId (mkWorld (Some s) [false; true])
      = (Throw engine_error, healthy s')
      /\ Clients s' = Clients s
      /\ Sales s' = Sales s
      /\ (forall f, In f (rows (FollowUps s')) ->
                    In f (rows (FollowUps s))
                    /\ ~ (FollowUp.entityId f = clientId
                          /\ FollowUp.entityType f = FollowUp.client))
      /\ (forall f, In f (rows (FollowUps s)) ->
                    FollowUp.entityId f = clientId ->
                    FollowUp.entityType f = FollowUp.client ->
                    ~ In f (rows (FollowUps s'))).
Proof.
  intros clientId s. unfold deleteClient. run_db. eexists.
  split; [reflexivity|]. simpl. do 2 (split; [reflexivity|]).
  assert (Hgone : forall f,
            In f (filter
                    (fun r => negb ((FollowUp.entityId r =? clientId)
                                    && FollowUp.entity_eqb
                                         (FollowUp.entityType r)
                                         FollowUp.client))
                    (rows (FollowUps s))) ->
            ~ (FollowUp.entityId f = clientId
               /\ FollowUp.entityType f = FollowUp.client)).
  { intros f Hf [H1 H2]. apply filter_In in Hf. destruct Hf as [_ Hf].
    rewrite H2 in Hf. apply Z.eqb_eq in H1. rewrite H1 in Hf.
    discriminate. }
  split.
  - intros f Hf. split; [|apply Hgone, Hf].
    apply filter_In in Hf. tauto.
  - intros f _ H1 H2 Hf. apply (Hgone f Hf). split; assumption.
Qed.

(** ** Deleting a prospect *)

(** X8: on a healthy engine [deleteProspect] removes the prospect and the
    follow-ups addressed to it as a prospect, and nothing else: clients and
    sales are untouched, so the client and the sale made by converting the
    prospect outlive it, and so are follow-ups of a client or phone number
    with the same number as id. *)
Theorem deleteProspect_cascades :
  forall (prospectId : Z) (s : store),
    exists s',
      deleteProspect prospectId (healthy s) = (Ok tt, healthy s')
      /\ (forall p, In p (rows (Prospects s')) <->
                    In p (rows (Prospects s)) /\ Prospect.id p <> prospectId)
      /\ (forall f, In f (rows (FollowUps s')) <->
                    In f (rows (FollowUps s))
                    /\ ~ (FollowUp.entityId f = prospectId
                          /\ FollowUp.entityType f = FollowUp.prospect))
      /\ Clients s' = Clients s
      /\ Sales s' = Sales s
      /\ PhoneNumbers s' = PhoneNumbers s
      /\ CallLogs s' = CallLogs s
      /\ getFollowUpsByEntity prospectId FollowUp.prospect (healthy s')
         = (Ok [], healthy s').
Proof.
  intros prospectId s. unfold deleteProspect. run_db. eexists.
  split; [reflexivity|]. simpl.
  assert (Hty : forall f, FollowUp.entity_eqb (FollowUp.entityType f)
                            FollowUp.prospect = true
                          <-> FollowUp.entityType f = FollowUp.prospect).
  { intro f. destruct (FollowUp.entityType f); simpl; split;
      intro H; try reflexivity; discriminate. }
  split.
  { intro p. rewrite filter_In, negb_true_iff, Z.eqb_neq. reflexivity. }
  split.
  { intro f. rewrite filter_In, negb_true_iff, andb_false_iff.
    rewrite Z.eqb_neq, <- not_true_iff_false, Hty.
    split; intros [Hin H]; (split; [exact Hin|]).
    - intros [H1 H2]. destruct H; contradiction.
    - destruct (Z.eq_dec (FollowUp.entityId f) prospectId) as [E|E];
        [right; intro H2; apply H; split; assumption | left; exact E]. }
  do 4 (split; [reflexivity|]).
  unfold getFollowUpsByEntity. run_db. unfold select. simpl.
  rewrite filter_nil_iff_absent; [reflexivity|].
  intros x Hx. apply filter_In in Hx. destruct Hx as [_ Hx].
  apply negb_true_iff in Hx. exact Hx.
Qed.

(** ** Partial updates *)

Lemma update_rows_absent :
  forall (A : Type) (where_ : A -> bool) (set_ : A -> A) (t : table A),
    (forall r, In r (rows t) -> where_ r = false) ->
    update_rows where_ set_ t = t.
Proof.
  intros A where_ set_ [l n] H. unfold update_rows. simpl in *.
  f_equal. rewrite <- (map_id l) at 2. apply map_ext_in.
  intros r Hr. rewrite (H r Hr). reflexivity.
Qed.

(** X9: [updateClient] on an id that no client has returns normally and
    leaves the store exactly as it was, whatever fields are supplied: the
    missing row is not reported. *)
Theorem updateClient_unknown_id_is_silent :
  forall (clientId : Z) (updates : client_updates) (s : store),
    (forall c, In c (rows (Clients s)) -> Client.id c <> clientId) ->
    updateClient clientId updates (healthy s) = (Ok tt, healthy s).
Proof.
  intros clientId updates s Habs. unfold updateClient. run_db.
  destruct (List.length (client_updateFields updates) =? 0)%nat;
    [reflexivity|]. simpl.
  rewrite update_rows_absent.
  - destruct s. reflexivity.
  - intros r Hr. apply Z.eqb_neq. apply Habs, Hr.
Qed.

Lemma updateClient_unknown_id_is_silent_witness :
  updateClient 5 (mkClientUpdates (Some "Robert"%string) None None None None)
    (healthy store_with_bob_client)
  = (Ok tt, healthy store_with_bob_client).
Proof.
  apply (updateClient_unknown_id_is_silent 5
           (mkClientUpdates (Some "Robert"%string) None None None None)
           store_with_bob_client).
  intros c [Hc|[]]. subst c. simpl. lia.
Defined.

Lemma patch_nothing :
  forall c : Client.t, patch_client no_client_updates c = c.
Proof. intros []. reflexivity. Qed.

(** X10: on a healthy engine [updateClient] writes the supplied fields over
    those of the rows with the given id and keeps every other field of
    them, [id] and [userId] included; rows with another id and the other
    tables are untouched.  An empty string is a supplied field. *)
Theorem updateClient_overwrites_supplied_fields :
  forall (clientId : Z) (updates : client_updates) (s : store),
    exists s',
      updateClient clientId updates (healthy s) = (Ok tt, healthy s')
      /\ rows (Clients s')
         = map (fun c => if Client.id c =? clientId
                         then patch_client updates c else c)
               (rows (Clients s))
      /\ Prospects s' = Prospects s /\ Sales s' = Sales s
      /\ FollowUps s' = FollowUps s /\ PhoneNumbers s' = PhoneNumbers s
      /\ CallLogs s' = CallLogs s.
Proof.
  intros clientId [[n|] [p|] [e|] [co|] [i|]] s;
    unfold updateClient; run_db; eexists;
    (split; [reflexivity|]); simpl;
    try (repeat split; reflexivity).
  split; [|repeat split; reflexivity].
  rewrite <- (map_id (rows (Clients s))) at 1. apply map_ext.
  intro c. destruct (Client.id c =? clientId); [|reflexivity].
  symmetry. apply patch_nothing.
Qed.

Lemma patch_followUp_nothing :
  forall (data : followUp_updates) (f : FollowUp.t),
    truthy_opt (fu_date data) = false -> truthy_opt (fu_notes data) = false ->
    patch_followUp data f = f.
Proof.
  intros [[d|] [n|]] [] Hd Hn; simpl in *; unfold patch_followUp; simpl;
    try rewrite Hd; try rewrite Hn; reflexivity.
Qed.

(** X11: on a healthy engine [updateFollowUp] can change [date] and [notes]
    of the rows with the given id and nothing else: the entity binding,
    [isCompleted] and [createdAt] stay.  The fields are tested for
    truthiness, so an empty string counts as absent: notes cannot be
    emptied, and a call carrying only empty or absent fields sends no
    statement at all. *)
Theorem updateFollowUp_changes_date_and_notes :
  forall (followUpId : Z) (data : followUp_updates) (s : store),
    (exists s',
       updateFollowUp followUpId data (healthy s) = (Ok tt, healthy s')
       /\ rows (FollowUps s')
          = map (fun f => if FollowUp.id f =? followUpId
                          then patch_followUp data f else f)
                (rows (FollowUps s))
       /\ Clients s' = Clients s /\ Prospects s' = Prospects s
       /\ Sales s' = Sales s /\ PhoneNumbers s' = PhoneNumbers s
       /\ CallLogs s' = CallLogs s)
    /\ (truthy_opt (fu_date data) = false ->
        truthy_opt (fu_notes data) = false ->
        forall plan,
          updateFollowUp followUpId data (mkWorld (Some s) plan)
          = (Ok tt, mkWorld (Some s) plan)).
Proof.
  intros followUpId data s. split.
  - assert (Hsame : truthy_opt (fu_date data) = false ->
                    truthy_opt (fu_notes data) = false ->
                    rows (FollowUps s)
                    = map (fun f => if FollowUp.id f =? followUpId
                                    then patch_followUp data f else f)
                          (rows (FollowUps s))).
    { intros Hd Hn. rewrite <- (map_id (rows (FollowUps s))) at 1.
      apply map_ext. intro f. destruct (FollowUp.id f =? followUpId);
        [|reflexivity].
      symmetry. apply patch_followUp_nothing; assumption. }
    destruct data as [[d|] [n|]]; unfold updateFollowUp, push_truthy;
      simpl in *;
      try destruct (truthy d) eqn:Ed; try destruct (truthy n) eqn:En;
      run_db; eexists; (split; [reflexivity|]); simpl;
      try (split; [apply Hsame; reflexivity | repeat split; reflexivity]);
      unfold patch_followUp; simpl; try rewrite Ed; try rewrite En;
      repeat split; reflexivity.
  - intros Hd Hn plan. destruct data as [[d|] [n|]];
      unfold updateFollowUp, push_truthy; simpl in *;
      try rewrite Hd; try rewrite Hn; reflexivity.
Qed.

(** ** What the list queries return *)

(** X12: on a healthy engine the list queries return the selected rows, each
    as often as it is in the table, in the order of their [ORDER BY]:
    clients by name, prospects by follow-up date, phone numbers by last call
    (latest first), the sales of a client, the call logs of a phone number
    and the follow-ups of an entity by date (latest first). *)
Theorem list_queries_are_sorted :
  forall (u clientId entityId : Z) (e : FollowUp.entity) (s : store),
    (exists l, getClients u (healthy s) = (Ok l, healthy s)
       /\ Permutation l (select (fun c => Client.userId c =? u) (Clients s))
       /\ StronglySorted
            (fun a b => String.leb (Client.name a) (Client.name b) = true) l)
    /\ (exists l, getProspects u (healthy s) = (Ok l, healthy s)
          /\ Permutation l
               (select (fun p => Prospect.userId p =? u) (Prospects s))
          /\ StronglySorted
               (fun a b => String.leb (Prospect.followUpDate a)
                                      (Prospect.followUpDate b) = true) l)
    /\ (exists l, getPhoneNumbers u (healthy s) = (Ok l, healthy s)
          /\ Permutation l
               (select (fun p => PhoneNumber.userId p =? u) (PhoneNumbers s))
          /\ StronglySorted
               (fun a b => String.leb (PhoneNumber.lastCalledDate b)
                                      (PhoneNumber.lastCalledDate a) = true)
               l)
    /\ (exists l, getSalesByClient clientId (healthy s) = (Ok l, healthy s)
          /\ Permutation l
               (select (fun x => Sale.clientId x =? clientId) (Sales s))
          /\ StronglySorted
               (fun a b => String.leb (Sale.date b) (Sale.date a) = true) l)
    /\ (exists l,
          getCallLogsByPhoneNumber entityId (healthy s) = (Ok l, healthy s)
          /\ Permutation l
               (select (fun x => CallLog.phoneNumberId x =? entityId)
                       (CallLogs s))
          /\ StronglySorted
               (fun a b => String.leb (CallLog.date b) (CallLog.date a)
                           = true) l)
    /\ (exists l,
          getFollowUpsByEntity entityId e (healthy s) = (Ok l, healthy s)
          /\ Permutation l
               (select (fun f => (FollowUp.entityId f =? entityId)
                                 && FollowUp.entity_eqb (FollowUp.entityType f)
                                      e)
                       (FollowUps s))
          /\ StronglySorted
               (fun a b => String.leb (FollowUp.date b) (FollowUp.date a)
                           = true) l).
Proof.
  intros u clientId entityId e s.
  repeat split; eexists; (split; [reflexivity|]);
    (split; [apply stable_sort_perm|]).
  - apply (sorted_by_key _ Client.name).
  - apply (sorted_by_key _ Prospect.followUpDate).
  - apply (sorted_by_key _ PhoneNumber.lastCalledDate).
  - apply (sorted_by_key _ Sale.date).
  - apply (sorted_by_key _ CallLog.date).
  - apply (sorted_by_key _ FollowUp.date).
Qed.

(** X13: on a healthy engine [getSales] returns a sale, with a client name,
    exactly when the sale is in the table and a client of the requesting
    user with that name has the sale's [clientId]; the rows come latest
    first.  Sales of other users' clients, and sales whose client is gone,
    are not returned. *)
Theorem getSales_returns_the_users_sales :
  forall (u : Z) (s : store),
    exists l,
      getSales u (healthy s) = (Ok l, healthy s)
      /\ (forall x n,
            In (x, n) l <->
            In x (rows (Sales s))
            /\ exists c, In c (rows (Clients s))
                         /\ Client.id c = Sale.clientId x
                         /\ Client.userId c = u /\ Client.name c = n)
      /\ StronglySorted
           (fun a b => String.leb (Sale.date (fst b)) (Sale.date (fst a))
                       = true) l.
Proof.
  intros u s. eexists. split; [reflexivity|]. split.
  - intros x n. rewrite stable_sort_In, in_flat_map. split.
    + intros [y [Hy Hin]]. apply in_map_iff in Hin.
      destruct Hin as [c [Heq Hc]]. inversion Heq; subst.
      apply filter_In in Hc. destruct Hc as [Hc Hm].
      apply andb_true_iff in Hm. rewrite !Z.eqb_eq in Hm.
      split; [exact Hy|]. exists c. tauto.
    + intros [Hx [c [Hc [Hid [Hu Hn]]]]]. exists x. split; [exact Hx|].
      apply in_map_iff. exists c. split; [rewrite Hn; reflexivity|].
      apply filter_In. split; [exact Hc|].
      apply andb_true_iff. rewrite !Z.eqb_eq. split; assumption.
  - apply (sorted_by_key _ (fun r : Sale.t * string => Sale.date (fst r))).
Qed.

(** ** Follow-ups with details *)

Lemma pending_first_total :
  forall a b, pending_first a b = true \/ pending_first b a = true.
Proof.
  intros a b. unfold pending_first.
  destruct (FollowUp.isCompleted (fd_followUp a)),
           (FollowUp.isCompleted (fd_followUp b));
    auto using String.leb_total.
Qed.

Lemma pending_first_trans :
  forall a b c,
    pending_first a b = true -> pending_first b c = true ->
    pending_first a c = true.
Proof.
  intros a b c. unfold pending_first.
  destruct (FollowUp.isCompleted (fd_followUp a)),
           (FollowUp.isCompleted (fd_followUp b)),
           (FollowUp.isCompleted (fd_followUp c));
    intros H1 H2; try discriminate; try reflexivity;
    eapply string_leb_trans; eassumption.
Qed.

Lemma details_of_resolved :
  forall (s : store) (u : Z) (f : FollowUp.t) (d : followUp_details),
    In d (details_of s u f) ->
    fd_followUp d = f
    /\ entity_exists s (FollowUp.entityType f) (FollowUp.entityId f)
    /\ (0 < owner_matches s u f)%nat
    /\ entityName d <> None.
Proof.
  intros s u f d. unfold details_of, owner_matches, entity_exists.
  destruct (FollowUp.entityType f); intro Hin;
    apply in_map_iff in Hin; destruct Hin as [r [<- Hr]]; simpl;
    (split; [reflexivity|]);
    (split; [apply filter_In in Hr; destruct Hr as [Hr Hm];
             apply andb_true_iff in Hm; rewrite Z.eqb_eq in Hm;
             exists r; tauto|]);
    (split; [|discriminate]);
    destruct (filter _ _); [contradiction | simpl; lia | contradiction
                            | simpl; lia | contradiction | simpl; lia].
Qed.

(** X14: on a healthy engine every row of [getFollowUpsWithDetails] is a
    follow-up that [getFollowUps] returns for the same user, its entity
    exists, and its entity name is a non-empty string; a follow-up whose
    entity is gone is in neither list.  Pending rows come before completed
    ones, each group by date. *)
Theorem followUps_with_details_are_resolved :
  forall (u : Z) (s : store),
    exists ds fs,
      getFollowUpsWithDetails u (healthy s) = (Ok ds, healthy s)
      /\ getFollowUps u (healthy s) = (Ok fs, healthy s)
      /\ (forall d, In d ds ->
            In (fd_followUp d) fs
            /\ In (fd_followUp d) (rows (FollowUps s))
            /\ entity_exists s (FollowUp.entityType (fd_followUp d))
                               (FollowUp.entityId (fd_followUp d))
            /\ exists name, entityName d = Some name
                            /\ name <> EmptyString)
      /\ (forall f, In f fs ->
            In f (rows (FollowUps s))
            /\ entity_exists s (FollowUp.entityType f) (FollowUp.entityId f))
      /\ StronglySorted (fun a b => pending_first a b = true) ds
      /\ StronglySorted
           (fun a b => FollowUp.isCompleted (fd_followUp a) = true ->
                       FollowUp.isCompleted (fd_followUp b) = true) ds.
Proof.
  intros u s. do 2 eexists. split; [reflexivity|]. split; [reflexivity|].
  assert (Hsorted :
    StronglySorted (fun a b => pending_first a b = true)
      (filter (fun f => truthy_opt (entityName f))
         (stable_sort pending_first
            (flat_map (details_of s u) (rows (FollowUps s)))))).
  { apply StronglySorted_filter. apply stable_sort_sorted.
    - apply pending_first_total.
    - apply pending_first_trans. }
  split; [|split; [|split; [exact Hsorted|]]].
  - intros d Hd. apply filter_In in Hd. destruct Hd as [Hd Hname].
    apply stable_sort_In, in_flat_map in Hd. destruct Hd as [f [Hf Hd]].
    apply details_of_resolved in Hd. destruct Hd as (-> & Hex & Hpos & _).
    split; [|split; [exact Hf|split; [exact Hex|]]].
    + apply stable_sort_In, in_flat_map. exists f. split; [exact Hf|].
      destruct (owner_matches s u f); [lia | left; reflexivity].
    + destruct (entityName d) as [name|]; [|discriminate].
      exists name. split; [reflexivity|]. intros ->. discriminate.
  - intros f Hf. apply stable_sort_In, in_flat_map in Hf.
    destruct Hf as [f' [Hf' Hin]]. apply repeat_spec in Hin as Heq.
    subst f'. split; [exact Hf'|].
    unfold owner_matches in Hin. unfold entity_exists.
    destruct (FollowUp.entityType f);
      match type of Hin with
      | In _ (repeat _ (List.length (filter ?p ?l))) =>
          destruct (filter p l) as [|r rest] eqn:Hfilter;
          [contradiction|];
          assert (Hr : In r (filter p l)) by (rewrite Hfilter; left; reflexivity);
          apply filter_In in Hr; destruct Hr as [Hr Hm];
          apply andb_true_iff in Hm; rewrite Z.eqb_eq in Hm;
          exists r; tauto
      end.
  - eapply StronglySorted_impl; [|exact Hsorted].
    intros a b Hab Ha. unfold pending_first in Hab. rewrite Ha in Hab.
    destruct (FollowUp.isCompleted (fd_followUp b));
      [reflexivity | discriminate].
Qed.

(** ** Follow-ups without their entity *)

Lemma owner_matches_entity :
  forall (s : store) (u : Z) (f : FollowUp.t),
    (0 < owner_matches s u f)%nat ->
    entity_exists s (FollowUp.entityType f) (FollowUp.entityId f).
Proof.
  intros s u f. unfold owner_matches, entity_exists.
  destruct (FollowUp.entityType f); intro Hpos;
    match type of Hpos with
    | (0 < List.length (filter ?p ?l))%nat =>
        destruct (filter p l) as [|r rest] eqn:Hfilter;
        [simpl in Hpos; lia|];
        assert (Hr : In r (filter p l)) by (rewrite Hfilter; left; reflexivity);
        apply filter_In in Hr; destruct Hr as [Hr Hm];
        apply andb_true_iff in Hm; rewrite Z.eqb_eq in Hm;
        exists r; tauto
    end.
Qed.

Lemma entity_eqb_refl :
  forall e : FollowUp.entity, FollowUp.entity_eqb e e = true.
Proof. intros []; reflexivity. Qed.

(** X15: [addFollowUp] does not check the entity it is given.  When no such
    entity exists, the follow-up is stored all the same and
    [getFollowUpsByEntity] returns it, but no user ever sees it through
    [getFollowUps] or [getFollowUpsWithDetails]. *)
Theorem addFollowUp_to_missing_entity_is_hidden :
  forall (now : string) (followUp : followUp_fields) (s : store),
    ~ entity_exists s (ff_entityType followUp) (ff_entityId followUp) ->
    exists f s',
      addFollowUp now followUp (healthy s) = (Ok f, healthy s')
      /\ rows (FollowUps s') = rows (FollowUps s) ++ [f]
      /\ (exists l,
            getFollowUpsByEntity (ff_entityId followUp)
              (ff_entityType followUp) (healthy s') = (Ok l, healthy s')
            /\ In f l)
      /\ forall u, exists fs ds,
           getFollowUps u (healthy s') = (Ok fs, healthy s')
           /\ getFollowUpsWithDetails u (healthy s') = (Ok ds, healthy s')
           /\ ~ In f fs
           /\ forall d, In d ds -> fd_followUp d <> f.
Proof.
  intros now followUp s Hmissing. unfold addFollowUp. run_db.
  do 2 eexists. split; [reflexivity|]. simpl.
  set (f := FollowUp.mk (next_rowid FollowUp.id (FollowUps s))
              (ff_entityId followUp) (ff_entityType followUp)
              (ff_date followUp) (ff_notes followUp)
              (ff_isCompleted followUp) now).
  set (s' := with_FollowUps
               (mkTable (rows (FollowUps s) ++ [f])
                        (next_rowid FollowUp.id (FollowUps s))) s).
  assert (Hstill : ~ entity_exists s' (FollowUp.entityType f)
                                      (FollowUp.entityId f)).
  { unfold entity_exists in *. simpl.
    destruct (ff_entityType followUp); exact Hmissing. }
  split; [reflexivity|]. split.
  - eexists. split; [reflexivity|]. apply stable_sort_In.
    unfold select. apply filter_In. split.
    + simpl. apply in_or_app. right. left. reflexivity.
    + simpl. rewrite Z.eqb_refl, entity_eqb_refl. reflexivity.
  - intro u. do 2 eexists. split; [reflexivity|]. split; [reflexivity|].
    split.
    + intro Hin. apply stable_sort_In, in_flat_map in Hin.
      destruct Hin as [f' [_ Hrep]]. apply repeat_spec in Hrep as Heq.
      subst f'. apply Hstill. apply (owner_matches_entity s' u f).
      destruct (owner_matches s' u f); [contradiction | lia].
    + intros d Hd Heq. apply filter_In in Hd. destruct Hd as [Hd _].
      apply stable_sort_In, in_flat_map in Hd. destruct Hd as [f' [_ Hd]].
      apply details_of_resolved in Hd. destruct Hd as (Hfd & Hex & _).
      rewrite Heq in Hfd. subst f'. exact (Hstill Hex).
Qed.

Lemma addFollowUp_to_missing_entity_is_hidden_witness :
  exists f s',
    addFollowUp "2025-02-01T10:05:00.000Z"%string
      (mkFollowUpFields 4 FollowUp.client "2030-01-01"%string
         "call back"%string false)
      (healthy store_with_bob_client)
    = (Ok f, healthy s')
    /\ rows (FollowUps s') = rows (FollowUps store_with_bob_client) ++ [f]
    /\ (exists l,
          getFollowUpsByEntity 4 FollowUp.client (healthy s')
          = (Ok l, healthy s')
          /\ In f l)
    /\ forall u, exists fs ds,
         getFollowUps u (healthy s') = (Ok fs, healthy s')
         /\ getFollowUpsWithDetails u (healthy s') = (Ok ds, healthy s')
         /\ ~ In f fs
         /\ forall d, In d ds -> fd_followUp d <> f.
Proof.
  apply (addFollowUp_to_missing_entity_is_hidden
           "2025-02-01T10:05:00.000Z"%string
           (mkFollowUpFields 4 FollowUp.client "2030-01-01"%string
              "call back"%string false)
           store_with_bob_client).
  simpl. intros [c [[Hc|[]] Hid]]. subst c. simpl in Hid. lia.
Defined.

(** ** Converting twice *)

Lemma hd_error_filter_map :
  forall (A : Type) (p : A -> bool) (g : A -> A) (l : list A),
    (forall x, p (g x) = p x) ->
    hd_error (filter p (map g l)) = option_map g (hd_error (filter p l)).
Proof.
  intros A p g l Hp. rewrite filter_map_preserve by exact Hp.
  destruct (filter p l); reflexivity.
Qed.

Lemma convertProspect_run :
  forall (prospectId : Z) (saleData : sale_data) (s : store) (P : Prospect.t),
    hd_error (select (fun p => Prospect.id p =? prospectId) (Prospects s))
    = Some P ->
    exists c x s',
      convertProspectToClientAndRecordSale prospectId saleData (healthy s)
      = (Ok (c, x), healthy s')
      /\ c = Client.mk (next_rowid Client.id (Clients s)) (Prospect.userId P)
               (Prospect.name P) (Prospect.phone P) (Prospect.email P)
               (Prospect.company P) general_industry
      /\ x = Sale.mk (next_rowid Sale.id (Sales s)) (Client.id c)
               (sd_date saleData) (sd_amount saleData)
               (sd_productOrService saleData)
      /\ rows (Clients s') = rows (Clients s) ++ [c]
      /\ rows (Sales s') = rows (Sales s) ++ [x]
      /\ hd_error (select (fun p => Prospect.id p =? prospectId)
                          (Prospects s'))
         = Some (Prospect.set_status Prospect.Won P).
Proof.
  intros prospectId saleData s P HP.
  assert (Hid : (Prospect.id P =? prospectId) = true).
  { apply hd_error_In in HP. unfold select in HP.
    apply filter_In in HP. tauto. }
  unfold convertProspectToClientAndRecordSale. run_db. rewrite HP. simpl.
  do 3 eexists. split; [reflexivity|]. simpl.
  do 4 (split; [reflexivity|]).
  unfold select in *. simpl. rewrite hd_error_filter_map.
  - rewrite HP. simpl. rewrite Hid. reflexivity.
  - intro p. destruct (Prospect.id p =? prospectId) eqn:E; simpl; exact E.
Qed.

(** X16: the conversion does not look at the prospect's status.  Converting
    the same prospect twice succeeds twice: the store gains two clients with
    different ids and the same contact fields, and one sale for each. *)
Theorem converting_a_prospect_twice_duplicates_the_client :
  forall (prospectId : Z) (sale1 sale2 : sale_data) (s : store)
         (P : Prospect.t),
    hd_error (select (fun p => Prospect.id p =? prospectId) (Prospects s))
    = Some P ->
    exists c1 x1 s1 c2 x2 s2,
      convertProspectToClientAndRecordSale prospectId sale1 (healthy s)
      = (Ok (c1, x1), healthy s1)
      /\ convertProspectToClientAndRecordSale prospectId sale2 (healthy s1)
         = (Ok (c2, x2), healthy s2)
      /\ Client.id c1 < Client.id c2
      /\ Client.name c1 = Prospect.name P /\ Client.name c2 = Prospect.name P
      /\ Client.phone c1 = Prospect.phone P
      /\ Client.phone c2 = Prospect.phone P
      /\ rows (Clients s2) = rows (Clients s) ++ [c1; c2]
      /\ rows (Sales s2) = rows (Sales s) ++ [x1; x2]
      /\ Sale.clientId x1 = Client.id c1 /\ Sale.clientId x2 = Client.id c2.
Proof.
  intros prospectId sale1 sale2 s P HP.
  destruct (convertProspect_run prospectId sale1 s P HP)
    as (c1 & x1 & s1 & Hrun1 & Hc1 & Hx1 & Hcs1 & Hxs1 & HP1).
  destruct (convertProspect_run prospectId sale2 s1 _ HP1)
    as (c2 & x2 & s2 & Hrun2 & Hc2 & Hx2 & Hcs2 & Hxs2 & _).
  exists c1, x1, s1, c2, x2, s2.
  split; [exact Hrun1|]. split; [exact Hrun2|]. split.
  { assert (Hin : In c1 (rows (Clients s1)))
      by (rewrite Hcs1; apply in_or_app; right; left; reflexivity).
    apply (next_rowid_fresh _ Client.id) in Hin. rewrite Hc2 at 1.
    simpl. exact Hin. }
  rewrite Hcs2, Hcs1, Hxs2, Hxs1, <- !app_assoc.
  subst c1 x1 c2 x2. simpl. repeat split; reflexivity.
Qed.

Lemma converting_a_prospect_twice_duplicates_the_client_witness :
  exists c1 x1 s1 c2 x2 s2,
    convertProspectToClientAndRecordSale 1 a_sale (healthy store_with_ada)
    = (Ok (c1, x1), healthy s1)
    /\ convertProspectToClientAndRecordSale 1 a_sale (healthy s1)
       = (Ok (c2, x2), healthy s2)
    /\ Client.id c1 < Client.id c2
    /\ Client.name c1 = Prospect.name ada /\ Client.name c2 = Prospect.name ada
    /\ Client.phone c1 = Prospect.phone ada
    /\ Client.phone c2 = Prospect.phone ada
    /\ rows (Clients s2) = rows (Clients store_with_ada) ++ [c1; c2]
    /\ rows (Sales s2) = rows (Sales store_with_ada) ++ [x1; x2]
    /\ Sale.clientId x1 = Client.id c1 /\ Sale.clientId x2 = Client.id c2.
Proof.
  apply (converting_a_prospect_twice_duplicates_the_client 1 a_sale a_sale
           store_with_ada ada).
  reflexivity.
Defined.

Lemma convertPhoneNumber_run :
  forall (phoneNumberId : Z) (prospectData : prospect_data) (s : store)
         (pn : PhoneNumber.t),
    hd_error (select (fun p => PhoneNumber.id p =? phoneNumberId)
                     (PhoneNumbers s)) = Some pn ->
    exists p s',
      convertPhoneNumberToProspect phoneNumberId prospectData (healthy s)
      = (Ok p, healthy s')
      /\ p = Prospect.mk (next_rowid Prospect.id (Prospects s))
               (PhoneNumber.userId pn) (pd_name prospectData)
               (PhoneNumber.number pn) (pd_email prospectData)
               (pd_company prospectData) (pd_status prospectData)
               (pd_followUpDate prospectData)
      /\ rows (Prospects s') = rows (Prospects s) ++ [p]
      /\ rows (PhoneNumbers s')
         = map (fun r => if PhoneNumber.id r =? phoneNumberId
                         then PhoneNumber.promote (Prospect.id p) r else r)
               (rows (PhoneNumbers s))
      /\ hd_error (select (fun p => PhoneNumber.id p =? phoneNumberId)
                          (PhoneNumbers s'))
         = Some (PhoneNumber.promote (Prospect.id p) pn).
Proof.
  intros phoneNumberId prospectData s pn Hpn.
  assert (Hid : (PhoneNumber.id pn =? phoneNumberId) = true).
  { apply hd_error_In in Hpn. unfold select in Hpn.
    apply filter_In in Hpn. tauto. }
  unfold convertPhoneNumberToProspect. run_db. rewrite Hpn. simpl.
  do 2 eexists. split; [reflexivity|]. simpl.
  do 3 (split; [reflexivity|]).
  unfold select in *. simpl. rewrite hd_error_filter_map.
  - rewrite Hpn. simpl. rewrite Hid. reflexivity.
  - intro r. destruct (PhoneNumber.id r =? phoneNumberId) eqn:E; simpl;
      exact E.
Qed.

(** X17: the promotion does not look at [isProspect].  Converting the same
    phone number twice succeeds twice: two prospects with different ids
    carry the number, and every phone-number row of that id ends up pointing
    to the second one. *)
Theorem converting_a_phone_number_twice_duplicates_the_prospect :
  forall (phoneNumberId : Z) (data1 data2 : prospect_data) (s : store)
         (pn : PhoneNumber.t),
    hd_error (select (fun p => PhoneNumber.id p =? phoneNumberId)
                     (PhoneNumbers s)) = Some pn ->
    exists p1 s1 p2 s2,
      convertPhoneNumberToProspect phoneNumberId data1 (healthy s)
      = (Ok p1, healthy s1)
      /\ convertPhoneNumberToProspect phoneNumberId data2 (healthy s1)
         = (Ok p2, healthy s2)
      /\ Prospect.id p1 < Prospect.id p2
      /\ Prospect.phone p1 = PhoneNumber.number pn
      /\ Prospect.phone p2 = PhoneNumber.number pn
      /\ rows (Prospects s2) = rows (Prospects s) ++ [p1; p2]
      /\ forall r, In r (rows (PhoneNumbers s2)) ->
                   PhoneNumber.id r = phoneNumberId ->
                   PhoneNumber.prospectId r = Some (Prospect.id p2).
Proof.
  intros phoneNumberId data1 data2 s pn Hpn.
  destruct (convertPhoneNumber_run phoneNumberId data1 s pn Hpn)
    as (p1 & s1 & Hrun1 & Hp1 & Hps1 & _ & Hpn1).
  destruct (convertPhoneNumber_run phoneNumberId data2 s1 _ Hpn1)
    as (p2 & s2 & Hrun2 & Hp2 & Hps2 & Hrows2 & _).
  exists p1, s1, p2, s2.
  split; [exact Hrun1|]. split; [exact Hrun2|]. split.
  { assert (Hin : In p1 (rows (Prospects s1)))
      by (rewrite Hps1; apply in_or_app; right; left; reflexivity).
    apply (next_rowid_fresh _ Prospect.id) in Hin. rewrite Hp2 at 1.
    simpl. exact Hin. }
  split; [subst p1; reflexivity|]. split; [subst p2; reflexivity|].
  split; [rewrite Hps2, Hps1, <- app_assoc; reflexivity|].
  intros r Hr Hid. rewrite Hrows2 in Hr. apply in_update_rows in Hr.
  destruct Hr as [r0 [_ ->]].
  destruct (PhoneNumber.id r0 =? phoneNumberId) eqn:E; [reflexivity|].
  apply Z.eqb_neq in E. contradiction.
Qed.

Lemma converting_a_phone_number_twice_duplicates_the_prospect_witness :
  exists p1 s1 p2 s2,
    convertPhoneNumberToProspect 1 a_prospect (healthy store_with_phones)
    = (Ok p1, healthy s1)
    /\ convertPhoneNumberToProspect 1 a_prospect (healthy s1)
       = (Ok p2, healthy s2)
    /\ Prospect.id p1 < Prospect.id p2
    /\ Prospect.phone p1 = "0700111222"%string
    /\ Prospect.phone p2 = "0700111222"%string
    /\ rows (Prospects s2) = rows (Prospects store_with_phones) ++ [p1; p2]
    /\ forall r, In r (rows (PhoneNumbers s2)) ->
                 PhoneNumber.id r = 1 ->
                 PhoneNumber.prospectId r = Some (Prospect.id p2).
Proof.
  apply (converting_a_phone_number_twice_duplicates_the_prospect 1
           a_prospect a_prospect store_with_phones
           (PhoneNumber.mk 1 7 "0700111222"%string "2025-01-01"%string
              false None)).
  reflexivity.
Defined.

(** ** Totals of the analytics *)

(** X18: on a healthy engine, with sale dates that [toISOString] can read,
    [getAnalyticsData] returns figures that agree with each other: completed
    and pending follow-ups add up to the total, the counts by prospect status
    add up to the number of prospects, the counts by call feedback to the
    number of calls, and the monthly counts to the number of sales read. *)
Theorem analytics_totals_agree :
  forall (isoMonth : string -> option string) (u : Z)
         (sd ed : option string) (s : store),
    Forall (fun sale => isoMonth (Sale.date sale) <> None)
           (analyticsSales u sd ed s) ->
    exists a,
      getAnalyticsData isoMonth u sd ed (healthy s) = (Ok a, healthy s)
      /\ totalFollowUps a
         = (completedFollowUps a + pendingFollowUps a)%nat
      /\ list_sum (map snd (prospectsByStatus a)) = totalProspects a
      /\ list_sum (map snd (callsByFeedback a)) = totalCalls a
      /\ list_sum (map month_count (salesByMonth a))
         = List.length (analyticsSales u sd ed s)
      /\ totalClients a
         = List.length (select (fun c => Client.userId c =? u) (Clients s))
      /\ totalProspects a
         = List.length (select (fun p => Prospect.userId p =? u)
                               (Prospects s)).
Proof.
  intros isoMonth u sd ed s Hdates.
  destruct (monthMap_some isoMonth _ [] Hdates) as [mm Hmm].
  unfold getAnalyticsData, getClients, getProspects, getCallLogs,
    getFollowUps. run_db. unfold monthMap_of. rewrite Hmm.
  eexists. split; [reflexivity|]. simpl.
  split; [apply filter_split_length|].
  split; [rewrite tally_total; apply length_map|].
  split; [rewrite tally_total; apply length_map|].
  split.
  - unfold salesByMonth_of.
    rewrite (list_sum_perm _ month_count _ _ (stable_sort_perm _ _)).
    rewrite map_map. simpl.
    rewrite (monthMap_total _ _ _ _ Hmm). reflexivity.
  - split; apply stable_sort_length.
Qed.

Lemma analytics_totals_agree_witness :
  exists a,
    getAnalyticsData iso_prefix 7 None None (healthy demo_store)
    = (Ok a, healthy demo_store)
    /\ totalFollowUps a = (completedFollowUps a + pendingFollowUps a)%nat
    /\ list_sum (map snd (prospectsByStatus a)) = totalProspects a
    /\ list_sum (map snd (callsByFeedback a)) = totalCalls a
    /\ list_sum (map month_count (salesByMonth a))
       = List.length (analyticsSales 7 None None demo_store)
    /\ totalClients a
       = List.length (select (fun c => Client.userId c =? 7)
                             (Clients demo_store))
    /\ totalProspects a
       = List.length (select (fun p => Prospect.userId p =? 7)
                             (Prospects demo_store)).
Proof.
  apply (analytics_totals_agree iso_prefix 7 None None demo_store).
  apply Forall_forall. intros sale _. unfold iso_prefix. discriminate.
Defined.

(** ** Bounds that are compared as text *)

(** X19: the date bound is a comparison of strings.  A sale whose date is
    the bare day [d] is left out when the start of the bound is a longer
    string beginning with [d], such as a timestamp of that day; and a sale
    whose date is such a longer string is left out when the end of the
    bound is the bare [d]. *)
Theorem text_bounds_leave_out_the_boundary_day :
  forall (u : Z) (d t other : string) (s : store) (bare stamped : Sale.t),
    t <> EmptyString -> d <> EmptyString -> other <> EmptyString ->
    Sale.date bare = d -> Sale.date stamped = (d ++ t)%string ->
    ~ In bare (analyticsSales u (Some (d ++ t)%string) (Some other) s)
    /\ ~ In stamped (analyticsSales u (Some other) (Some d) s).
Proof.
  intros u d t other s bare stamped Ht Hd Hother Hbare Hstamped.
  assert (Htruthy : forall x, x <> EmptyString -> truthy x = true).
  { intros [|c x] Hx; [contradiction | reflexivity]. }
  assert (Hdt : (d ++ t)%string <> EmptyString).
  { destruct d; [contradiction | discriminate]. }
  destruct (string_extension_above d t Ht) as [_ Habove].
  split; intro Hin; apply analyticsSales_In in Hin;
    destruct Hin as [_ [Hf _]]; unfold dateFilter in Hf;
    rewrite ?(Htruthy _ Hdt), ?(Htruthy _ Hd), (Htruthy _ Hother) in Hf;
    simpl in Hf; rewrite ?Hbare, ?Hstamped in Hf;
    apply andb_true_iff in Hf.
  - destruct Hf as [Hf _]. congruence.
  - destruct Hf as [_ Hf]. congruence.
Qed.

Lemma text_bounds_leave_out_the_boundary_day_witness :
  ~ In (Sale.mk 8 1 "2025-03-07"%string (amount_of 40) "A"%string)
       (analyticsSales 7 (Some ("2025-03-07" ++ "T00:00:00.000Z")%string)
          (Some "2025-03-31"%string) demo_store)
  /\ ~ In (Sale.mk 9 1 ("2025-03-07" ++ "T00:00:00.000Z")%string
            (amount_of 40) "A"%string)
         (analyticsSales 7 (Some "2025-03-31"%string)
            (Some "2025-03-07"%string) demo_store).
Proof.
  apply (text_bounds_leave_out_the_boundary_day 7 "2025-03-07"%string
           "T00:00:00.000Z"%string "2025-03-31"%string demo_store
           (Sale.mk 8 1 "2025-03-07"%string (amount_of 40) "A"%string)
           (Sale.mk 9 1 ("2025-03-07" ++ "T00:00:00.000Z")%string
              (amount_of 40) "A"%string));
    try discriminate; reflexivity.
Defined.

(** ** Daily call statistics *)

Lemma count_feedback_total :
  forall (feedbacks : list CallLog.feedback_t) (st : DailyCallStats.t),
    let st' := fold_left count_feedback feedbacks st in
    DailyCallStats.totalCalls st' = DailyCallStats.totalCalls st
    /\ (DailyCallStats.successful st' + DailyCallStats.busy st'
        + DailyCallStats.notAnswered st' + DailyCallStats.dnc st'
        + DailyCallStats.leads st')%nat
       = (DailyCallStats.successful st + DailyCallStats.busy st
          + DailyCallStats.notAnswered st + DailyCallStats.dnc st
          + DailyCallStats.leads st + List.length feedbacks)%nat.
Proof.
  induction feedbacks as [|fb l IH]; intro st; simpl.
  - split; [reflexivity | lia].
  - destruct (IH (count_feedback st fb)) as [H1 H2].
    rewrite H1, H2. destruct st, fb; simpl; split; try reflexivity; lia.
Qed.

(** X20: on a healthy engine the five counters of [getDailyCallStats] add up
    to [totalCalls], which is the number of the user's call logs whose day,
    as SQLite's [DATE()] reads it, is the day asked for. *)
Theorem daily_counters_add_up :
  forall (sqlDate : string -> option string) (u : Z) (date : string)
         (s : store),
    exists st,
      getDailyCallStats sqlDate u date (healthy s) = (Ok st, healthy s)
      /\ DailyCallStats.totalCalls st
         = (DailyCallStats.successful st + DailyCallStats.busy st
            + DailyCallStats.notAnswered st + DailyCallStats.dnc st
            + DailyCallStats.leads st)%nat
      /\ DailyCallStats.totalCalls st
         = List.length
             (flat_map (fun log =>
                filter (fun p =>
                  (PhoneNumber.id p =? CallLog.phoneNumberId log)
                  && (PhoneNumber.userId p =? u))
                  (rows (PhoneNumbers s)))
                (filter (fun log =>
                   same_day sqlDate (CallLog.date log) (before_T date))
                   (rows (CallLogs s)))).
Proof.
  intros sqlDate u date s. unfold getDailyCallStats. run_db.
  eexists. split; [reflexivity|].
  match goal with
  | |- context [fold_left count_feedback ?l ?st] =>
      destruct (count_feedback_total l st) as [H1 H2]
  end.
  cbv zeta in H1, H2. rewrite H1, H2. simpl. split; [reflexivity|].
  rewrite length_map, stable_sort_length.
  rewrite !length_flat_map. f_equal. apply map_ext. intro log.
  apply length_map.
Qed.

Lemma before_T_of_timestamp :
  forall day time : string,
    before_T day = day -> before_T (day ++ String "T"%char time) = day.
Proof.
  induction day as [|c day IH]; intros time Hday; simpl in *.
  - reflexivity.
  - destruct (Ascii.eqb c "T"%char); [discriminate|].
    injection Hday as Hday. rewrite IH by exact Hday. reflexivity.
Qed.

(** X21: [getDailyCallStats] looks at the day only.  For a day written
    without the letter [T], asking with a timestamp of that day, whatever
    its time, is asking with the day itself, in every world. *)
Theorem daily_stats_ignore_the_time :
  forall (sqlDate : string -> option string) (u : Z) (day time : string)
         (w : world),
    before_T day = day ->
    getDailyCallStats sqlDate u (day ++ String "T"%char time) w
    = getDailyCallStats sqlDate u day w.
Proof.
  intros sqlDate u day time w Hday. unfold getDailyCallStats.
  rewrite (before_T_of_timestamp day time Hday), Hday. reflexivity.
Qed.

Lemma daily_stats_ignore_the_time_witness :
  getDailyCallStats iso_prefix 7
    ("2025-02-01" ++ String "T"%char "10:00:00.000Z")%string
    (healthy store_with_phones)
  = getDailyCallStats iso_prefix 7 "2025-02-01"%string
      (healthy store_with_phones).
Proof.
  apply (daily_stats_ignore_the_time iso_prefix 7 "2025-02-01"%string
           "10:00:00.000Z"%string (healthy store_with_phones)).
  reflexivity.
Defined.

(** ** Accounts *)

(** X22: a user who signs up with a name that is free can sign in with the
    same password and gets the same record back; a password with another
    digest is refused with "Invalid credentials"; signing up again with the
    same name is refused with "Username already exists" and changes
    nothing. *)
Theorem signup_then_signin :
  forall (hashPassword : string -> string) (username password name : string)
         (t : table User.t),
    (forall r, In r (rows t) -> User.username r <> username) ->
    exists usr t',
      signup hashPassword username password name (mkAuthWorld (Some t) [])
      = (Ok usr, mkAuthWorld (Some t') [])
      /\ usr = User.mk (User.id usr) username (hashPassword password) name
      /\ rows t' = rows t ++ [usr]
      /\ signin hashPassword username password (mkAuthWorld (Some t') [])
         = (Ok usr, mkAuthWorld (Some t') [])
      /\ (forall other,
            hashPassword other <> hashPassword password ->
            signin hashPassword username other (mkAuthWorld (Some t') [])
            = (Throw invalid_credentials, mkAuthWorld (Some t') []))
      /\ (forall password' name',
            signup hashPassword username password' name'
              (mkAuthWorld (Some t') [])
            = (Throw username_exists, mkAuthWorld (Some t') [])).
Proof.
  intros hashPassword username password name t Hfree.
  assert (Hnone : forall q,
            filter (fun u => String.eqb (User.username u) username && q u)
                   (rows t) = []).
  { intro q. apply filter_nil_iff_absent. intros r Hr.
    apply andb_false_iff. left. apply String.eqb_neq. apply Hfree, Hr. }
  assert (Hex : existsb (fun u => String.eqb (User.username u) username)
                        (rows t) = false).
  { apply existsb_filter_nil. apply filter_nil_iff_absent. intros r Hr.
    apply String.eqb_neq. apply Hfree, Hr. }
  unfold signup. simpl. rewrite Hex. simpl. do 2 eexists.
  split; [reflexivity|]. simpl. split; [reflexivity|].
  split; [reflexivity|]. split; [|split].
  - unfold signin, select. simpl. rewrite filter_app, Hnone. simpl.
    rewrite !String.eqb_refl. reflexivity.
  - intros other Hother. unfold signin, select. simpl.
    rewrite filter_app, Hnone. simpl. rewrite String.eqb_refl. simpl.
    rewrite String.eqb_sym. apply String.eqb_neq in Hother.
    rewrite Hother. reflexivity.
  - intros password' name'. unfold signup. simpl.
    rewrite existsb_app. simpl. rewrite String.eqb_refl, orb_true_r.
    reflexivity.
Qed.

Lemma signup_then_signin_witness :
  exists usr t',
    signup (fun p => ("#" ++ p)%string) "ada"%string "secret"%string
      "Ada"%string (mkAuthWorld (Some empty_table) [])
    = (Ok usr, mkAuthWorld (Some t') [])
    /\ usr = User.mk (User.id usr) "ada"%string "#secret"%string "Ada"%string
    /\ rows t' = rows (@empty_table User.t) ++ [usr]
    /\ signin (fun p => ("#" ++ p)%string) "ada"%string "secret"%string
         (mkAuthWorld (Some t') [])
       = (Ok usr, mkAuthWorld (Some t') [])
    /\ (forall other,
          ("#" ++ other)%string <> "#secret"%string ->
          signin (fun p => ("#" ++ p)%string) "ada"%string other
            (mkAuthWorld (Some t') [])
          = (Throw invalid_credentials, mkAuthWorld (Some t') []))
    /\ (forall password' name',
          signup (fun p => ("#" ++ p)%string) "ada"%string password' name'
            (mkAuthWorld (Some t') [])
          = (Throw username_exists, mkAuthWorld (Some t') [])).
Proof.
  apply (signup_then_signin (fun p => ("#" ++ p)%string) "ada"%string
           "secret"%string "Ada"%string empty_table).
  intros r [].
Defined.

(** ** Reset tokens *)

Lemma map_get_delete_same :
  forall (V : Type) (k : string) (m : list (string * V)),
    map_get String.eqb k (map_delete String.eqb k m) = None.
Proof.
  intros V k m. unfold map_delete. induction m as [|[k' v] m IH]; simpl.
  - reflexivity.
  - destruct (String.eqb k' k) eqn:E; simpl; [exact IH|].
    rewrite E. exact IH.
Qed.

Lemma map_get_delete_other :
  forall (V : Type) (k k' : string) (m : list (string * V)),
    k' <> k ->
    map_get String.eqb k' (map_delete String.eqb k m)
    = map_get String.eqb k' m.
Proof.
  intros V k k' m Hne. unfold map_delete.
  induction m as [|[k0 v] m IH]; simpl; [reflexivity|].
  destruct (String.eqb k0 k) eqn:E; simpl.
  - apply String.eqb_eq in E. subst k0.
    destruct (String.eqb k k') eqn:E'; [|exact IH].
    apply String.eqb_eq in E'. congruence.
  - rewrite IH. reflexivity.
Qed.

(** X23: [validateResetToken] accepts a token exactly when the map holds it
    with an expiry not before the current time, the expiry instant
    included, and then leaves the map as it is.  A refused token stays
    refused at every later call, whatever the clock says, because an expired
    entry is deleted on the spot.  No other token is affected. *)
Theorem validateResetToken_verdicts :
  forall (now : Z) (token : string) (m : list (string * reset_entry)),
    let r := validateResetToken now token m in
    (fst r = true <->
     exists e, map_get String.eqb token m = Some e /\ now <= re_expiresAt e)
    /\ (fst r = true -> snd r = m)
    /\ (fst r = false ->
        forall now', fst (validateResetToken now' token (snd r)) = false)
    /\ (forall other, other <> token ->
          map_get String.eqb other (snd r) = map_get String.eqb other m).
Proof.
  intros now token m. cbv zeta.
  destruct (map_get String.eqb token m) as [e|] eqn:Hget.
  - destruct (now >? re_expiresAt e) eqn:Hexp.
    + assert (Hr : validateResetToken now token m
                   = (false, map_delete String.eqb token m)).
      { unfold validateResetToken. rewrite Hget, Hexp. reflexivity. }
      rewrite Hr. simpl. split; [|split; [discriminate|split]].
      * split; [discriminate|]. intros [e' [He' Hle]].
        injection He' as <-. apply Z.gtb_lt in Hexp. lia.
      * intros _ now'. unfold validateResetToken.
        rewrite map_get_delete_same. reflexivity.
      * intros other Hother. apply map_get_delete_other, Hother.
    + assert (Hr : validateResetToken now token m = (true, m)).
      { unfold validateResetToken. rewrite Hget, Hexp. reflexivity. }
      rewrite Hr. simpl. split; [|split; [reflexivity|split]].
      * split; [|reflexivity]. intros _. exists e. split; [reflexivity|].
        rewrite Z.gtb_ltb in Hexp. apply Z.ltb_ge in Hexp. exact Hexp.
      * discriminate.
      * reflexivity.
  - assert (Hr : validateResetToken now token m = (false, m)).
    { unfold validateResetToken. rewrite Hget. reflexivity. }
    rewrite Hr. simpl. split; [|split; [reflexivity|split]].
    + split; [discriminate|]. intros [e [He _]]. discriminate.
    + intros _ now'. unfold validateResetToken. rewrite Hget. reflexivity.
    + reflexivity.
Qed.

Lemma map_get_absent :
  forall (V : Type) (k : string) (m : list (string * V)),
    ~ In k (map fst m) -> map_get String.eqb k m = None.
Proof.
  intros V k m. induction m as [|[k' v] m IH]; intro Hnot; simpl.
  - reflexivity.
  - destruct (String.eqb k' k) eqn:E.
    + apply String.eqb_eq in E. subst k'. exfalso. apply Hnot. left.
      reflexivity.
    + apply IH. intro Hin. apply Hnot. right. exact Hin.
Qed.

Lemma map_get_filter :
  forall (V : Type) (q : V -> bool) (k : string) (m : list (string * V)),
    NoDup (map fst m) ->
    map_get String.eqb k (filter (fun e => q (snd e)) m)
    = match map_get String.eqb k m with
      | Some v => if q v then Some v else None
      | None => None
      end.
Proof.
  intros V q k m. induction m as [|[k' v] m IH]; intro Hnd; simpl.
  - reflexivity.
  - inversion Hnd as [|x xs Hnotin Hnd']; subst.
    destruct (String.eqb k' k) eqn:E.
    + apply String.eqb_eq in E. subst k'.
      destruct (q v) eqn:Hq; simpl.
      * rewrite String.eqb_refl. reflexivity.
      * rewrite (IH Hnd'), (map_get_absent _ _ _ Hnotin). reflexivity.
    + destruct (q v); simpl; [rewrite E|]; apply IH, Hnd'.
Qed.

(** X24: [clearExpiredTokens] keeps exactly the entries that have not
    expired; on a map, whose keys are distinct, it changes the verdict of
    [validateResetToken] at that time for no token; and clearing twice is
    clearing once. *)
Theorem clearExpiredTokens_keeps_the_valid :
  forall (now : Z) (m : list (string * reset_entry)),
    NoDup (map fst m) ->
    (forall k e, In (k, e) (clearExpiredTokens now m) <->
                 In (k, e) m /\ now <= re_expiresAt e)
    /\ (forall token,
          fst (validateResetToken now token (clearExpiredTokens now m))
          = fst (validateResetToken now token m))
    /\ (forall token,
          fst (validateResetToken now token (clearExpiredTokens now m)) = true
          -> snd (validateResetToken now token (clearExpiredTokens now m))
             = clearExpiredTokens now m)
    /\ clearExpiredTokens now (clearExpiredTokens now m)
       = clearExpiredTokens now m.
Proof.
  intros now m Hnd. unfold clearExpiredTokens. split; [|split; [|split]].
  - intros k e. rewrite filter_In. simpl.
    rewrite negb_true_iff, Z.gtb_ltb, Z.ltb_ge. reflexivity.
  - intro token. unfold validateResetToken.
    rewrite (map_get_filter _ (fun e => negb (now >? re_expiresAt e)) token m
               Hnd).
    destruct (map_get String.eqb token m) as [e|]; [|reflexivity].
    destruct (now >? re_expiresAt e) eqn:Hexp; simpl; [reflexivity|].
    rewrite Hexp. reflexivity.
  - intros token. unfold validateResetToken.
    destruct (map_get String.eqb token _) as [e|]; [|discriminate].
    destruct (now >? re_expiresAt e); [discriminate | reflexivity].
  - induction m as [|x m IH]; [reflexivity|].
    inversion Hnd as [|k ks _ Hnd']; subst. simpl.
    destruct (negb (now >? re_expiresAt (snd x))) eqn:E; simpl;
      [rewrite E, (IH Hnd'); reflexivity | exact (IH Hnd')].
Qed.

Lemma clearExpiredTokens_keeps_the_valid_witness :
  (forall k e, In (k, e) (clearExpiredTokens 2000 demo_tokens) <->
               In (k, e) demo_tokens /\ 2000 <= re_expiresAt e)
  /\ (forall token,
        fst (validateResetToken 2000 token
               (clearExpiredTokens 2000 demo_tokens))
        = fst (validateResetToken 2000 token demo_tokens))
  /\ (forall token,
        fst (validateResetToken 2000 token
               (clearExpiredTokens 2000 demo_tokens)) = true
        -> snd (validateResetToken 2000 token
                  (clearExpiredTokens 2000 demo_tokens))
           = clearExpiredTokens 2000 demo_tokens)
  /\ clearExpiredTokens 2000 (clearExpiredTokens 2000 demo_tokens)
     = clearExpiredTokens 2000 demo_tokens.
Proof.
  apply (clearExpiredTokens_keeps_the_valid 2000 demo_tokens).
  simpl. constructor.
  - intros [E|[]]. discriminate E.
  - constructor; [intros [] | constructor].
Defined.

(** ** A call and the lists that show it *)

Lemma recordNewCall_log_date :
  forall (now : string) (u : Z) (n : string) (d : log_data) (s : store)
         (pn : PhoneNumber.t) (cl : CallLog.t) (w' : world),
    recordNewCall now u (mkCallData n d) (healthy s) = (Ok (pn, cl), w') ->
    CallLog.date cl = ld_date d.
Proof.
  intros now u n d s pn cl w'. unfold recordNewCall. run_db.
  destruct (hd_error _) as [x|]; simpl.
  - destruct (ld_nextFollowUpDate d) as [next|]; [destruct (truthy next)|];
      simpl; intro H; inversion H; reflexivity.
  - unfold insert_phoneNumber. destruct (existsb _ _); simpl;
      [discriminate|].
    destruct (ld_nextFollowUpDate d) as [next|]; [destruct (truthy next)|];
      simpl; intro H; inversion H; reflexivity.
Qed.

(** X25: on a store respecting [UNIQUE(userId, number)] and a healthy
    engine, a recorded call is visible at once: [getPhoneNumbers] of the
    caller lists the number with the call's date as last call, and
    [getCallLogs] lists the new log under that number. *)
Theorem recorded_call_is_listed :
  forall (now : string) (u : Z) (n : string) (d : log_data) (s : store),
    unique_phone s ->
    exists pn cl s' phones logs,
      recordNewCall now u (mkCallData n d) (healthy s)
      = (Ok (pn, cl), healthy s')
      /\ getPhoneNumbers u (healthy s') = (Ok phones, healthy s')
      /\ getCallLogs u (healthy s') = (Ok logs, healthy s')
      /\ In pn phones
      /\ PhoneNumber.number pn = n
      /\ PhoneNumber.lastCalledDate pn = ld_date d
      /\ In (cl, n) logs
      /\ CallLog.date cl = ld_date d.
Proof.
  intros now u n d s Hu.
  assert (Hrun : exists pn cl s',
    recordNewCall now u (mkCallData n d) (healthy s)
    = (Ok (pn, cl), healthy s')
    /\ select (same_phone u n) (PhoneNumbers s') = [pn]
    /\ PhoneNumber.lastCalledDate pn = ld_date d
    /\ rows (CallLogs s') = rows (CallLogs s) ++ [cl]
    /\ CallLog.phoneNumberId cl = PhoneNumber.id pn
    /\ CallLog.date cl = ld_date d).
  { destruct (unique_phone_select u n s Hu) as [Hnone|[x Hone]].
    - destruct (recordNewCall_new_number now u n d s Hnone)
        as (pn & cl & s' & Hrun & Hsel & Hdate & _ & Hlogs & Hid).
      exists pn, cl, s'. repeat split; try assumption.
      eapply recordNewCall_log_date, Hrun.
    - destruct (recordNewCall_known_number now u n d s x Hone)
        as (cl & s' & Hrun & Hsel & _ & Hlogs & Hid & Hdate).
      exists (PhoneNumber.set_lastCalledDate (ld_date d) x), cl, s'.
      repeat split; assumption. }
  destruct Hrun as (pn & cl & s' & Hrun & Hsel & Hdate & Hlogs & Hid & Hcl).
  assert (Hpn : In pn (rows (PhoneNumbers s')) /\ same_phone u n pn = true).
  { apply filter_In. fold (select (same_phone u n) (PhoneNumbers s')).
    rewrite Hsel. left. reflexivity. }
  destruct Hpn as [Hin Hsame]. apply same_phone_iff in Hsame.
  injection Hsame as Huser Hnumber.
  exists pn, cl, s'. do 2 eexists. split; [exact Hrun|].
  split; [reflexivity|]. split; [reflexivity|].
  split; [|split; [exact Hnumber|split; [exact Hdate|split; [|exact Hcl]]]].
  - apply stable_sort_In. unfold select. apply filter_In.
    split; [exact Hin|]. apply Z.eqb_eq, Huser.
  - apply stable_sort_In, in_flat_map. exists cl. split.
    + rewrite Hlogs. apply in_or_app. right. left. reflexivity.
    + apply in_map_iff. exists pn. split; [rewrite Hnumber; reflexivity|].
      apply filter_In. split; [exact Hin|].
      apply andb_true_iff. rewrite !Z.eqb_eq. split; [symmetry|]; assumption.
Qed.

Lemma recorded_call_is_listed_witness :
  exists pn cl s' phones logs,
    recordNewCall "t1"%string 7 (mkCallData "0700111222"%string lead_call)
      (healthy store_with_phones)
    = (Ok (pn, cl), healthy s')
    /\ getPhoneNumbers 7 (healthy s') = (Ok phones, healthy s')
    /\ getCallLogs 7 (healthy s') = (Ok logs, healthy s')
    /\ In pn phones
    /\ PhoneNumber.number pn = "0700111222"%string
    /\ PhoneNumber.lastCalledDate pn = ld_date lead_call
    /\ In (cl, "0700111222"%string) logs
    /\ CallLog.date cl = ld_date lead_call.
Proof.
  apply (recorded_call_is_listed "t1"%string 7 "0700111222"%string lead_call
           store_with_phones).
  unfold unique_phone. simpl. constructor.
  - intros [E|[]]. discriminate E.
  - constructor; [intros [] | constructor].
Defined.

(** End of the development. *)
